(** * The autonomous task executor (lib/autonomous/task-executor.ts)

    A shallow embedding of [AutonomousTaskExecutor]: the job table, the
    priority queue, the running set, the control loop and the control
    operations, followed by the properties of the scheduler.

    JavaScript is single threaded: an [async] function runs without
    interruption from one [await] to the next.  Every such uninterrupted
    stretch is one [Event] of the model, and a run of the program is a
    list of events applied in order. *)

From stdpp Require Import gmap strings list fin_maps pretty sorting.
From Stdlib Require Import ZArith Lia.

Local Open Scope Z_scope.

(** ** Data model *)

(** [priority: 'low' | 'medium' | 'high' | 'critical'] *)
Inductive Priority := low | medium | high | critical.

(** [status: 'queued' | 'running' | 'completed' | 'failed' | 'paused'] *)
Inductive Status := queued | running | completed | failed | paused.

#[global] Instance Priority_eq_dec : EqDecision Priority.
Proof. solve_decision. Defined.

#[global] Instance Status_eq_dec : EqDecision Status.
Proof. solve_decision. Defined.

(** The object stored in [task.result] on completion. *)
Record TaskResult := { success : bool; message : string }.

(** [interface AutonomousTask].  Dates are milliseconds since the epoch;
    the optional fields ([startedAt?], [result?], ...) are options. *)
Module Task.
Record t := mk {
  id : string;
  name : string;
  description : string;
  priority : Priority;
  status : Status;
  progress : Z;
  createdAt : N;
  startedAt : option N;
  completedAt : option N;
  result : option TaskResult;
  error : option string;
  dependencies : option (list string);
  retries : Z;
  maxRetries : Z
}.

Definition set_status (v : Status) (x : t) : t :=
  mk (id x) (name x) (description x) (priority x) v (progress x)
     (createdAt x) (startedAt x) (completedAt x) (result x) (error x)
     (dependencies x) (retries x) (maxRetries x).

Definition set_progress (v : Z) (x : t) : t :=
  mk (id x) (name x) (description x) (priority x) (status x) v
     (createdAt x) (startedAt x) (completedAt x) (result x) (error x)
     (dependencies x) (retries x) (maxRetries x).

Definition set_startedAt (v : N) (x : t) : t :=
  mk (id x) (name x) (description x) (priority x) (status x) (progress x)
     (createdAt x) (Some v) (completedAt x) (result x) (error x)
     (dependencies x) (retries x) (maxRetries x).

Definition set_completedAt (v : N) (x : t) : t :=
  mk (id x) (name x) (description x) (priority x) (status x) (progress x)
     (createdAt x) (startedAt x) (Some v) (result x) (error x)
     (dependencies x) (retries x) (maxRetries x).

Definition set_result (v : TaskResult) (x : t) : t :=
  mk (id x) (name x) (description x) (priority x) (status x) (progress x)
     (createdAt x) (startedAt x) (completedAt x) (Some v) (error x)
     (dependencies x) (retries x) (maxRetries x).

Definition set_error (v : string) (x : t) : t :=
  mk (id x) (name x) (description x) (priority x) (status x) (progress x)
     (createdAt x) (startedAt x) (completedAt x) (result x) (Some v)
     (dependencies x) (retries x) (maxRetries x).

Definition set_retries (v : Z) (x : t) : t :=
  mk (id x) (name x) (description x) (priority x) (status x) (progress x)
     (createdAt x) (startedAt x) (completedAt x) (result x) (error x)
     (dependencies x) v (maxRetries x).
End Task.

(** [interface TaskExecutorConfig] *)
Record TaskExecutorConfig := {
  maxConcurrent : Z;
  retryDelay : Z;
  defaultMaxRetries : Z
}.

(** [Partial<TaskExecutorConfig>], the constructor's argument. *)
Record PartialConfig := {
  given_maxConcurrent : option Z;
  given_retryDelay : option Z;
  given_defaultMaxRetries : option Z
}.

(** The [options] argument of [createTask]. *)
Record TaskOptions := {
  opt_priority : option Priority;
  opt_dependencies : option (list string);
  opt_maxRetries : option Z
}.

(** The caller's [executor: () => Promise<any>]: what its n-th call would
    settle to. *)
Inductive Outcome := Resolves (value : string) | Rejects (reason : string).
Definition Body := nat -> Outcome.

(** Where a suspended call of [executeTask] waits: in the progress loop
    with loop variable [i], or in the retry delay of the [catch] block. *)
Inductive Await := AwaitProgress (i : Z) | AwaitRetryDelay.

(** A suspended call of [executeTask]: its local [task] (a reference to
    the task object), its argument [taskId], and where it waits. *)
Record Activation := {
  act_task : nat;
  act_taskId : string;
  act_await : Await
}.

(** The executor.  Task objects live in [heap] and are referred to by
    their index, as [this.tasks] and the local variables of suspended
    calls share them; [tasks] is the [Map] from id to object. *)
Record Executor := {
  heap : list Task.t;
  tasks : gmap string nat;
  runningTasks : gset string;
  taskQueue : list string;
  config : TaskExecutorConfig;
  isRunning : bool;
  suspended : list Activation
}.

Definition with_heap (h : list Task.t) (s : Executor) : Executor :=
  {| heap := h; tasks := tasks s; runningTasks := runningTasks s;
     taskQueue := taskQueue s; config := config s; isRunning := isRunning s;
     suspended := suspended s |}.

Definition with_tasks (m : gmap string nat) (s : Executor) : Executor :=
  {| heap := heap s; tasks := m; runningTasks := runningTasks s;
     taskQueue := taskQueue s; config := config s; isRunning := isRunning s;
     suspended := suspended s |}.

Definition with_runningTasks (r : gset string) (s : Executor) : Executor :=
  {| heap := heap s; tasks := tasks s; runningTasks := r;
     taskQueue := taskQueue s; config := config s; isRunning := isRunning s;
     suspended := suspended s |}.

Definition with_taskQueue (q : list string) (s : Executor) : Executor :=
  {| heap := heap s; tasks := tasks s; runningTasks := runningTasks s;
     taskQueue := q; config := config s; isRunning := isRunning s;
     suspended := suspended s |}.

Definition with_isRunning (b : bool) (s : Executor) : Executor :=
  {| heap := heap s; tasks := tasks s; runningTasks := runningTasks s;
     taskQueue := taskQueue s; config := config s; isRunning := b;
     suspended := suspended s |}.

Definition with_suspended (a : list Activation) (s : Executor) : Executor :=
  {| heap := heap s; tasks := tasks s; runningTasks := runningTasks s;
     taskQueue := taskQueue s; config := config s; isRunning := isRunning s;
     suspended := a |}.

(** Assignment to fields of the object at reference [l]. *)
Definition update (l : nat) (f : Task.t -> Task.t) (s : Executor) : Executor :=
  with_heap (alter f l (heap s)) s.

(** ** JavaScript idioms *)

(** [x || d] on an optional number: [undefined] and [0] are falsy. *)
Definition or_number (x : option Z) (d : Z) : Z :=
  match x with
  | Some v => if v =? 0 then d else v
  | None => d
  end.

(** [x || d] on an optional string or array: only [undefined] is falsy
    (the priority literals are non-empty, and every array is truthy). *)
Definition or_object {A} (x : option A) (d : A) : A :=
  match x with
  | Some v => v
  | None => d
  end.

(** [if (taskId)] on a string: the empty string is falsy. *)
Definition truthy (x : string) : bool :=
  match x with
  | EmptyString => false
  | String _ _ => true
  end.

(** [a.splice(i, 0, x)] *)
Definition splice_insert {A} (i : nat) (x : A) (a : list A) : list A :=
  take i a ++ x :: drop i a.

(** ** Construction *)

Definition new_executor (cfg : option PartialConfig) : Executor :=
  {| heap := [];
     tasks := ∅;
     runningTasks := ∅;
     taskQueue := [];
     config :=
       {| maxConcurrent := or_number (cfg ≫= given_maxConcurrent) 3;
          retryDelay := or_number (cfg ≫= given_retryDelay) 5000;
          defaultMaxRetries := or_number (cfg ≫= given_defaultMaxRetries) 3 |};
     isRunning := false;
     suspended := [] |}.

(** ** Queries *)

(** [getTask] *)
Definition getTask (taskId : string) (s : Executor) : option Task.t :=
  l ← tasks s !! taskId; heap s !! l.

(** [getAllTasks]: the values of the [Map].  A JavaScript [Map] lists
    them in the order of insertion and [map_to_list] in the order of the
    keys; the operations below use the list as a collection only. *)
Definition getAllTasks (s : Executor) : list Task.t :=
  omap (λ kv : string * nat, heap s !! kv.2) (map_to_list (tasks s)).

(** [getTasksByStatus] *)
Definition getTasksByStatus (st : Status) (s : Executor) : list Task.t :=
  filter (λ task, Task.status task = st) (getAllTasks s).

Record Stats := {
  total : nat;
  n_queued : nat;
  n_running : nat;
  n_completed : nat;
  n_failed : nat;
  n_paused : nat
}.

(** [getStats] *)
Definition getStats (s : Executor) : Stats :=
  {| total := size (tasks s);
     n_queued := length (getTasksByStatus queued s);
     n_running := length (getTasksByStatus running s);
     n_completed := length (getTasksByStatus completed s);
     n_failed := length (getTasksByStatus failed s);
     n_paused := length (getTasksByStatus paused s) |}.

(** ** Submission *)

(** [generateTaskId]: [stamp] is [Date.now()], [rnd] the base-36 digits
    taken from [Math.random()]. *)
Definition generateTaskId (stamp : N) (rnd : string) : string :=
  "task_" +:+ pretty stamp +:+ "_" +:+ rnd.

Arguments generateTaskId : simpl never.

(** [priorityOrder] *)
Definition priorityOrder (p : Priority) : Z :=
  match p with
  | critical => 0
  | high => 1
  | medium => 2
  | low => 3
  end.

(** The test of the scan in [queueTask]:
    [queuedTask && priorityOrder[queuedTask.priority] > taskPriority]. *)
Definition ranks_after (s : Executor) (taskPriority : Z) (queuedId : string) : bool :=
  match getTask queuedId s with
  | Some queuedTask => taskPriority <? priorityOrder (Task.priority queuedTask)
  | None => false
  end.

(** The scan of [queueTask]: the first index that passes the test, or
    the length of the queue. *)
Definition insertIndex (s : Executor) (taskPriority : Z) : nat :=
  match list_find (λ queuedId, ranks_after s taskPriority queuedId = true) (taskQueue s) with
  | Some (i, _) => i
  | None => length (taskQueue s)
  end.

(** [queueTask] *)
Definition queueTask (taskId : string) (s : Executor) : Executor :=
  match getTask taskId s with
  | None => s
  | Some task =>
      let taskPriority := priorityOrder (Task.priority task) in
      with_taskQueue (splice_insert (insertIndex s taskPriority) taskId (taskQueue s)) s
  end.

(** [createTask].  [stamp] and [rnd] feed [generateTaskId]; [now] is the
    [new Date()] of [createdAt].  The [executor] argument is not stored. *)
Definition createTask (name description : string) (executor : Body)
    (options : option TaskOptions) (stamp : N) (rnd : string) (now : N)
    (s : Executor) : string * Executor :=
  let taskId := generateTaskId stamp rnd in
  let task :=
    {| Task.id := taskId;
       Task.name := name;
       Task.description := description;
       Task.priority := or_object (options ≫= opt_priority) medium;
       Task.status := queued;
       Task.progress := 0;
       Task.createdAt := now;
       Task.startedAt := None;
       Task.completedAt := None;
       Task.result := None;
       Task.error := None;
       Task.dependencies := Some (or_object (options ≫= opt_dependencies) []);
       Task.retries := 0;
       Task.maxRetries :=
         or_number (options ≫= opt_maxRetries) (defaultMaxRetries (config s)) |} in
  let l := length (heap s) in
  let s1 := with_tasks (<[taskId := l]> (tasks s)) (with_heap (heap s ++ [task]) s) in
  (taskId, queueTask taskId s1).

(** ** Execution *)

(** [dep && dep.status === 'completed'] *)
Definition dep_completed (s : Executor) (depId : string) : bool :=
  match getTask depId s with
  | Some dep => bool_decide (Task.status dep = completed)
  | None => false
  end.

(** The dependency check of [executeTask]: [true] when the task has to
    be put back. *)
Definition deps_pending (s : Executor) (task : Task.t) : bool :=
  match Task.dependencies task with
  | Some (d :: ds) => negb (forallb (dep_completed s) (d :: ds))
  | _ => false
  end.

(** [executeTask] from its call to its first [await]. *)
Definition executeTask (now : N) (taskId : string) (s : Executor) : Executor :=
  match tasks s !! taskId with
  | None => s
  | Some l =>
      match heap s !! l with
      | None => s
      | Some task =>
          if deps_pending s task then
            with_taskQueue (taskQueue s ++ [taskId]) s
          else
            let s1 := with_runningTasks ({[taskId]} ∪ runningTasks s) s in
            let s2 := update l (Task.set_status running) s1 in
            let s3 := update l (Task.set_startedAt now) s2 in
            let s4 := update l (Task.set_progress 0) s3 in
            let s5 := update l (Task.set_progress 0) s4 in
            with_suspended
              (suspended s5 ++ [{| act_task := l; act_taskId := taskId;
                                   act_await := AwaitProgress 0 |}]) s5
      end
  end.

(** How a stretch of the [try] block ends. *)
Inductive Completion := Normal | Throw (msg : string).

(** The statements of the [try] block after the progress loop; [now] is
    the [new Date()] of [completedAt]. *)
Definition mark_completed (now : N) (l : nat) (s : Executor) : Executor :=
  let name := default "" (Task.name <$> heap s !! l) in
  let s1 := update l (Task.set_status completed) s in
  let s2 := update l (Task.set_completedAt now) s1 in
  let s3 := update l (Task.set_progress 100) s2 in
  update l (Task.set_result
              {| success := true;
                 message := "Task " +:+ name +:+ " completed successfully" |}) s3.

(** The [try] block from the end of one [await] of the progress loop to
    the next [await], or to the end of the block: the loop variable is
    advanced and tested, then either [progress] is assigned and the loop
    waits again ([Some] of the new loop variable), or the loop is left
    and the task is marked completed.  No statement here raises. *)
Definition try_stretch (now : N) (l : nat) (i : Z) (s : Executor)
    : Executor * Completion * option Z :=
  let i := i + 10 in
  if i <=? 100 then
    (update l (Task.set_progress i) s, Normal, Some i)
  else
    (mark_completed now l s, Normal, None).

(** The [finally] block; [k] is the position of the call among the
    suspended ones. *)
Definition executeTask_finally (k : nat) (taskId : string) (s : Executor) : Executor :=
  with_suspended (delete k (suspended s))
    (with_runningTasks (runningTasks s ∖ {[taskId]}) s).

(** The [catch] block up to its [await] (retry) or its end (failure). *)
Definition executeTask_catch (k : nat) (l : nat) (taskId : string) (msg : string)
    (s : Executor) : Executor :=
  let s1 := update l (Task.set_error msg) s in
  match heap s1 !! l with
  | None => executeTask_finally k taskId s1
  | Some task =>
      if Task.retries task <? Task.maxRetries task then
        let s2 := update l (Task.set_retries (Task.retries task + 1)) s1 in
        let s3 := update l (Task.set_status queued) s2 in
        let s4 := with_taskQueue (taskQueue s3 ++ [taskId]) s3 in
        with_suspended
          (<[k := {| act_task := l; act_taskId := taskId;
                     act_await := AwaitRetryDelay |}]> (suspended s4)) s4
      else
        executeTask_finally k taskId (update l (Task.set_status failed) s1)
  end.

(** The [k]-th suspended call of [executeTask] continues after its
    [await] and runs to its next [await] or to its end. *)
Definition executeTask_continue (now : N) (k : nat) (s : Executor) : Executor :=
  match suspended s !! k with
  | None => s
  | Some a =>
      let l := act_task a in
      let taskId := act_taskId a in
      match act_await a with
      | AwaitProgress i =>
          match try_stretch now l i s with
          | (s1, Normal, Some i') =>
              with_suspended
                (<[k := {| act_task := l; act_taskId := taskId;
                           act_await := AwaitProgress i' |}]> (suspended s1)) s1
          | (s1, Normal, None) => executeTask_finally k taskId s1
          | (s1, Throw msg, _) => executeTask_catch k l taskId msg s1
          end
      | AwaitRetryDelay => executeTask_finally k taskId s
      end
  end.

(** ** The control loop *)

(** The body of the [while] loop of [processQueue], up to its [await]. *)
Definition processQueue_body (now : N) (s : Executor) : Executor :=
  if (Z.of_nat (size (runningTasks s)) <? maxConcurrent (config s))
     && (0 <? Z.of_nat (length (taskQueue s))) then
    match taskQueue s with
    | [] => s
    | taskId :: rest =>
        let s1 := with_taskQueue rest s in
        if truthy taskId then executeTask now taskId s1 else s1
    end
  else s.

(** One turn of [while (this.isRunning)]. *)
Definition processQueue_turn (now : N) (s : Executor) : Executor :=
  if isRunning s then processQueue_body now s else s.

(** [start]: the call of [processQueue] runs the first turn of the loop
    before [start] returns. *)
Definition start (now : N) (s : Executor) : Executor :=
  if isRunning s then s
  else processQueue_turn now (with_isRunning true s).

(** [stop] *)
Definition stop (s : Executor) : Executor := with_isRunning false s.

(** ** Control operations *)

(** [pauseTask] *)
Definition pauseTask (taskId : string) (s : Executor) : Executor :=
  match tasks s !! taskId with
  | None => s
  | Some l =>
      match heap s !! l with
      | Some task =>
          if bool_decide (Task.status task = running)
          then update l (Task.set_status paused) s
          else s
      | None => s
      end
  end.

(** [resumeTask] *)
Definition resumeTask (taskId : string) (s : Executor) : Executor :=
  match tasks s !! taskId with
  | None => s
  | Some l =>
      match heap s !! l with
      | Some task =>
          if bool_decide (Task.status task = paused)
          then queueTask taskId (update l (Task.set_status queued) s)
          else s
      | None => s
      end
  end.

(** [a.indexOf(x)] followed by [a.splice(index, 1)] when found. *)
Definition remove_first (x : string) (a : list string) : list string :=
  match list_find (λ y, y = x) a with
  | Some (queueIndex, _) => delete queueIndex a
  | None => a
  end.

(** [cancelTask] *)
Definition cancelTask (taskId : string) (s : Executor) : Executor :=
  match tasks s !! taskId with
  | None => s
  | Some l =>
      match heap s !! l with
      | Some task =>
          let s1 := update l (Task.set_status failed) s in
          let s2 := update l (Task.set_error "Cancelled by user") s1 in
          with_taskQueue (remove_first taskId (taskQueue s2)) s2
      | None => s
      end
  end.

(** [clearCompleted] *)
Definition clearCompleted (s : Executor) : Executor :=
  let completedTasks := getTasksByStatus completed s in
  with_tasks (foldl (λ m task, delete (Task.id task) m) (tasks s) completedTasks) s.

(** ** Runs *)

(** The uninterrupted stretches of the program: the public methods, a
    turn of the control loop, and the continuation of a suspended
    [executeTask]. *)
Inductive Event :=
  | CreateTask (name description : string) (executor : Body)
      (options : option TaskOptions) (stamp : N) (rnd : string) (now : N)
  | Start (now : N)
  | Stop
  | LoopTurn (now : N)
  | Continue (k : nat) (now : N)
  | PauseTask (taskId : string)
  | ResumeTask (taskId : string)
  | CancelTask (taskId : string)
  | ClearCompleted.

Definition step (e : Event) (s : Executor) : Executor :=
  match e with
  | CreateTask name description executor options stamp rnd now =>
      (createTask name description executor options stamp rnd now s).2
  | Start now => start now s
  | Stop => stop s
  | LoopTurn now => processQueue_turn now s
  | Continue k now => executeTask_continue now k s
  | PauseTask taskId => pauseTask taskId s
  | ResumeTask taskId => resumeTask taskId s
  | CancelTask taskId => cancelTask taskId s
  | ClearCompleted => clearCompleted s
  end.

(** The events of [es] applied from left to right. *)
Definition run (es : list Event) (s : Executor) : Executor :=
  foldl (λ s e, step e s) s es.

(** The states the executor can be in. *)
Definition reachable (s : Executor) : Prop :=
  ∃ cfg es, s = run es (new_executor cfg).

(** ** Invariants of the state *)

(** Every entry of the job table refers to an object of the heap, is
    stored under the [id] of that object, and its key was produced by
    [generateTaskId]. *)
Definition table_ok (h : list Task.t) (m : gmap string nat) : Prop :=
  ∀ taskId l, m !! taskId = Some l →
    ∃ task, h !! l = Some task ∧ Task.id task = taskId
            ∧ ∃ stamp rnd, taskId = generateTaskId stamp rnd.

(** The running set is within the concurrency cap. *)
Definition within_capacity (s : Executor) : Prop :=
  Z.of_nat (size (runningTasks s)) ≤ maxConcurrent (config s).

(** Every id of the running set was put there by a call of [executeTask]
    that has not finished. *)
Definition running_suspended (s : Executor) : Prop :=
  ∀ taskId, taskId ∈ runningTasks s →
    ∃ a, a ∈ suspended s ∧ act_taskId a = taskId.

(** A suspended call that runs to its end when it continues. *)
Definition finishing (a : Activation) : Prop :=
  match act_await a with
  | AwaitProgress i => 100 < i + 10
  | AwaitRetryDelay => True
  end.

(** ** The status of a job over a step *)

(** The status of the task object at reference [l]. *)
Definition status_at (l : nat) (s : Executor) : option Status :=
  Task.status <$> heap s !! l.




(** ** Fresh ids *)

(** [generateTaskId] is meant to give an id that is not in use.  An
    event respects this in state [s] when it is not a submission, or its
    generated id is neither in the job table nor in the queue. *)
Definition fresh_id (e : Event) (s : Executor) : bool :=
  match e with
  | CreateTask _ _ _ _ stamp rnd _ =>
      bool_decide (tasks s !! generateTaskId stamp rnd = None)
      && bool_decide (generateTaskId stamp rnd ∉ taskQueue s)
  | _ => true
  end.

(** Every submission of the run [es] from [s] generates a fresh id. *)
Fixpoint fresh_ids (es : list Event) (s : Executor) : bool :=
  match es with
  | [] => true
  | e :: es' => fresh_id e s && fresh_ids es' (step e s)
  end.

(** The queue holds no id twice, and a queued id of the job table is
    the id of a job that is queued or has completed. *)
Definition queue_ok (s : Executor) : Prop :=
  NoDup (taskQueue s)
  ∧ ∀ taskId task, taskId ∈ taskQueue s → getTask taskId s = Some task →
      Task.status task = queued ∨ Task.status task = completed.

(** ** Submissions and the order of the queue *)

(** The arguments of one call of [createTask], with the clock and random
    values it reads. *)
Record Submission := {
  sub_name : string;
  sub_description : string;
  sub_executor : Body;
  sub_options : option TaskOptions;
  sub_stamp : N;
  sub_rnd : string;
  sub_now : N
}.

Definition submit (sub : Submission) : Event :=
  CreateTask (sub_name sub) (sub_description sub) (sub_executor sub)
    (sub_options sub) (sub_stamp sub) (sub_rnd sub) (sub_now sub).

(** The id and the priority that [createTask] gives to a submission. *)
Definition submitted_id (sub : Submission) : string :=
  generateTaskId (sub_stamp sub) (sub_rnd sub).

Definition submitted_priority (sub : Submission) : Priority :=
  or_object (sub_options sub ≫= opt_priority) medium.

(** The ids of the submissions of priority [p], in the order of
    submission. *)
Definition submitted_with (p : Priority) (subs : list Submission) : list string :=
  submitted_id <$> filter (λ sub, submitted_priority sub = p) subs.

(** The submitted ids in non-decreasing priority rank, those of equal
    priority in the order of submission. *)
Definition by_priority (subs : list Submission) : list string :=
  submitted_with critical subs ++ submitted_with high subs
  ++ submitted_with medium subs ++ submitted_with low subs.

(** The submissions in non-decreasing priority rank, those of equal
    priority in the order of submission; [by_priority] lists their ids. *)
Definition in_priority_order (subs : list Submission) : list Submission :=
  filter (λ sub, submitted_priority sub = critical) subs
  ++ filter (λ sub, submitted_priority sub = high) subs
  ++ filter (λ sub, submitted_priority sub = medium) subs
  ++ filter (λ sub, submitted_priority sub = low) subs.

(** The id that a turn of the control loop takes from the queue, by
    [this.taskQueue.shift()]. *)
Definition turn_dequeues (s : Executor) : option string :=
  if (Z.of_nat (size (runningTasks s)) <? maxConcurrent (config s))
     && (0 <? Z.of_nat (length (taskQueue s))) then
    head (taskQueue s)
  else None.

(** The id that the event [e] takes from the queue in state [s]. *)
Definition dequeues (e : Event) (s : Executor) : option string :=
  match e with
  | Start _ => if isRunning s then None else turn_dequeues (with_isRunning true s)
  | LoopTurn _ => if isRunning s then turn_dequeues s else None
  | _ => None
  end.

(** The event [e] takes a job from the queue and puts it back because
    of its dependencies. *)
Definition defers (e : Event) (s : Executor) : bool :=
  match dequeues e s with
  | Some taskId =>
      match getTask taskId s with
      | Some task => deps_pending s task
      | None => false
      end
  | None => false
  end.

(** The ids taken from the queue over the run [es] from [s], in order. *)
Fixpoint dequeue_log (es : list Event) (s : Executor) : list string :=
  match es with
  | [] => []
  | e :: es' =>
      match dequeues e s with
      | Some taskId => taskId :: dequeue_log es' (step e s)
      | None => dequeue_log es' (step e s)
      end
  end.

(** No job is put back because of its dependencies over the run. *)
Fixpoint never_defers (es : list Event) (s : Executor) : bool :=
  match es with
  | [] => true
  | e :: es' => negb (defers e s) && never_defers es' (step e s)
  end.

(** The events of the control loop and of the executions it starts. *)
Definition loop_event (e : Event) : bool :=
  match e with
  | Start _ | Stop | LoopTurn _ | Continue _ _ => true
  | _ => false
  end.

(** The state after the submissions [subs]: every submitted job is in
    the table with its priority, and the queue is [by_priority subs]. *)
Definition submitted_ok (subs : list Submission) (s : Executor) : Prop :=
  (∀ sub, sub ∈ subs →
     ∃ task, getTask (submitted_id sub) s = Some task
             ∧ Task.priority task = submitted_priority sub)
  ∧ taskQueue s = by_priority subs.

(** No task object has a dependency. *)
Definition no_dependencies (h : list Task.t) : Prop :=
  Forall (λ task, Task.dependencies task = Some []) h.

(** ** What a step assigns to a task object *)

(** The assignments of [executeTask] when it starts a job. *)
Definition started (now : N) (task : Task.t) : Task.t :=
  Task.set_progress 0
    (Task.set_progress 0 (Task.set_startedAt now (Task.set_status running task))).

(** The assignments of [executeTask] after its progress loop. *)
Definition finished (now : N) (task : Task.t) : Task.t :=
  Task.set_result
    {| success := true;
       message := "Task " +:+ Task.name task +:+ " completed successfully" |}
    (Task.set_progress 100
       (Task.set_completedAt now (Task.set_status completed task))).

(** The assignments of [cancelTask]. *)
Definition cancelled (task : Task.t) : Task.t :=
  Task.set_error "Cancelled by user" (Task.set_status failed task).

(** The event [e] in state [s] assigns to the object [l] as [f] does:
    the control loop starts the job at the head of the queue, a suspended
    call advances or ends, or a control operation acts on its job. *)
Definition assigns (s : Executor) (e : Event) (l : nat) (f : Task.t → Task.t) : Prop :=
  match e with
  | Start now | LoopTurn now =>
      f = started now
      ∧ ∃ taskId, head (taskQueue s) = Some taskId ∧ tasks s !! taskId = Some l
  | Continue k now =>
      ∃ a i, suspended s !! k = Some a ∧ act_task a = l
             ∧ act_await a = AwaitProgress i
             ∧ f = if i + 10 <=? 100 then Task.set_progress (i + 10) else finished now
  | PauseTask taskId =>
      tasks s !! taskId = Some l ∧ f = Task.set_status paused
      ∧ status_at l s = Some running
  | ResumeTask taskId =>
      tasks s !! taskId = Some l ∧ f = Task.set_status queued
      ∧ status_at l s = Some paused
  | CancelTask taskId => tasks s !! taskId = Some l ∧ f = cancelled
  | CreateTask _ _ _ _ _ _ _ | Stop | ClearCompleted => False
  end.

(** The fields of a job that are given at its submission. *)
Definition same_submission (task task' : Task.t) : Prop :=
  Task.id task' = Task.id task
  ∧ Task.name task' = Task.name task
  ∧ Task.description task' = Task.description task
  ∧ Task.priority task' = Task.priority task
  ∧ Task.createdAt task' = Task.createdAt task
  ∧ Task.dependencies task' = Task.dependencies task
  ∧ Task.maxRetries task' = Task.maxRetries task.

(** A job without a retry behind it, whose error, if any, is the one of
    [cancelTask]. *)
Definition unretried (task : Task.t) : Prop :=
  Task.retries task = 0
  ∧ (Task.error task = None ∨ Task.error task = Some "Cancelled by user").

(** The values of [progress], and of the loop variable of a suspended
    call. *)
Definition percent (i : Z) : Prop := 0 ≤ i ≤ 100 ∧ (10 | i).

(** ** Jobs that are out of the queue for good *)

(** The id that a submission generates. *)
Definition creates (e : Event) : option string :=
  match e with
  | CreateTask _ _ _ _ stamp rnd _ => Some (generateTaskId stamp rnd)
  | _ => None
  end.

(** The id is not in the queue, and the job it names, if any, is failed
    or completed. *)
Definition out_of_queue (taskId : string) (s : Executor) : Prop :=
  (taskId ∉ taskQueue s)
  ∧ ∀ task, getTask taskId s = Some task →
      Task.status task = failed ∨ Task.status task = completed.

(** Every job of the table that is queued has its id in the queue. *)
Definition queued_in_queue (s : Executor) : Prop :=
  ∀ taskId task, getTask taskId s = Some task → Task.status task = queued →
    taskId ∈ taskQueue s.

(** ** Generated ids *)

(** The values of the clock and of the random source that a submission
    reads for its id. *)
Definition readings (e : Event) : option (N * string) :=
  match e with
  | CreateTask _ _ _ _ stamp rnd _ => Some (stamp, rnd)
  | _ => None
  end.

(** The decimal digits, of which the numeral of [Date.now()] is made. *)
Definition is_digit (c : Ascii.ascii) : bool :=
  bool_decide (c ∈ String.list_ascii_of_string "0123456789").

Fixpoint digits (x : string) : bool :=
  match x with
  | EmptyString => true
  | String c x' => is_digit c && digits x'
  end.

(** Every id of the job table and of the queue is one of [ids]. *)
Definition ids_within (ids : list string) (s : Executor) : Prop :=
  ∀ taskId, is_Some (tasks s !! taskId) ∨ taskId ∈ taskQueue s → taskId ∈ ids.

(** ** Slots *)

(** A job that is under way: its status is running or paused. *)
Definition under_way (task : Task.t) : Prop :=
  Task.status task = running ∨ Task.status task = paused.

(** Every task object that is under way has its id in the running set. *)
Definition slots_ok (s : Executor) : Prop :=
  ∀ l task, heap s !! l = Some task → under_way task →
    Task.id task ∈ runningTasks s.

(** Every suspended call of [executeTask] works on a task object that
    bears the id the call was made with. *)
Definition calls_ok (s : Executor) : Prop :=
  ∀ a, a ∈ suspended s →
    ∃ task, heap s !! act_task a = Some task ∧ Task.id task = act_taskId a.

(** ** The record of a job *)

(** What the fields of a task object say about each other: [result] and
    [completedAt] are set together, and only on a job that was started;
    a completed job has them; the result is the success message with the
    name of the job; a job that was never started is queued or failed,
    with progress 0; a failed job bears the error of [cancelTask]. *)
Definition record_ok (task : Task.t) : Prop :=
  (is_Some (Task.result task) ↔ is_Some (Task.completedAt task))
  ∧ (Task.status task = completed → is_Some (Task.completedAt task))
  ∧ (is_Some (Task.completedAt task) → is_Some (Task.startedAt task))
  ∧ (∀ r, Task.result task = Some r →
       r = {| success := true;
              message := "Task " +:+ Task.name task +:+ " completed successfully" |})
  ∧ (Task.startedAt task = None →
       (Task.status task = queued ∨ Task.status task = failed)
       ∧ Task.progress task = 0)
  ∧ (Task.status task = failed → Task.error task = Some "Cancelled by user").

(** Every suspended call of [executeTask] works on a task object that
    has its [startedAt]. *)
Definition calls_started (s : Executor) : Prop :=
  ∀ a, a ∈ suspended s →
    ∃ task, heap s !! act_task a = Some task ∧ is_Some (Task.startedAt task).

(** ** The clock *)

(** The time that a step reads with [new Date()]. *)
Definition clock (e : Event) : option N :=
  match e with
  | CreateTask _ _ _ _ _ _ now | Start now | LoopTurn now | Continue _ now =>
      Some now
  | _ => None
  end.

(** The clock never goes back over the run [es]: no reading is earlier
    than the one before it, nor than [t0]. *)
Fixpoint clock_ok (t0 : N) (es : list Event) : bool :=
  match es with
  | [] => true
  | e :: es' =>
      match clock e with
      | Some now => (t0 <=? now)%N && clock_ok now es'
      | None => clock_ok t0 es'
      end
  end.

(** The times of a task object are in order, and none is later than
    [t]. *)
Definition times_ok (t : N) (task : Task.t) : Prop :=
  (Task.createdAt task ≤ t)%N
  ∧ (∀ t1, Task.startedAt task = Some t1 → (Task.createdAt task ≤ t1 ≤ t)%N)
  ∧ (∀ t2, Task.completedAt task = Some t2 → (t2 ≤ t)%N)
  ∧ (Task.status task = completed →
       ∀ t1 t2, Task.startedAt task = Some t1 → Task.completedAt task = Some t2 →
         (t1 ≤ t2)%N).

(** ** Scenarios *)

(** Bodies a caller may pass to [createTask]. *)
Definition always_fails : Body := λ _, Rejects "boom".
Definition always_succeeds : Body := λ _, Resolves "done".

(** One job is submitted with the given body and [maxRetries] option,
    and the executor is started: the job is taken from the queue. *)
Definition submit_and_start (executor : Body) (maxRetries : option Z) : list Event :=
  [CreateTask "job" "a job" executor
     (Some {| opt_priority := None; opt_dependencies := None;
              opt_maxRetries := maxRetries |}) 1 "a" 1;
   Start 2].

(** The eleven continuations of the progress loop of the first suspended
    call, which take it to its end. *)
Definition to_the_end : list Event := replicate 11 (Continue 0 3).

(** A job that waits for a job that was never submitted. *)
Definition submit_blocked : list Event :=
  [CreateTask "blocked" "waits" always_succeeds
     (Some {| opt_priority := Some high; opt_dependencies := Some ["task_0_z"];
              opt_maxRetries := None |}) 1 "a" 1;
   Start 2].

(** Three jobs of priorities low, critical and medium, submitted in
    that order, and a fourth of priority high. *)
Definition job (name : string) (p : Priority) (stamp : N) (rnd : string) : Submission :=
  {| sub_name := name; sub_description := "";
     sub_executor := always_succeeds;
     sub_options := Some {| opt_priority := Some p; opt_dependencies := None;
                            opt_maxRetries := None |};
     sub_stamp := stamp; sub_rnd := rnd; sub_now := stamp |}.

Definition three_jobs : list Submission :=
  [job "first" low 1 "a"; job "second" critical 2 "b"; job "third" medium 3 "c"].

Definition fourth_job : Submission := job "fourth" high 4 "d".

(** An executor that runs one job at a time. *)
Definition one_at_a_time : option PartialConfig :=
  Some {| given_maxConcurrent := Some 1; given_retryDelay := None;
          given_defaultMaxRetries := None |}.

(** The executor is started and runs three jobs to their ends, one
    after the other. *)
Definition serve_three : list Event :=
  [Start 10] ++ to_the_end ++ [LoopTurn 20] ++ to_the_end
  ++ [LoopTurn 30] ++ to_the_end.

(** A job and a second job that depends on it are submitted, and the
    first runs to its end while the second waits in the queue. *)
Definition submit_dependent : list Event :=
  [CreateTask "first" "" always_succeeds None 1 "a" 1;
   CreateTask "second" "" always_succeeds
     (Some {| opt_priority := None; opt_dependencies := Some ["task_1_a"];
              opt_maxRetries := None |}) 2 "b" 2;
   Start 3] ++ to_the_end.

(** A started job is paused and resumed, so that it is queued again
    while its first execution goes on; that execution completes it, and
    [clearCompleted] then removes it from the table while its id is
    still in the queue. *)
Definition requeue_and_clear : list Event :=
  submit_and_start always_succeeds None
  ++ [PauseTask "task_1_a"; ResumeTask "task_1_a"] ++ to_the_end
  ++ [ClearCompleted].

(** * Properties *)

(** ** Reading the state after an assignment *)

Section Frames.
Implicit Types (s : Executor) (l : nat) (f : Task.t → Task.t) (taskId : string).

Lemma getTask_update taskId l f s :
  getTask taskId (update l f s) =
    match tasks s !! taskId with
    | Some l' => if decide (l = l') then f <$> heap s !! l' else heap s !! l'
    | None => None
    end.
Proof.
  unfold getTask, update; simpl.
  destruct (tasks s !! taskId) as [l'|]; simpl; [|done].
  case_decide as Hl.
  - subst l'. apply list_lookup_alter_eq.
  - by apply list_lookup_alter_ne.
Qed.

Lemma getTask_with_taskQueue taskId q s :
  getTask taskId (with_taskQueue q s) = getTask taskId s.
Proof. done. Qed.

Lemma queueTask_heap taskId s : heap (queueTask taskId s) = heap s.
Proof. unfold queueTask. by destruct (getTask taskId s). Qed.

Lemma queueTask_tasks taskId s : tasks (queueTask taskId s) = tasks s.
Proof. unfold queueTask. by destruct (getTask taskId s). Qed.

Lemma queueTask_runningTasks taskId s :
  runningTasks (queueTask taskId s) = runningTasks s.
Proof. unfold queueTask. by destruct (getTask taskId s). Qed.

Lemma queueTask_config taskId s : config (queueTask taskId s) = config s.
Proof. unfold queueTask. by destruct (getTask taskId s). Qed.

Lemma queueTask_suspended taskId s :
  suspended (queueTask taskId s) = suspended s.
Proof. unfold queueTask. by destruct (getTask taskId s). Qed.

Lemma queueTask_isRunning taskId s :
  isRunning (queueTask taskId s) = isRunning s.
Proof. unfold queueTask. by destruct (getTask taskId s). Qed.

Lemma getTask_queueTask taskId taskId' s :
  getTask taskId (queueTask taskId' s) = getTask taskId s.
Proof. unfold getTask. by rewrite queueTask_heap, queueTask_tasks. Qed.

End Frames.

(** ** Pausing and resuming *)

Section PauseResume.
Implicit Types (s : Executor) (taskId : string).

Lemma pauseTask_spec taskId s :
  pauseTask taskId s =
    match tasks s !! taskId, getTask taskId s with
    | Some l, Some task =>
        if decide (Task.status task = running)
        then update l (Task.set_status paused) s else s
    | _, _ => s
    end.
Proof.
  unfold pauseTask, getTask.
  destruct (tasks s !! taskId) as [l|]; simpl; [|done].
  destruct (heap s !! l) as [task|]; [|done].
  by destruct (decide (Task.status task = running)) as [->|?];
    [rewrite bool_decide_eq_true_2|rewrite bool_decide_eq_false_2].
Qed.

Lemma resumeTask_spec taskId s :
  resumeTask taskId s =
    match tasks s !! taskId, getTask taskId s with
    | Some l, Some task =>
        if decide (Task.status task = paused)
        then queueTask taskId (update l (Task.set_status queued) s) else s
    | _, _ => s
    end.
Proof.
  unfold resumeTask, getTask.
  destruct (tasks s !! taskId) as [l|]; simpl; [|done].
  destruct (heap s !! l) as [task|]; [|done].
  by destruct (decide (Task.status task = paused)) as [->|?];
    [rewrite bool_decide_eq_true_2|rewrite bool_decide_eq_false_2].
Qed.

Lemma pauseTask_not_running taskId s :
  (∀ task, getTask taskId s = Some task → Task.status task ≠ running) →
  pauseTask taskId s = s.
Proof.
  intros Hst. rewrite pauseTask_spec.
  destruct (tasks s !! taskId) as [l|]; [|done].
  destruct (getTask taskId s) as [task|] eqn:Hget; [|done].
  case_decide; [|done]. by destruct (Hst task).
Qed.

Lemma resumeTask_not_paused taskId s :
  (∀ task, getTask taskId s = Some task → Task.status task ≠ paused) →
  resumeTask taskId s = s.
Proof.
  intros Hst. rewrite resumeTask_spec.
  destruct (tasks s !! taskId) as [l|]; [|done].
  destruct (getTask taskId s) as [task|] eqn:Hget; [|done].
  case_decide; [|done]. by destruct (Hst task).
Qed.



End PauseResume.



(** ** Runs and reachable states *)

Section Reachable.
Implicit Types (s : Executor) (e : Event) (es : list Event).

Lemma run_snoc es e s : run (es ++ [e]) s = step e (run es s).
Proof. unfold run. by rewrite foldl_snoc. Qed.

Lemma run_app es1 es2 s : run (es1 ++ es2) s = run es2 (run es1 s).
Proof. unfold run. by rewrite foldl_app. Qed.

Lemma reachable_new cfg : reachable (new_executor cfg).
Proof. by exists cfg, []. Qed.

Lemma reachable_step e s : reachable s → reachable (step e s).
Proof. intros (cfg & es & ->). exists cfg, (es ++ [e]). by rewrite run_snoc. Qed.

Lemma reachable_run es s : reachable s → reachable (run es s).
Proof.
  revert s. induction es as [|e es IH]; intros s Hs; [done|].
  simpl. apply IH. by apply reachable_step.
Qed.

Lemma reachable_invariant (P : Executor → Prop) :
  (∀ cfg, P (new_executor cfg)) →
  (∀ e s, reachable s → P s → P (step e s)) →
  ∀ s, reachable s → P s.
Proof.
  intros Hnew Hstep s (cfg & es & ->).
  induction es as [|e es IH] using rev_ind; [apply Hnew|].
  rewrite run_snoc. apply Hstep; [|done]. by exists cfg, es.
Qed.

End Reachable.

(** ** The job table is keyed by the ids of its objects *)

Section Table.
Implicit Types (h : list Task.t) (m : gmap string nat) (s : Executor).

Lemma generateTaskId_truthy stamp rnd : truthy (generateTaskId stamp rnd) = true.
Proof. done. Qed.

Lemma table_ok_alter h m l f :
  (∀ task, Task.id (f task) = Task.id task) →
  table_ok h m → table_ok (alter f l h) m.
Proof.
  intros Hf Hok taskId l' Hl'.
  destruct (Hok _ _ Hl') as (task & Hh & Hid & Hgen).
  destruct (decide (l = l')) as [->|Hne].
  - exists (f task). rewrite list_lookup_alter_eq, Hh. by rewrite Hf.
  - exists task. by rewrite list_lookup_alter_ne.
Qed.

Lemma table_ok_createTask name description executor options stamp rnd now s :
  table_ok (heap s) (tasks s) →
  let s' := (createTask name description executor options stamp rnd now s).2 in
  table_ok (heap s') (tasks s').
Proof.
  intros Hok. simpl. rewrite queueTask_heap, queueTask_tasks. simpl.
  intros taskId l Hl.
  destruct (decide (generateTaskId stamp rnd = taskId)) as [<-|Hne].
  - rewrite lookup_insert_eq in Hl. injection Hl as <-.
    eexists. rewrite lookup_app_r, Nat.sub_diag by done.
    split_and!; [done..|]. by exists stamp, rnd.
  - rewrite lookup_insert_ne in Hl by done.
    destruct (Hok _ _ Hl) as (task & Hh & Hid & Hgen).
    exists task. by rewrite lookup_app_l by (by eapply lookup_lt_Some).
Qed.

Lemma foldl_delete_lookup (ts : list Task.t) m taskId :
  foldl (λ m task, delete (Task.id task) m) m ts !! taskId =
    if decide (taskId ∈ Task.id <$> ts) then None else m !! taskId.
Proof.
  revert m. induction ts as [|task ts IH]; intros m; simpl; [done|].
  rewrite IH.
  destruct (decide (taskId ∈ Task.id <$> ts)) as [Hin|Hin].
  - rewrite decide_True; [done|by right].
  - destruct (decide (Task.id task = taskId)) as [<-|Hne].
    + rewrite lookup_delete_eq, decide_True; [done|by left].
    + rewrite lookup_delete_ne, decide_False; [done| |done].
      by intros [?|?]%elem_of_cons.
Qed.

Lemma table_ok_clearCompleted s :
  table_ok (heap s) (tasks s) →
  table_ok (heap (clearCompleted s)) (tasks (clearCompleted s)).
Proof.
  intros Hok taskId l. simpl. rewrite foldl_delete_lookup.
  case_decide; [done|]. apply Hok.
Qed.

Lemma table_ok_executeTask now taskId s :
  table_ok (heap s) (tasks s) →
  table_ok (heap (executeTask now taskId s)) (tasks (executeTask now taskId s)).
Proof.
  intros Hok. unfold executeTask. repeat case_match; simpl; try done.
  by repeat apply table_ok_alter.
Qed.

Lemma table_ok_processQueue_turn now s :
  table_ok (heap s) (tasks s) →
  table_ok (heap (processQueue_turn now s)) (tasks (processQueue_turn now s)).
Proof.
  intros Hok. unfold processQueue_turn, processQueue_body.
  repeat case_match; simpl; try done.
  by apply (table_ok_executeTask now _ (with_taskQueue _ s)).
Qed.

Lemma table_ok_executeTask_finally k taskId s :
  table_ok (heap s) (tasks s) →
  table_ok (heap (executeTask_finally k taskId s))
           (tasks (executeTask_finally k taskId s)).
Proof. done. Qed.

Lemma try_stretch_Normal now l i s : (try_stretch now l i s).1.2 = Normal.
Proof. unfold try_stretch. by case_match. Qed.

Lemma executeTask_continue_spec now k s :
  executeTask_continue now k s =
    match suspended s !! k with
    | None => s
    | Some a =>
        match act_await a with
        | AwaitProgress i =>
            if i + 10 <=? 100 then
              with_suspended
                (<[k := {| act_task := act_task a; act_taskId := act_taskId a;
                           act_await := AwaitProgress (i + 10) |}]> (suspended s))
                (update (act_task a) (Task.set_progress (i + 10)) s)
            else
              executeTask_finally k (act_taskId a) (mark_completed now (act_task a) s)
        | AwaitRetryDelay => executeTask_finally k (act_taskId a) s
        end
    end.
Proof.
  unfold executeTask_continue, try_stretch.
  destruct (suspended s !! k) as [a|]; [|done].
  destruct (act_await a) as [i|]; [|done].
  by destruct (i + 10 <=? 100).
Qed.

Lemma table_ok_executeTask_continue now k s :
  table_ok (heap s) (tasks s) →
  table_ok (heap (executeTask_continue now k s))
           (tasks (executeTask_continue now k s)).
Proof.
  intros Hok. rewrite executeTask_continue_spec. unfold mark_completed.
  repeat case_match; simpl; try done; by repeat apply table_ok_alter.
Qed.

Lemma table_ok_step e s :
  table_ok (heap s) (tasks s) → table_ok (heap (step e s)) (tasks (step e s)).
Proof.
  intros Hok. destruct e; simpl.
  - by apply (table_ok_createTask name description executor options stamp rnd now).
  - unfold start. case_match; [done|].
    by apply (table_ok_processQueue_turn now (with_isRunning true s)).
  - done.
  - by apply table_ok_processQueue_turn.
  - by apply table_ok_executeTask_continue.
  - unfold pauseTask. repeat case_match; simpl; try done.
    by apply table_ok_alter.
  - unfold resumeTask. repeat case_match; simpl; try done.
    rewrite queueTask_heap, queueTask_tasks. by apply table_ok_alter.
  - unfold cancelTask. repeat case_match; simpl; try done.
    by repeat apply table_ok_alter.
  - by apply table_ok_clearCompleted.
Qed.

Lemma reachable_table_ok s : reachable s → table_ok (heap s) (tasks s).
Proof.
  revert s. apply reachable_invariant.
  - intros cfg taskId l Hl. simpl in Hl. by rewrite lookup_empty in Hl.
  - intros e s _. apply table_ok_step.
Qed.

End Table.

Section ClearCompleted.
Implicit Types (s : Executor) (taskId : string).

Lemma elem_of_getAllTasks s task :
  task ∈ getAllTasks s ↔ ∃ taskId l, tasks s !! taskId = Some l ∧ heap s !! l = Some task.
Proof.
  unfold getAllTasks. rewrite list_elem_of_omap. split.
  - intros ([taskId l] & Hin & Hh). apply elem_of_map_to_list in Hin. eauto.
  - intros (taskId & l & Hm & Hh). exists (taskId, l).
    by rewrite elem_of_map_to_list.
Qed.

Lemma elem_of_completed_ids s taskId :
  table_ok (heap s) (tasks s) →
  taskId ∈ Task.id <$> getTasksByStatus completed s ↔
    ∃ task, getTask taskId s = Some task ∧ Task.status task = completed.
Proof.
  intros Hok. unfold getTasksByStatus.
  rewrite list_elem_of_fmap. split.
  - intros (task & -> & [Hst (k & l & Hm & Hh)%elem_of_getAllTasks]%list_elem_of_filter).
    destruct (Hok _ _ Hm) as (task' & Hh' & <- & _).
    assert (task' = task) as -> by congruence.
    exists task. unfold getTask. by rewrite Hm.
  - intros (task & Hget & Hst). unfold getTask in Hget.
    destruct (tasks s !! taskId) as [l|] eqn:Hm; [|done]. simpl in Hget.
    destruct (Hok _ _ Hm) as (task' & Hh' & <- & _).
    assert (task' = task) as -> by congruence.
    exists task. split; [done|].
    apply list_elem_of_filter. split; [done|].
    apply elem_of_getAllTasks. eauto.
Qed.

Lemma clearCompleted_lookup s taskId :
  table_ok (heap s) (tasks s) →
  tasks (clearCompleted s) !! taskId =
    match getTask taskId s with
    | Some task =>
        if decide (Task.status task = completed) then None else tasks s !! taskId
    | None => tasks s !! taskId
    end.
Proof.
  intros Hok. simpl. rewrite foldl_delete_lookup.
  case_decide as Hin.
  - apply elem_of_completed_ids in Hin as (task & -> & Hst); [|done].
    by rewrite decide_True.
  - destruct (getTask taskId s) as [task|] eqn:Hget; [|done].
    case_decide as Hst; [|done].
    destruct Hin. apply elem_of_completed_ids; eauto.
Qed.

Lemma clearCompleted_getTask s taskId :
  table_ok (heap s) (tasks s) →
  getTask taskId (clearCompleted s) =
    match getTask taskId s with
    | Some task =>
        if decide (Task.status task = completed) then None else Some task
    | None => None
    end.
Proof.
  intros Hok. unfold getTask at 1.
  rewrite clearCompleted_lookup by done.
  destruct (getTask taskId s) as [task|] eqn:Hget.
  - case_decide; [done|]. apply Hget.
  - apply Hget.
Qed.

End ClearCompleted.

(** C9: [clearCompleted] removes from the job table exactly the jobs
    that are completed when it is called: a completed job is no longer
    found, every other job is found with all its fields as before, no
    entry of the table is added or redirected, and the task objects, the
    queue, the running set and the rest of the state are unchanged. *)
Theorem clearCompleted_removes_exactly_completed
    (cfg : option PartialConfig) (es : list Event) :
  let s := run es (new_executor cfg) in
  (∀ taskId,
     getTask taskId (clearCompleted s) =
       match getTask taskId s with
       | Some task =>
           if decide (Task.status task = completed) then None else Some task
       | None => None
       end)
  ∧ tasks (clearCompleted s) ⊆ tasks s
  ∧ heap (clearCompleted s) = heap s
  ∧ taskQueue (clearCompleted s) = taskQueue s
  ∧ runningTasks (clearCompleted s) = runningTasks s
  ∧ suspended (clearCompleted s) = suspended s
  ∧ config (clearCompleted s) = config s
  ∧ isRunning (clearCompleted s) = isRunning s.
Proof.
  intros s.
  assert (table_ok (heap s) (tasks s)) as Hok.
  { apply reachable_table_ok. by exists cfg, es. }
  split_and!; try done.
  - intros taskId. by apply clearCompleted_getTask.
  - apply map_subseteq_spec. intros taskId l.
    rewrite clearCompleted_lookup by done.
    repeat case_match; done.
Qed.

Section Capacity.
Implicit Types (s : Executor) (taskId : string) (e : Event).

Lemma executeTask_config now taskId s : config (executeTask now taskId s) = config s.
Proof. unfold executeTask. by repeat case_match. Qed.

Lemma executeTask_runningTasks now taskId s :
  runningTasks (executeTask now taskId s) = runningTasks s
  ∨ runningTasks (executeTask now taskId s) = {[taskId]} ∪ runningTasks s.
Proof. unfold executeTask. repeat case_match; simpl; auto. Qed.

Lemma processQueue_turn_config now s : config (processQueue_turn now s) = config s.
Proof.
  unfold processQueue_turn, processQueue_body.
  repeat case_match; simpl; try done.
  by rewrite executeTask_config.
Qed.

Lemma processQueue_turn_runningTasks now s :
  runningTasks (processQueue_turn now s) = runningTasks s
  ∨ Z.of_nat (size (runningTasks s)) < maxConcurrent (config s)
    ∧ ∃ taskId, runningTasks (processQueue_turn now s) = {[taskId]} ∪ runningTasks s.
Proof.
  unfold processQueue_turn, processQueue_body.
  destruct (isRunning s); [|by left].
  destruct (Z.of_nat (size (runningTasks s)) <? maxConcurrent (config s)) eqn:Hgate;
    simpl; [|by left].
  apply Z.ltb_lt in Hgate.
  repeat case_match; simpl; try (by left).
  destruct (executeTask_runningTasks now s0 (with_taskQueue l s)) as [->| ->];
    [by left|right; eauto].
Qed.

Lemma executeTask_continue_config now k s :
  config (executeTask_continue now k s) = config s.
Proof. rewrite executeTask_continue_spec. by repeat case_match. Qed.

Lemma executeTask_continue_runningTasks now k s :
  runningTasks (executeTask_continue now k s) ⊆ runningTasks s.
Proof.
  rewrite executeTask_continue_spec.
  repeat case_match; simpl; try done; by apply subseteq_difference_l.
Qed.

Lemma step_config e s : config (step e s) = config s.
Proof.
  destruct e; simpl.
  - by rewrite queueTask_config.
  - unfold start. case_match; [done|]. by rewrite processQueue_turn_config.
  - done.
  - apply processQueue_turn_config.
  - apply executeTask_continue_config.
  - unfold pauseTask. by repeat case_match.
  - unfold resumeTask. repeat case_match; try done. by rewrite queueTask_config.
  - unfold cancelTask. by repeat case_match.
  - done.
Qed.

Lemma step_runningTasks e s :
  runningTasks (step e s) ⊆ runningTasks s
  ∨ Z.of_nat (size (runningTasks s)) < maxConcurrent (config s)
    ∧ ∃ taskId, runningTasks (step e s) = {[taskId]} ∪ runningTasks s.
Proof.
  destruct e; simpl.
  - left. by rewrite queueTask_runningTasks.
  - unfold start. case_match; [by left|].
    destruct (processQueue_turn_runningTasks now (with_isRunning true s))
      as [->|?]; [by left|by right].
  - by left.
  - destruct (processQueue_turn_runningTasks now s) as [->|?]; [by left|by right].
  - left. apply executeTask_continue_runningTasks.
  - left. unfold pauseTask. by repeat case_match.
  - left. unfold resumeTask. repeat case_match; try done.
    by rewrite queueTask_runningTasks.
  - left. unfold cancelTask. by repeat case_match.
  - by left.
Qed.

Lemma size_add_le taskId (X : gset string) : (size ({[taskId]} ∪ X) ≤ S (size X))%nat.
Proof.
  rewrite size_union_alt, size_singleton.
  assert (size (X ∖ {[taskId]}) ≤ size X)%nat; [|lia].
  by apply subseteq_size, subseteq_difference_l.
Qed.

Lemma within_capacity_step e s : within_capacity s → within_capacity (step e s).
Proof.
  unfold within_capacity. intros Hcap. rewrite step_config.
  destruct (step_runningTasks e s) as [Hsub|(Hlt & taskId & ->)].
  - apply subseteq_size in Hsub. lia.
  - pose proof (size_add_le taskId (runningTasks s)). lia.
Qed.

Lemma within_capacity_new cfg :
  (∀ n, cfg ≫= given_maxConcurrent = Some n → 0 ≤ n) →
  within_capacity (new_executor cfg).
Proof.
  intros Hcfg. unfold within_capacity.
  change (runningTasks (new_executor cfg)) with (∅ : gset string).
  rewrite size_empty. simpl. unfold or_number. destruct (cfg ≫= given_maxConcurrent) as [n|]; [|done].
  specialize (Hcfg n eq_refl). destruct (Z.eqb_spec n 0); lia.
Qed.

Lemma within_capacity_run cfg es :
  (∀ n, cfg ≫= given_maxConcurrent = Some n → 0 ≤ n) →
  within_capacity (run es (new_executor cfg)).
Proof.
  intros Hcfg. induction es as [|e es IH] using rev_ind.
  - by apply within_capacity_new.
  - rewrite run_snoc. by apply within_capacity_step.
Qed.

(** The gate of the control loop. *)
Lemma processQueue_turn_full now s :
  maxConcurrent (config s) ≤ Z.of_nat (size (runningTasks s)) →
  processQueue_turn now s = s.
Proof.
  intros Hfull. unfold processQueue_turn, processQueue_body.
  destruct (isRunning s); [|done].
  destruct (Z.ltb_spec (Z.of_nat (size (runningTasks s))) (maxConcurrent (config s)));
    [lia|done].
Qed.

Lemma executeTask_suspended now taskId s :
  runningTasks (executeTask now taskId s) = runningTasks s
  ∧ suspended (executeTask now taskId s) = suspended s
  ∨ runningTasks (executeTask now taskId s) = {[taskId]} ∪ runningTasks s
    ∧ ∃ a, act_taskId a = taskId
           ∧ suspended (executeTask now taskId s) = suspended s ++ [a].
Proof.
  unfold executeTask. repeat case_match; simpl; auto.
  right. split; [done|]. eexists. split; [|reflexivity]. done.
Qed.

Lemma running_suspended_executeTask now taskId s :
  running_suspended s → running_suspended (executeTask now taskId s).
Proof.
  intros Hrs.
  destruct (executeTask_suspended now taskId s)
    as [[Hr Hs]|(Hr & a & Ha & Hs)]; unfold running_suspended;
    rewrite Hr, Hs.
  { done. }
  intros x [->%elem_of_singleton|Hx]%elem_of_union.
  - exists a. split; [|done]. apply elem_of_app. right. by left.
  - destruct (Hrs x Hx) as (b & Hb & Hid). exists b.
    split; [|done]. apply elem_of_app. by left.
Qed.

Lemma running_suspended_processQueue_turn now s :
  running_suspended s → running_suspended (processQueue_turn now s).
Proof.
  intros Hrs. unfold processQueue_turn, processQueue_body.
  repeat case_match; try done.
  by apply (running_suspended_executeTask now _ (with_taskQueue _ s)).
Qed.

Lemma running_suspended_executeTask_finally k a s :
  suspended s !! k = Some a →
  running_suspended s →
  running_suspended (executeTask_finally k (act_taskId a) s).
Proof.
  intros Hk Hrs x. simpl.
  intros [Hx Hne]%elem_of_difference.
  rewrite elem_of_singleton in Hne.
  destruct (Hrs x Hx) as (b & [j Hj]%list_elem_of_lookup_1 & Hid).
  exists b. split; [|done].
  assert (j ≠ k) as Hjk by congruence.
  destruct (decide (j < k)%nat).
  - apply (list_elem_of_lookup_2 _ j). by rewrite list_lookup_delete_lt.
  - apply (list_elem_of_lookup_2 _ (pred j)).
    rewrite list_lookup_delete_ge by lia.
    by replace (S (pred j)) with j by lia.
Qed.

Lemma running_suspended_executeTask_continue now k s :
  running_suspended s → running_suspended (executeTask_continue now k s).
Proof.
  intros Hrs. rewrite executeTask_continue_spec.
  destruct (suspended s !! k) as [a|] eqn:Hk; [|done].
  destruct (act_await a) as [i|].
  - case_match.
    + intros x Hx. simpl in *.
      destruct (Hrs x Hx) as (b & [j Hj]%list_elem_of_lookup_1 & Hid).
      destruct (decide (j = k)) as [->|Hjk].
      * eexists. split.
        { apply list_elem_of_insert. by eapply lookup_lt_Some. }
        simpl. congruence.
      * exists b. split; [|done].
        apply (list_elem_of_lookup_2 _ j). by rewrite list_lookup_insert_ne.
    + by apply (running_suspended_executeTask_finally k a (mark_completed _ _ s)).
  - by apply (running_suspended_executeTask_finally k a s).
Qed.

(** Every id in the running set belongs to a suspended call. *)
Lemma running_suspended_step e s : running_suspended s → running_suspended (step e s).
Proof.
  intros Hrs. destruct e; simpl.
  - unfold running_suspended.
    by rewrite queueTask_runningTasks, queueTask_suspended.
  - unfold start. case_match; [done|].
    by apply (running_suspended_processQueue_turn now (with_isRunning true s)).
  - done.
  - by apply running_suspended_processQueue_turn.
  - by apply running_suspended_executeTask_continue.
  - unfold pauseTask. by repeat case_match.
  - unfold resumeTask. repeat case_match; try done.
    unfold running_suspended.
    by rewrite queueTask_runningTasks, queueTask_suspended.
  - unfold cancelTask. by repeat case_match.
  - done.
Qed.

Lemma running_suspended_run cfg es : running_suspended (run es (new_executor cfg)).
Proof.
  induction es as [|e es IH] using rev_ind.
  - intros x Hx. by apply not_elem_of_empty in Hx.
  - rewrite run_snoc. by apply running_suspended_step.
Qed.

(** The end of a call of [executeTask] takes its id out of the running
    set and the call out of the suspended ones. *)
Lemma executeTask_continue_finishing now k a s :
  suspended s !! k = Some a →
  finishing a →
  (act_taskId a ∉ runningTasks (executeTask_continue now k s))
  ∧ suspended (executeTask_continue now k s) = delete k (suspended s).
Proof.
  intros Hk Hfin. rewrite executeTask_continue_spec, Hk.
  unfold finishing in Hfin. destruct (act_await a) as [i|].
  - destruct (Z.leb_spec (i + 10) 100); [lia|]. simpl.
    split; [|done]. rewrite elem_of_difference, elem_of_singleton. tauto.
  - simpl. split; [|done]. rewrite elem_of_difference, elem_of_singleton. tauto.
Qed.

End Capacity.

(** C2: in every state the executor reaches, the running set holds at
    most [maxConcurrent] ids (for a configured cap that is not negative).
    The control loop takes nothing from the queue while the running set
    is full, every id of the running set belongs to a call of
    [executeTask] that has not finished, and the end of such a call
    removes its id from the running set. *)
Theorem runningTasks_within_maxConcurrent
    (cfg : option PartialConfig) (es : list Event) :
  (∀ n, cfg ≫= given_maxConcurrent = Some n → 0 ≤ n) →
  let s := run es (new_executor cfg) in
  Z.of_nat (size (runningTasks s)) ≤ maxConcurrent (config s)
  ∧ (∀ now, maxConcurrent (config s) ≤ Z.of_nat (size (runningTasks s)) →
       processQueue_turn now s = s)
  ∧ (∀ taskId, taskId ∈ runningTasks s →
       ∃ a, a ∈ suspended s ∧ act_taskId a = taskId)
  ∧ (∀ now k a, suspended s !! k = Some a → finishing a →
       (act_taskId a ∉ runningTasks (executeTask_continue now k s))
       ∧ suspended (executeTask_continue now k s) = delete k (suspended s)).
Proof.
  intros Hcfg s. split_and!.
  - by apply within_capacity_run.
  - intros now. apply processQueue_turn_full.
  - apply running_suspended_run.
  - intros now k a. apply executeTask_continue_finishing.
Qed.

(** Three jobs and a cap of one: one job runs, and the next turn of the
    loop starts nothing. *)
Lemma runningTasks_within_maxConcurrent_witness :
  let s := run ((submit <$> three_jobs) ++ [Start 10]) (new_executor one_at_a_time) in
  Z.of_nat (size (runningTasks s)) ≤ maxConcurrent (config s)
  ∧ processQueue_turn 11 s = s.
Proof.
  intros s.
  destruct (runningTasks_within_maxConcurrent one_at_a_time
              ((submit <$> three_jobs) ++ [Start 10]))
    as (Hcap & Hgate & Hsusp & Hend).
  { intros n Hn. injection Hn as <-. lia. }
  fold s in Hcap, Hgate, Hsusp, Hend.
  split; [exact Hcap|]. apply Hgate. vm_compute. discriminate.
Defined.

(** ** Dependencies *)

Section Dependencies.
Implicit Types (s : Executor) (taskId : string).

Lemma deps_pending_intro s task ds depId :
  Task.dependencies task = Some ds →
  depId ∈ ds →
  (∀ dep, getTask depId s = Some dep → Task.status dep ≠ completed) →
  deps_pending s task = true.
Proof.
  intros Hds Hin Hdep. unfold deps_pending. rewrite Hds.
  destruct ds as [|d ds]; [by apply elem_of_nil in Hin|].
  apply negb_true_iff, not_true_iff_false. intros Hall.
  rewrite forallb_forall in Hall.
  specialize (Hall depId (proj1 (list_elem_of_In _ _) Hin)).
  unfold dep_completed in Hall.
  destruct (getTask depId s) as [dep|] eqn:Hget; [|done].
  apply bool_decide_eq_true in Hall. by destruct (Hdep dep).
Qed.

Lemma executeTask_deferred now taskId s task :
  getTask taskId s = Some task →
  deps_pending s task = true →
  executeTask now taskId s = with_taskQueue (taskQueue s ++ [taskId]) s.
Proof.
  intros Hget Hdeps. unfold executeTask. unfold getTask in Hget.
  destruct (tasks s !! taskId) as [l|]; [|done]. simpl in Hget.
  by rewrite Hget, Hdeps.
Qed.

Lemma getTask_truthy s taskId task :
  table_ok (heap s) (tasks s) → getTask taskId s = Some task → truthy taskId = true.
Proof.
  intros Hok Hget. unfold getTask in Hget.
  destruct (tasks s !! taskId) as [l|] eqn:Hl; [|done].
  by destruct (Hok _ _ Hl) as (_ & _ & _ & stamp & rnd & ->).
Qed.

End Dependencies.

(** C5: when the control loop takes from the queue a job one of whose
    dependencies is not a completed job of the table, [executeTask] does
    not run it: the turn of the loop only moves the id from the head of
    the queue to its tail.  The running set, the task objects (so the
    status of the job, which is not set to running), and the suspended
    calls are as before, so no capacity is used. *)
Theorem blocked_job_goes_to_tail
    (cfg : option PartialConfig) (es : list Event) (now : N)
    (taskId : string) (rest : list string) (task : Task.t)
    (ds : list string) (depId : string) :
  let s := run es (new_executor cfg) in
  isRunning s = true →
  Z.of_nat (size (runningTasks s)) < maxConcurrent (config s) →
  taskQueue s = taskId :: rest →
  getTask taskId s = Some task →
  Task.dependencies task = Some ds →
  depId ∈ ds →
  (∀ dep, getTask depId s = Some dep → Task.status dep ≠ completed) →
  executeTask now taskId (with_taskQueue rest s) = with_taskQueue (rest ++ [taskId]) s
  ∧ processQueue_turn now s = with_taskQueue (rest ++ [taskId]) s
  ∧ runningTasks (processQueue_turn now s) = runningTasks s
  ∧ getTask taskId (processQueue_turn now s) = Some task
  ∧ heap (processQueue_turn now s) = heap s
  ∧ suspended (processQueue_turn now s) = suspended s
  ∧ taskQueue (processQueue_turn now s) = rest ++ [taskId].
Proof.
  intros s Hrun Hgate Hq Hget Hds Hin Hdep.
  assert (deps_pending s task = true) as Hpending
    by (by eapply deps_pending_intro).
  assert (executeTask now taskId (with_taskQueue rest s)
          = with_taskQueue (rest ++ [taskId]) s) as Hexec.
  { by rewrite (executeTask_deferred now taskId _ task). }
  assert (processQueue_turn now s = with_taskQueue (rest ++ [taskId]) s) as ->.
  { unfold processQueue_turn, processQueue_body. rewrite Hrun, Hq.
    rewrite (proj2 (Z.ltb_lt _ _) Hgate). simpl.
    rewrite (getTask_truthy s taskId task); [done| |done].
    apply reachable_table_ok. by exists cfg, es. }
  by split_and!.
Qed.

(** A job that waits for an id that was never submitted. *)
Lemma blocked_job_goes_to_tail_witness :
  let s := run submit_blocked (new_executor None) in
  processQueue_turn 3 s = with_taskQueue ([] ++ ["task_1_a"]) s.
Proof.
  intros s.
  refine (proj1 (proj2 (blocked_job_goes_to_tail None submit_blocked 3
            "task_1_a" [] (default (Task.mk "" "" "" low queued 0 0 None None None None None 0 0) (getTask "task_1_a" s)) ["task_0_z"] "task_0_z" _ _ _ _ _ _ _))).
  - vm_compute. reflexivity.
  - vm_compute. reflexivity.
  - vm_compute. reflexivity.
  - vm_compute. reflexivity.
  - vm_compute. reflexivity.
  - vm_compute. apply list_elem_of_here.
  - intros dep Hdep. vm_compute in Hdep. discriminate Hdep.
Defined.

(** ** Cancelling *)

Section Cancel.
Implicit Types (s : Executor) (taskId : string).

Lemma cancelTask_absent taskId s : getTask taskId s = None → cancelTask taskId s = s.
Proof.
  unfold getTask, cancelTask. intros Hget.
  destruct (tasks s !! taskId) as [l|]; [|done]. simpl in Hget. by rewrite Hget.
Qed.

Lemma cancelTask_getTask taskId s task :
  getTask taskId s = Some task →
  getTask taskId (cancelTask taskId s) =
    Some (Task.set_error "Cancelled by user" (Task.set_status failed task)).
Proof.
  unfold getTask, cancelTask. intros Hget.
  destruct (tasks s !! taskId) as [l|] eqn:Hl; [|done]. simpl in Hget.
  rewrite Hget. simpl. rewrite Hl. simpl.
  by rewrite !list_lookup_alter_eq, Hget.
Qed.

Lemma cancelTask_taskQueue taskId s task :
  getTask taskId s = Some task →
  taskQueue (cancelTask taskId s) = remove_first taskId (taskQueue s).
Proof.
  unfold getTask, cancelTask. intros Hget.
  destruct (tasks s !! taskId) as [l|] eqn:Hl; [|done]. simpl in Hget.
  by rewrite Hget.
Qed.

End Cancel.

(** C10: [cancelTask] on a completed job sets its status to failed and
    its error to "Cancelled by user"; the only test [cancelTask] makes is
    that the id is in the job table, so it treats a job in any status in
    this way. *)
Theorem cancelTask_overrides_completed (taskId : string) (s : Executor) (task : Task.t) :
  getTask taskId s = Some task →
  (Task.status task = completed →
     ∃ task', getTask taskId (cancelTask taskId s) = Some task'
              ∧ Task.status task' = failed
              ∧ Task.error task' = Some "Cancelled by user")
  ∧ getTask taskId (cancelTask taskId s) =
      Some (Task.set_error "Cancelled by user" (Task.set_status failed task)).
Proof.
  intros Hget. split; [intros _; eexists; split|]; try by apply cancelTask_getTask.
  done.
Qed.

(** A job that ran to its end is cancelled. *)
Lemma cancelTask_overrides_completed_witness :
  let s := run (submit_and_start always_succeeds None ++ to_the_end) (new_executor None) in
  (Task.status <$> getTask "task_1_a" s) = Some completed
  ∧ ∃ task', getTask "task_1_a" (cancelTask "task_1_a" s) = Some task'
             ∧ Task.status task' = failed
             ∧ Task.error task' = Some "Cancelled by user".
Proof.
  intros s. split; [by vm_compute|].
  destruct (getTask "task_1_a" s) as [task|] eqn:Hget; [|by vm_compute in Hget].
  apply (proj1 (cancelTask_overrides_completed "task_1_a" s task Hget)).
  vm_compute in Hget. by injection Hget as <-.
Defined.

(** C6 (where the code departs from it): a job that has completed, with
    its result stored, is turned into a failed job by [cancelTask]. *)
Example cancelTask_changes_terminal_job :
  let s := run (submit_and_start always_succeeds None ++ to_the_end) (new_executor None) in
  (Task.status <$> getTask "task_1_a" s) = Some completed
  ∧ (Task.status <$> getTask "task_1_a" (cancelTask "task_1_a" s)) = Some failed
  ∧ (Task.error <$> getTask "task_1_a" (cancelTask "task_1_a" s))
      = Some (Some "Cancelled by user")
  ∧ (Task.result <$> getTask "task_1_a" (cancelTask "task_1_a" s))
      = Some (Some {| success := true;
                      message := "Task job completed successfully" |})
  ∧ cancelTask "task_1_a" s ≠ s.
Proof.
  intros s. split_and!; by vm_compute.
Qed.

(** ** Retries *)

Section Retries.
Implicit Types (s : Executor).

Lemma createTask_getTask name description executor options stamp rnd now s :
  let '(taskId, s') := createTask name description executor options stamp rnd now s in
  ∃ task, getTask taskId s' = Some task
          ∧ Task.id task = taskId
          ∧ Task.priority task = or_object (options ≫= opt_priority) medium
          ∧ Task.status task = queued
          ∧ Task.dependencies task = Some (or_object (options ≫= opt_dependencies) [])
          ∧ Task.retries task = 0
          ∧ Task.maxRetries task =
              or_number (options ≫= opt_maxRetries) (defaultMaxRetries (config s)).
Proof.
  simpl. eexists. rewrite getTask_queueTask. unfold getTask. simpl.
  rewrite lookup_insert_eq. simpl.
  rewrite lookup_app_r, Nat.sub_diag by done. by split_and!.
Qed.

Lemma run_config es s : config (run es s) = config s.
Proof.
  revert s. induction es as [|e es IH]; intros s; [done|].
  simpl. by rewrite IH, step_config.
Qed.

Lemma defaultMaxRetries_nonzero cfg : defaultMaxRetries (config (new_executor cfg)) ≠ 0.
Proof.
  simpl. unfold or_number. destruct (cfg ≫= given_defaultMaxRetries) as [n|]; [|done].
  by destruct (Z.eqb_spec n 0).
Qed.

Lemma createTask_ignores_executor name description executor1 executor2 options
    stamp rnd now s :
  createTask name description executor1 options stamp rnd now s
  = createTask name description executor2 options stamp rnd now s.
Proof. done. Qed.

End Retries.

(** C7 (where the code departs from it): a job submitted with the option
    [maxRetries = 0] does not get [maxRetries] 0.  The option is read with
    [||], which takes 0 for a missing value: the job gets the configured
    default, which is itself never 0, and is 3 when no configuration is
    given. *)
Theorem createTask_maxRetries_zero_becomes_default
    (cfg : option PartialConfig) (es : list Event)
    (name description : string) (executor : Body)
    (priority : option Priority) (dependencies : option (list string))
    (stamp : N) (rnd : string) (now : N) :
  let s := run es (new_executor cfg) in
  let options := Some {| opt_priority := priority; opt_dependencies := dependencies;
                         opt_maxRetries := Some 0 |} in
  let '(taskId, s') := createTask name description executor options stamp rnd now s in
  ∃ task, getTask taskId s' = Some task
          ∧ Task.maxRetries task = defaultMaxRetries (config s)
          ∧ Task.maxRetries task = or_number (cfg ≫= given_defaultMaxRetries) 3
          ∧ Task.maxRetries task ≠ 0.
Proof.
  intros s options.
  pose proof (createTask_getTask name description executor options stamp rnd now s)
    as Hcreate.
  destruct (createTask name description executor options stamp rnd now s)
    as [taskId s'].
  destruct Hcreate as (task & Hget & _ & _ & _ & _ & _ & Hmax).
  exists task. simpl in Hmax. unfold s in Hmax. rewrite run_config in Hmax.
  unfold s. rewrite run_config. split_and!; [done..|].
  rewrite Hmax. apply defaultMaxRetries_nonzero.
Qed.

(** C3 (where the code departs from it): the body passed to [createTask]
    is not stored and never called.  [createTask] gives the same result
    for any two bodies, no stretch of the [try] block raises, so the
    [catch] block with its retries is never entered; a job whose body
    rejects at every call, submitted with [maxRetries = 2], runs through
    the simulated progress and ends completed with no retry and no error
    recorded. *)
Theorem executor_body_is_never_invoked :
  (∀ name description executor1 executor2 options stamp rnd now s,
     createTask name description executor1 options stamp rnd now s
     = createTask name description executor2 options stamp rnd now s)
  ∧ (∀ now l i s, (try_stretch now l i s).1.2 = Normal)
  ∧ (let s := run (submit_and_start always_fails (Some 2) ++ to_the_end)
                (new_executor None) in
     (Task.status <$> getTask "task_1_a" s) = Some completed
     ∧ (Task.retries <$> getTask "task_1_a" s) = Some 0
     ∧ (Task.maxRetries <$> getTask "task_1_a" s) = Some 2
     ∧ (Task.error <$> getTask "task_1_a" s) = Some None
     ∧ suspended s = []
     ∧ taskQueue s = []).
Proof.
  split_and!.
  - intros. apply createTask_ignores_executor.
  - apply try_stretch_Normal.
  - by vm_compute.
Qed.

(** ** The status of a job over a step *)

Section StatusChanges.
Implicit Types (s : Executor) (l : nat) (e : Event) (a b : Status).











End StatusChanges.

(** ** The queue *)

Section Queue.
Implicit Types (s : Executor) (taskId : string) (q : list string) (l : nat).

Lemma splice_insert_Permutation {A} i (x : A) (a : list A) :
  splice_insert i x a ≡ₚ x :: a.
Proof. unfold splice_insert. by rewrite <- Permutation_middle, take_drop. Qed.

Lemma elem_of_splice_insert {A} i (x y : A) (a : list A) :
  y ∈ splice_insert i x a ↔ y = x ∨ y ∈ a.
Proof. by rewrite splice_insert_Permutation, elem_of_cons. Qed.

Lemma NoDup_splice_insert {A} i (x : A) (a : list A) :
  x ∉ a → NoDup a → NoDup (splice_insert i x a).
Proof. intros. rewrite splice_insert_Permutation. by apply NoDup_cons. Qed.

Lemma remove_first_sublist taskId q : remove_first taskId q `sublist_of` q.
Proof.
  unfold remove_first. destruct (list_find _ q) as [[i y]|]; [|done].
  apply sublist_delete.
Qed.

Lemma remove_first_absent taskId q : NoDup q → taskId ∉ remove_first taskId q.
Proof.
  intros Hnd. unfold remove_first.
  destruct (list_find _ q) as [[i y]|] eqn:Hfind.
  - apply list_find_Some in Hfind as (Hi & -> & _).
    rewrite delete_take_drop.
    rewrite <- (take_drop_middle q i taskId Hi) in Hnd.
    apply NoDup_app in Hnd as (_ & Hl & [Hr _]%NoDup_cons).
    intros [Hin|Hin]%elem_of_app; [|done].
    apply (Hl _ Hin). by left.
  - apply list_find_None in Hfind. rewrite Forall_forall in Hfind.
    intros Hin. by apply (Hfind _ Hin).
Qed.

Lemma getTask_update_other taskId taskId0 l f s :
  table_ok (heap s) (tasks s) →
  tasks s !! taskId0 = Some l →
  taskId ≠ taskId0 →
  getTask taskId (update l f s) = getTask taskId s.
Proof.
  intros Hok Hl0 Hne. rewrite getTask_update. unfold getTask.
  destruct (tasks s !! taskId) as [l'|] eqn:Hl'; [|done]. simpl.
  case_decide as Heq; [|done]. subst l'.
  destruct (Hok _ _ Hl0) as (t0 & Ht0 & Hid0 & _).
  destruct (Hok _ _ Hl') as (t' & Ht' & Hid' & _). congruence.
Qed.

Lemma getTask_update_inv taskId l f s task' :
  getTask taskId (update l f s) = Some task' →
  ∃ task, getTask taskId s = Some task ∧ (task' = task ∨ task' = f task).
Proof.
  rewrite getTask_update. unfold getTask.
  destruct (tasks s !! taskId) as [l'|]; [|done]. simpl.
  case_decide; [|by eauto].
  destruct (heap s !! l') as [task|]; [|done]. simpl. intros [= <-]. eauto.
Qed.

Lemma queue_ok_ext s s' :
  taskQueue s' = taskQueue s → heap s' = heap s → tasks s' = tasks s →
  queue_ok s → queue_ok s'.
Proof.
  unfold queue_ok, getTask. by intros -> -> ->.
Qed.

(** Assignments that keep the status, or set it to queued or completed. *)
Lemma queue_ok_update l f s :
  (∀ task, Task.status (f task) = Task.status task
           ∨ Task.status (f task) = queued ∨ Task.status (f task) = completed) →
  queue_ok s → queue_ok (update l f s).
Proof.
  intros Hf [Hnd Hst]. split; [done|].
  intros taskId task' Hin (task & Hget & [->| ->])%getTask_update_inv;
    [by eauto|].
  destruct (Hf task) as [->|?]; eauto.
Qed.

(** An assignment to the status of a job whose id is not in the queue
    that is left. *)
Lemma queue_ok_set_status s q l taskId f :
  table_ok (heap s) (tasks s) →
  queue_ok s →
  tasks s !! taskId = Some l →
  NoDup q → q ⊆ taskQueue s → taskId ∉ q →
  queue_ok (with_taskQueue q (update l f s)).
Proof.
  intros Hok [_ Hst] Hl Hnd Hsub Hnotin. split; [done|].
  intros taskId' task' Hin. simpl in Hin.
  rewrite getTask_with_taskQueue.
  rewrite (getTask_update_other taskId' taskId) by (done || congruence).
  apply Hst. by apply Hsub.
Qed.

Lemma queue_ok_queueTask taskId s :
  queue_ok s →
  taskId ∉ taskQueue s →
  (∀ task, getTask taskId s = Some task →
     Task.status task = queued ∨ Task.status task = completed) →
  queue_ok (queueTask taskId s).
Proof.
  intros [Hnd Hst] Hnotin Hnew. unfold queueTask.
  destruct (getTask taskId s) as [task|] eqn:Hget; [|done].
  split; simpl.
  - by apply NoDup_splice_insert.
  - intros taskId' task' [->|Hin]%elem_of_splice_insert.
    + rewrite getTask_with_taskQueue, Hget. apply Hnew.
    + rewrite getTask_with_taskQueue. by apply Hst.
Qed.

Lemma queue_ok_createTask name description executor options stamp rnd now s :
  table_ok (heap s) (tasks s) →
  queue_ok s →
  fresh_id (CreateTask name description executor options stamp rnd now) s = true →
  queue_ok (createTask name description executor options stamp rnd now s).2.
Proof.
  intros Hok [Hnd Hst] [Hnew Hnotin]%andb_true_iff.
  apply bool_decide_eq_true in Hnew, Hnotin. simpl.
  apply queue_ok_queueTask; [split; [done|]|done|].
  - intros taskId task Hin. unfold getTask. simpl in *.
    rewrite lookup_insert_ne by (by intros <-).
    destruct (tasks s !! taskId) as [l|] eqn:Hl; [|done]. simpl.
    destruct (Hok _ _ Hl) as (task0 & Hl0 & _).
    rewrite lookup_app_l by (by eapply lookup_lt_Some).
    intros Hget. apply (Hst taskId); [done|]. unfold getTask. by rewrite Hl.
  - intros task. unfold getTask. simpl. rewrite lookup_insert_eq. simpl.
    rewrite lookup_app_r, Nat.sub_diag by done. intros [= <-]. by left.
Qed.

Lemma queue_ok_executeTask now taskId rest s :
  table_ok (heap s) (tasks s) →
  queue_ok s →
  taskQueue s = taskId :: rest →
  queue_ok (executeTask now taskId (with_taskQueue rest s)).
Proof.
  intros Hok Hq Hqueue.
  pose proof (proj1 Hq) as Hnd. rewrite Hqueue in Hnd.
  apply NoDup_cons in Hnd as [Hnotin Hnd].
  assert (queue_ok (with_taskQueue rest s)) as Hrest.
  { split; [done|]. intros taskId' task Hin. rewrite getTask_with_taskQueue.
    apply (proj2 Hq). rewrite Hqueue. by right. }
  unfold executeTask. simpl.
  destruct (tasks s !! taskId) as [l|] eqn:Hl; [|done].
  destruct (heap s !! l) as [task|] eqn:Hh; [|done].
  case_match.
  - split; simpl.
    + apply NoDup_app. split_and!; [done| |apply NoDup_singleton].
      intros x Hx ->%list_elem_of_singleton. done.
    + intros taskId' task' [Hin| ->%list_elem_of_singleton]%elem_of_app;
        rewrite getTask_with_taskQueue; apply (proj2 Hq); rewrite Hqueue;
        [by right|by left].
  - eapply queue_ok_ext; [| | |
      apply (queue_ok_update l (Task.set_progress 0)), (queue_ok_update l (Task.set_progress 0)),
            (queue_ok_update l (Task.set_startedAt now)),
            (queue_ok_set_status s rest l taskId (Task.set_status running))];
      try done; try (by left).
    rewrite Hqueue. intros x Hx. by right.
Qed.

Lemma queue_ok_processQueue_turn now s :
  table_ok (heap s) (tasks s) → queue_ok s → queue_ok (processQueue_turn now s).
Proof.
  intros Hok Hq. unfold processQueue_turn, processQueue_body.
  destruct (isRunning s); [|done]. case_match; [|done].
  destruct (taskQueue s) as [|taskId rest] eqn:Hqueue; [done|].
  case_match.
  - by apply queue_ok_executeTask.
  - destruct Hq as [Hnd Hst]. rewrite Hqueue in Hnd, Hst.
    apply NoDup_cons in Hnd as [_ Hnd]. split; [done|].
    intros taskId' task Hin. rewrite getTask_with_taskQueue. apply Hst. by right.
Qed.

Lemma queue_ok_executeTask_continue now k s :
  queue_ok s → queue_ok (executeTask_continue now k s).
Proof.
  intros Hq. rewrite executeTask_continue_spec. unfold mark_completed.
  repeat case_match; try done.
  - apply (queue_ok_ext (update (act_task a) (Task.set_progress (i + 10)) s));
      [done..|].
    apply queue_ok_update; [by left|done].
  - apply (queue_ok_ext (mark_completed now (act_task a) s)); [done..|].
    unfold mark_completed.
    repeat (apply queue_ok_update; [by left|]).
    apply queue_ok_update; [|done]. by right; right.
Qed.

Lemma queue_ok_not_queued taskId task s :
  queue_ok s → getTask taskId s = Some task →
  Task.status task ≠ queued → Task.status task ≠ completed →
  taskId ∉ taskQueue s.
Proof. intros [_ Hst] Hget ?? Hin. by destruct (Hst _ _ Hin Hget). Qed.

Lemma queue_ok_pauseTask taskId s :
  table_ok (heap s) (tasks s) → queue_ok s → queue_ok (pauseTask taskId s).
Proof.
  intros Hok Hq. unfold pauseTask.
  destruct (tasks s !! taskId) as [l|] eqn:Hl; [|done].
  destruct (heap s !! l) as [task|] eqn:Hh; [|done].
  case_bool_decide as Hst; [|done].
  eapply queue_ok_ext; [| | |
    apply (queue_ok_set_status s (taskQueue s) l taskId (Task.set_status paused))];
    try done; [apply Hq|].
  apply (queue_ok_not_queued taskId task); [done| |congruence..].
  unfold getTask. by rewrite Hl.
Qed.

Lemma queue_ok_resumeTask taskId s :
  table_ok (heap s) (tasks s) → queue_ok s → queue_ok (resumeTask taskId s).
Proof.
  intros Hok Hq. unfold resumeTask.
  destruct (tasks s !! taskId) as [l|] eqn:Hl; [|done].
  destruct (heap s !! l) as [task|] eqn:Hh; [|done].
  case_bool_decide as Hst; [|done].
  assert (taskId ∉ taskQueue s) as Hnotin.
  { apply (queue_ok_not_queued taskId task); [done| |congruence..].
    unfold getTask. by rewrite Hl. }
  apply queue_ok_queueTask; [|done|].
  - apply queue_ok_update; [|done]. intros t. right. by left.
  - intros task'. rewrite getTask_update, Hl, decide_True, Hh by done.
    intros [= <-]. by left.
Qed.

Lemma queue_ok_cancelTask taskId s :
  table_ok (heap s) (tasks s) → queue_ok s → queue_ok (cancelTask taskId s).
Proof.
  intros Hok Hq. unfold cancelTask.
  destruct (tasks s !! taskId) as [l|] eqn:Hl; [|done].
  destruct (heap s !! l) as [task|] eqn:Hh; [|done].
  pose proof (remove_first_sublist taskId (taskQueue s)) as Hsub.
  apply (queue_ok_ext
           (update l (Task.set_error "Cancelled by user")
              (with_taskQueue (remove_first taskId (taskQueue s))
                 (update l (Task.set_status failed) s)))); [done..|].
  apply queue_ok_update; [by left|].
  apply (queue_ok_set_status s _ l taskId _ Hok Hq Hl).
  - eapply sublist_NoDup; [apply Hq|done].
  - by apply sublist_subseteq.
  - apply remove_first_absent, Hq.
Qed.

Lemma queue_ok_clearCompleted s :
  table_ok (heap s) (tasks s) → queue_ok s → queue_ok (clearCompleted s).
Proof.
  intros Hok [Hnd Hst]. split; [done|].
  intros taskId task Hin. rewrite clearCompleted_getTask by done.
  intros Hget. apply (Hst taskId task Hin).
  destruct (getTask taskId s) as [task0|]; [|done].
  by case_decide.
Qed.

Lemma queue_ok_step e s :
  table_ok (heap s) (tasks s) → fresh_id e s = true →
  queue_ok s → queue_ok (step e s).
Proof.
  intros Hok Hfresh Hq. destruct e; cbn [step].
  - by apply queue_ok_createTask.
  - unfold start. case_match; [done|].
    by apply (queue_ok_processQueue_turn now (with_isRunning true s)).
  - done.
  - by apply queue_ok_processQueue_turn.
  - by apply queue_ok_executeTask_continue.
  - by apply queue_ok_pauseTask.
  - by apply queue_ok_resumeTask.
  - by apply queue_ok_cancelTask.
  - by apply queue_ok_clearCompleted.
Qed.

Lemma fresh_ids_snoc es e s :
  fresh_ids (es ++ [e]) s = fresh_ids es s && fresh_id e (run es s).
Proof.
  revert s. induction es as [|e' es IH]; intros s; simpl.
  - by rewrite andb_true_r.
  - by rewrite IH, andb_assoc.
Qed.

Lemma queue_ok_run cfg es :
  fresh_ids es (new_executor cfg) = true → queue_ok (run es (new_executor cfg)).
Proof.
  induction es as [|e es IH] using rev_ind; intros Hfresh.
  - split; [apply NoDup_nil_2|]. intros taskId task Hin. by apply elem_of_nil in Hin.
  - rewrite fresh_ids_snoc in Hfresh. apply andb_true_iff in Hfresh as [Hes He].
    rewrite run_snoc. apply queue_ok_step; [|done|by apply IH].
    apply reachable_table_ok. by exists cfg, es.
Qed.

(** What [cancelTask] does to a job of the table, whatever its status. *)
Lemma cancelTask_effect taskId s task :
  getTask taskId s = Some task →
  getTask taskId (cancelTask taskId s) =
    Some (Task.set_error "Cancelled by user" (Task.set_status failed task))
  ∧ taskQueue (cancelTask taskId s) = remove_first taskId (taskQueue s)
  ∧ (NoDup (taskQueue s) → taskId ∉ taskQueue (cancelTask taskId s))
  ∧ runningTasks (cancelTask taskId s) = runningTasks s.
Proof.
  intros Hget. split_and!.
  - by apply cancelTask_getTask.
  - by eapply cancelTask_taskQueue.
  - intros Hnd. erewrite cancelTask_taskQueue by done.
    by apply remove_first_absent.
  - unfold cancelTask. by repeat case_match.
Qed.

End Queue.

Section StatusMachine.
Implicit Types (s : Executor) (l : nat) (e : Event) (a b : Status).




End StatusMachine.




(** ** The order of the queue *)

Section Ordering.
Implicit Types (s : Executor) (taskId : string) (sub : Submission)
  (subs : list Submission) (p : Priority).

Lemma list_find_split {A} (P : A → Prop) `{!∀ x, Decision (P x)} (l1 l2 : list A) :
  Forall (λ x, ¬ P x) l1 → Forall P l2 →
  match list_find P (l1 ++ l2) with
  | Some (i, _) => i
  | None => length (l1 ++ l2)
  end = length l1.
Proof.
  intros H1 H2. rewrite list_find_app_r by (by apply list_find_None).
  destruct l2 as [|x l2]; simpl.
  - by rewrite app_nil_r.
  - apply Forall_cons in H2 as [Hx _]. by rewrite decide_True.
Qed.

Lemma splice_insert_app {A} (x : A) (l1 l2 : list A) :
  splice_insert (length l1) x (l1 ++ l2) = l1 ++ x :: l2.
Proof. unfold splice_insert. by rewrite take_app_length, drop_app_length. Qed.

(** [queueTask] puts the id after a part of the queue that holds no job
    of lower priority and before a part that holds only jobs of lower
    priority. *)
Lemma queueTask_inserts taskId s task l1 l2 :
  getTask taskId s = Some task →
  taskQueue s = l1 ++ l2 →
  Forall (λ x, ranks_after s (priorityOrder (Task.priority task)) x = false) l1 →
  Forall (λ x, ranks_after s (priorityOrder (Task.priority task)) x = true) l2 →
  taskQueue (queueTask taskId s) = l1 ++ taskId :: l2.
Proof.
  intros Hget Hq H1 H2. unfold queueTask, insertIndex. rewrite Hget, Hq. simpl.
  rewrite list_find_split; [apply splice_insert_app| |done].
  eapply Forall_impl; [exact H1|]. simpl. intros x ->. done.
Qed.

Lemma getTask_createTask_other taskId name description executor options stamp rnd now s :
  table_ok (heap s) (tasks s) →
  taskId ≠ generateTaskId stamp rnd →
  getTask taskId (createTask name description executor options stamp rnd now s).2
  = getTask taskId s.
Proof.
  intros Hok Hne. simpl. rewrite getTask_queueTask. unfold getTask. simpl.
  rewrite lookup_insert_ne by done.
  destruct (tasks s !! taskId) as [l|] eqn:Hl; [|done]. simpl.
  destruct (Hok _ _ Hl) as (task & Hh & _).
  by rewrite lookup_app_l by (by eapply lookup_lt_Some).
Qed.

Lemma createTask_inserts name description executor options stamp rnd now s l1 l2 :
  table_ok (heap s) (tasks s) →
  fresh_id (CreateTask name description executor options stamp rnd now) s = true →
  taskQueue s = l1 ++ l2 →
  let rank := priorityOrder (or_object (options ≫= opt_priority) medium) in
  Forall (λ x, ranks_after s rank x = false) l1 →
  Forall (λ x, ranks_after s rank x = true) l2 →
  taskQueue (createTask name description executor options stamp rnd now s).2
  = l1 ++ generateTaskId stamp rnd :: l2.
Proof.
  intros Hok [Hnew Hnotin]%andb_true_iff Hq rank H1 H2.
  apply bool_decide_eq_true in Hnew, Hnotin.
  pose proof (λ x, getTask_createTask_other x name description executor options
                     stamp rnd now s Hok) as Hother.
  simpl in Hother |- *.
  match goal with |- taskQueue (queueTask _ ?s1) = _ => set (s' := s1) in * end.
  assert (∀ x r, x ∈ taskQueue s → ranks_after s' r x = ranks_after s r x) as Hranks.
  { intros x r Hx. unfold ranks_after.
    rewrite <- (Hother x) by (by intros ->).
    by rewrite getTask_queueTask. }
  eapply queueTask_inserts.
  - unfold getTask. simpl. rewrite lookup_insert_eq. simpl.
    by rewrite lookup_app_r, Nat.sub_diag.
  - done.
  - apply Forall_forall. intros x Hx. simpl. rewrite Hranks.
    + by apply (proj1 (Forall_forall _ _) H1).
    + rewrite Hq. apply elem_of_app. by left.
  - apply Forall_forall. intros x Hx. simpl. rewrite Hranks.
    + by apply (proj1 (Forall_forall _ _) H2).
    + rewrite Hq. apply elem_of_app. by right.
Qed.

Lemma submitted_with_snoc p subs sub :
  submitted_with p (subs ++ [sub]) =
    submitted_with p subs
    ++ (if decide (submitted_priority sub = p) then [submitted_id sub] else []).
Proof.
  unfold submitted_with. rewrite filter_app, fmap_app. f_equal.
  rewrite filter_cons, filter_nil. by case_decide.
Qed.

Lemma submitted_class s subs p :
  submitted_ok subs s →
  Forall (λ x, ∃ task, getTask x s = Some task ∧ Task.priority task = p)
    (submitted_with p subs).
Proof.
  intros [Hsubs _]. apply Forall_forall. intros x.
  unfold submitted_with. rewrite list_elem_of_fmap.
  intros (sub & -> & [Hp Hin]%list_elem_of_filter).
  destruct (Hsubs sub Hin) as (task & Hget & Hprio).
  exists task. split; [done|congruence].
Qed.

Lemma ranks_after_false s r x task :
  getTask x s = Some task → priorityOrder (Task.priority task) ≤ r →
  ranks_after s r x = false.
Proof. unfold ranks_after. intros -> Hle. apply Z.ltb_ge. lia. Qed.

Lemma ranks_after_true s r x task :
  getTask x s = Some task → r < priorityOrder (Task.priority task) →
  ranks_after s r x = true.
Proof. unfold ranks_after. intros -> Hlt. by apply Z.ltb_lt. Qed.

(** Where the id of the next submission goes in the queue. *)
Lemma submission_position subs s sub :
  submitted_ok subs s →
  ∃ l1 l2,
    by_priority subs = l1 ++ l2
    ∧ by_priority (subs ++ [sub]) = l1 ++ submitted_id sub :: l2
    ∧ Forall (λ x, ∃ task, getTask x s = Some task
                 ∧ priorityOrder (Task.priority task)
                   ≤ priorityOrder (submitted_priority sub)) l1
    ∧ Forall (λ x, ∃ task, getTask x s = Some task
                 ∧ priorityOrder (submitted_priority sub)
                   < priorityOrder (Task.priority task)) l2.
Proof.
  intros Hok.
  pose proof (submitted_class s subs critical Hok) as Hc.
  pose proof (submitted_class s subs high Hok) as Hh.
  pose proof (submitted_class s subs medium Hok) as Hm.
  pose proof (submitted_class s subs low Hok) as Hl.
  assert (∀ p (P : Z → Prop) l, P (priorityOrder p) →
            Forall (λ x, ∃ task, getTask x s = Some task ∧ Task.priority task = p) l →
            Forall (λ x, ∃ task, getTask x s = Some task
                         ∧ P (priorityOrder (Task.priority task))) l) as Hrank.
  { intros p P l HP Hall. eapply Forall_impl; [exact Hall|].
    intros x (task & Hget & Hp). exists task. by rewrite Hp. }
  unfold by_priority. rewrite !submitted_with_snoc.
  destruct (submitted_priority sub) eqn:Hp; simpl.
  - exists (submitted_with critical subs ++ submitted_with high subs
            ++ submitted_with medium subs ++ submitted_with low subs), [].
    rewrite !app_nil_r, <- !app_assoc. split_and!; [done..| |done].
    repeat apply Forall_app_2;
      (eapply (Hrank _ (λ z, z ≤ 3)); [|eassumption]); simpl; lia.
  - exists (submitted_with critical subs ++ submitted_with high subs
            ++ submitted_with medium subs), (submitted_with low subs).
    rewrite !app_nil_r, <- !app_assoc. split_and!; [done..| |].
    + repeat apply Forall_app_2;
        (eapply (Hrank _ (λ z, z ≤ 2)); [|eassumption]); simpl; lia.
    + by eapply (Hrank _ (λ z, 2 < z)); [|eassumption].
  - exists (submitted_with critical subs ++ submitted_with high subs),
           (submitted_with medium subs ++ submitted_with low subs).
    rewrite !app_nil_r, <- !app_assoc. split_and!; [done..| |].
    + repeat apply Forall_app_2;
        (eapply (Hrank _ (λ z, z ≤ 1)); [|eassumption]); simpl; lia.
    + repeat apply Forall_app_2;
        (eapply (Hrank _ (λ z, 1 < z)); [|eassumption]); simpl; lia.
  - exists (submitted_with critical subs),
           (submitted_with high subs ++ submitted_with medium subs
            ++ submitted_with low subs).
    rewrite !app_nil_r, <- !app_assoc. split_and!; [done..| |].
    + by eapply (Hrank _ (λ z, z ≤ 0)); [|eassumption].
    + repeat apply Forall_app_2;
        (eapply (Hrank _ (λ z, 0 < z)); [|eassumption]); simpl; lia.
Qed.

Lemma submitted_ok_step subs s sub :
  table_ok (heap s) (tasks s) →
  fresh_id (submit sub) s = true →
  submitted_ok subs s →
  submitted_ok (subs ++ [sub]) (step (submit sub) s).
Proof.
  intros Htable Hfresh Hok.
  destruct (submission_position subs s sub Hok) as (l1 & l2 & Hq & Hq' & H1 & H2).
  split.
  - intros sub' [Hin| ->%list_elem_of_singleton]%elem_of_app.
    + destruct (proj1 Hok sub' Hin) as (task & Hget & Hprio).
      exists task. split; [|done]. unfold submit. cbn [step].
      rewrite getTask_createTask_other; [done..|].
      unfold submit, fresh_id in Hfresh.
      apply andb_true_iff in Hfresh as [Hnew%bool_decide_eq_true _].
      intros Heq. unfold getTask, submitted_id in Hget, Heq.
      by rewrite Heq, Hnew in Hget.
    + pose proof (createTask_getTask (sub_name sub) (sub_description sub)
                    (sub_executor sub) (sub_options sub) (sub_stamp sub)
                    (sub_rnd sub) (sub_now sub) s) as Hcreate.
      unfold submit. cbn [step].
      destruct (createTask _ _ _ _ _ _ _ s) as [taskId s'] eqn:Hs'.
      assert (taskId = submitted_id sub) as ->.
      { by apply (f_equal fst) in Hs'. }
      destruct Hcreate as (task & Hget & _ & Hprio & _). by exists task.
  - rewrite Hq'. unfold submit. cbn [step].
    apply createTask_inserts; [done..|by rewrite (proj2 Hok)| |].
    + eapply Forall_impl; [exact H1|].
      intros x (task & Hget & Hle). by eapply ranks_after_false.
    + eapply Forall_impl; [exact H2|].
      intros x (task & Hget & Hlt). by eapply ranks_after_true.
Qed.

Lemma submitted_ok_run cfg subs :
  fresh_ids (submit <$> subs) (new_executor cfg) = true →
  submitted_ok subs (run (submit <$> subs) (new_executor cfg)).
Proof.
  induction subs as [|sub subs IH] using rev_ind; intros Hfresh.
  - split; [|done]. intros sub Hin. by apply elem_of_nil in Hin.
  - rewrite fmap_app in Hfresh |- *. simpl in Hfresh |- *.
    rewrite fresh_ids_snoc in Hfresh. apply andb_true_iff in Hfresh as [Hsubs Hsub].
    rewrite run_snoc. apply submitted_ok_step; [|done|by apply IH].
    apply reachable_table_ok. by eexists _, _.
Qed.

End Ordering.

(** ** The order of dequeueing *)

Section Dequeue.
Implicit Types (s : Executor) (taskId : string) (e : Event) (es : list Event).

Lemma executeTask_taskQueue now taskId s :
  taskQueue (executeTask now taskId s) =
    match getTask taskId s with
    | Some task => if deps_pending s task then taskQueue s ++ [taskId] else taskQueue s
    | None => taskQueue s
    end.
Proof.
  unfold executeTask, getTask.
  destruct (tasks s !! taskId) as [l|]; [|done]. simpl.
  destruct (heap s !! l) as [task|]; [|done]. by case_match.
Qed.

Lemma processQueue_body_dequeue now s :
  match turn_dequeues s with
  | Some taskId =>
      match getTask taskId s with
      | Some task => deps_pending s task
      | None => false
      end = false →
      taskId :: taskQueue (processQueue_body now s) = taskQueue s
  | None => taskQueue (processQueue_body now s) = taskQueue s
  end.
Proof.
  unfold turn_dequeues, processQueue_body.
  destruct ((Z.of_nat (size (runningTasks s)) <? maxConcurrent (config s))
            && (0 <? Z.of_nat (length (taskQueue s)))); [|done].
  destruct (taskQueue s) as [|taskId rest] eqn:Hq; [done|]. simpl.
  destruct (truthy taskId); [|done].
  rewrite executeTask_taskQueue. rewrite getTask_with_taskQueue.
  destruct (getTask taskId s) as [task|]; [|done].
  change (deps_pending (with_taskQueue rest s) task) with (deps_pending s task).
  by intros ->.
Qed.

Lemma step_dequeue e s :
  loop_event e = true →
  match dequeues e s with
  | Some taskId => defers e s = false → taskId :: taskQueue (step e s) = taskQueue s
  | None => taskQueue (step e s) = taskQueue s
  end.
Proof.
  intros Hloop. unfold defers. destruct e; try done; cbn [step dequeues].
  - unfold start. destruct (isRunning s); [done|].
    pose proof (processQueue_body_dequeue now (with_isRunning true s)) as Hbody.
    by destruct (turn_dequeues (with_isRunning true s)).
  - unfold processQueue_turn. destruct (isRunning s); [|done].
    pose proof (processQueue_body_dequeue now s) as Hbody.
    by destruct (turn_dequeues s).
  - rewrite executeTask_continue_spec. by repeat case_match.
Qed.

Lemma dequeue_log_queue es s :
  forallb loop_event es = true →
  never_defers es s = true →
  dequeue_log es s ++ taskQueue (run es s) = taskQueue s.
Proof.
  revert s. induction es as [|e es IH]; intros s Hloop Hnever; [done|].
  simpl in Hloop, Hnever |- *.
  apply andb_true_iff in Hloop as [He Hes].
  apply andb_true_iff in Hnever as [Hd%negb_true_iff Hnever].
  pose proof (step_dequeue e s He) as Hstep.
  destruct (dequeues e s) as [taskId|]; simpl.
  - rewrite IH by done. by apply Hstep.
  - rewrite IH by done. done.
Qed.

(** A job that is taken from the queue and not put back is running
    when the turn of the loop ends. *)
Lemma executeTask_runs now taskId s task :
  getTask taskId s = Some task →
  deps_pending s task = false →
  taskId ∈ runningTasks (executeTask now taskId s)
  ∧ (Task.status <$> getTask taskId (executeTask now taskId s)) = Some running.
Proof.
  unfold executeTask, getTask.
  destruct (tasks s !! taskId) as [l|] eqn:Hl; [|done]. simpl.
  intros Hh Hdeps. rewrite Hh, Hdeps. simpl. rewrite Hl. simpl. split.
  - apply elem_of_union. left. by apply elem_of_singleton.
  - rewrite !list_lookup_alter_eq, Hh. done.
Qed.

Lemma step_dequeued_runs e s taskId task :
  table_ok (heap s) (tasks s) →
  dequeues e s = Some taskId →
  defers e s = false →
  getTask taskId s = Some task →
  taskId ∈ runningTasks (step e s)
  ∧ (Task.status <$> getTask taskId (step e s)) = Some running.
Proof.
  intros Hok Hdeq Hdef Hget. unfold defers in Hdef. rewrite Hdeq, Hget in Hdef.
  assert (∀ now s', heap s' = heap s → tasks s' = tasks s →
            turn_dequeues s' = Some taskId →
            taskId ∈ runningTasks (processQueue_body now s')
            ∧ (Task.status <$> getTask taskId (processQueue_body now s'))
              = Some running) as Hbody.
  { intros now s' Hh Ht. unfold turn_dequeues, processQueue_body.
    case_match; [|done].
    destruct (taskQueue s') as [|taskId' rest]; [done|]. intros [= ->].
    rewrite (getTask_truthy s taskId task) by done.
    apply (executeTask_runs now taskId _ task).
    - unfold getTask in *. simpl. by rewrite Hh, Ht.
    - unfold deps_pending, dep_completed, getTask in *. simpl.
      by rewrite Hh, Ht. }
  destruct e; try done; cbn [step dequeues] in *.
  - unfold start. destruct (isRunning s); [done|].
    by apply (Hbody now (with_isRunning true s)).
  - unfold processQueue_turn. destruct (isRunning s); [|done].
    by apply Hbody.
Qed.

(** Jobs without dependencies are never put back. *)
Lemma deps_pending_no_dependencies s task :
  Task.dependencies task = Some [] → deps_pending s task = false.
Proof. unfold deps_pending. by intros ->. Qed.

Lemma no_dependencies_alter (h : list Task.t) l f :
  (∀ task, Task.dependencies (f task) = Task.dependencies task) →
  no_dependencies h → no_dependencies (alter f l h).
Proof.
  intros Hf Hh. apply Forall_alter; [done|]. intros task _. by rewrite Hf.
Qed.

Lemma no_dependencies_step e s :
  loop_event e = true →
  no_dependencies (heap s) → no_dependencies (heap (step e s)).
Proof.
  intros Hloop Hno.
  assert (∀ now s', heap s' = heap s →
            no_dependencies (heap (processQueue_turn now s'))) as Hturn.
  { intros now s' Hh. unfold processQueue_turn, processQueue_body, executeTask.
    repeat case_match; simpl; rewrite ?Hh; try done.
    by repeat apply no_dependencies_alter. }
  destruct e; try done; cbn [step].
  - unfold start. case_match; [done|]. by apply Hturn.
  - by apply Hturn.
  - rewrite executeTask_continue_spec. unfold mark_completed.
    repeat case_match; simpl; try done; by repeat apply no_dependencies_alter.
Qed.

Lemma no_dependencies_never_defers es s :
  forallb loop_event es = true →
  no_dependencies (heap s) →
  never_defers es s = true.
Proof.
  revert s. induction es as [|e es IH]; intros s Hloop Hno; [done|].
  simpl in Hloop |- *. apply andb_true_iff in Hloop as [He Hes].
  apply andb_true_iff. split.
  - apply negb_true_iff. unfold defers.
    destruct (dequeues e s) as [taskId|]; [|done].
    destruct (getTask taskId s) as [task|] eqn:Hget; [|done].
    apply deps_pending_no_dependencies.
    unfold getTask in Hget.
    destruct (tasks s !! taskId) as [l|]; [|done]. simpl in Hget.
    by apply (Forall_lookup_1 _ _ _ _ Hno Hget).
  - apply IH; [done|]. by apply no_dependencies_step.
Qed.

Lemma no_dependencies_submitted subs s :
  Forall (λ sub, or_object (sub_options sub ≫= opt_dependencies) [] = []) subs →
  no_dependencies (heap s) →
  no_dependencies (heap (run (submit <$> subs) s)).
Proof.
  revert s. induction subs as [|sub subs IH]; intros s Hsubs Hno; [done|].
  apply Forall_cons in Hsubs as [Hsub Hsubs]. simpl.
  apply IH; [done|]. rewrite queueTask_heap. simpl.
  apply Forall_app. split; [done|]. apply Forall_singleton. simpl. by rewrite Hsub.
Qed.

End Dequeue.

Section StableOrder.
Implicit Types (sub : Submission) (subs : list Submission) (p : Priority).

Lemma by_priority_in_priority_order subs :
  by_priority subs = submitted_id <$> in_priority_order subs.
Proof. unfold by_priority, in_priority_order. by rewrite !fmap_app. Qed.

Lemma in_priority_order_Permutation subs : in_priority_order subs ≡ₚ subs.
Proof.
  unfold in_priority_order. induction subs as [|sub subs IH]; [done|].
  rewrite !filter_cons.
  destruct (submitted_priority sub); simpl; rewrite <- IH at 5.
  - by rewrite !app_assoc, <- Permutation_middle, <- !app_assoc.
  - rewrite (app_assoc _ _ (sub :: _ ++ _)).
    by rewrite <- Permutation_middle, <- !app_assoc.
  - by rewrite <- Permutation_middle.
  - done.
Qed.

Lemma filter_priority_class p p' subs :
  filter (λ sub, submitted_priority sub = p)
    (filter (λ sub, submitted_priority sub = p') subs)
  = if decide (p = p') then filter (λ sub, submitted_priority sub = p) subs else [].
Proof.
  induction subs as [|sub subs IH]; [by case_decide|].
  rewrite (filter_cons (λ sub, submitted_priority sub = p')).
  destruct (decide (submitted_priority sub = p')) as [Hp'|Hp'].
  - rewrite !filter_cons, IH.
    destruct (decide (p = p')) as [->|Hne].
    + by rewrite !decide_True.
    + rewrite decide_False; [done|congruence].
  - rewrite IH. destruct (decide (p = p')) as [->|Hne]; [|done].
    by rewrite filter_cons, decide_False.
Qed.

Lemma in_priority_order_stable subs p :
  filter (λ sub, submitted_priority sub = p) (in_priority_order subs)
  = filter (λ sub, submitted_priority sub = p) subs.
Proof.
  unfold in_priority_order. rewrite !filter_app, !filter_priority_class.
  destruct p; simpl; by rewrite ?app_nil_r.
Qed.

Lemma same_rank_StronglySorted p subs :
  StronglySorted
    (λ a b, priorityOrder (submitted_priority a) ≤ priorityOrder (submitted_priority b))
    (filter (λ sub, submitted_priority sub = p) subs).
Proof.
  induction subs as [|sub subs IH]; [constructor|].
  rewrite filter_cons. case_decide as Hp; [|done].
  constructor; [done|]. apply Forall_forall.
  intros x [Hx _]%list_elem_of_filter. rewrite Hp, Hx. lia.
Qed.

Lemma in_priority_order_sorted subs :
  StronglySorted
    (λ a b, priorityOrder (submitted_priority a) ≤ priorityOrder (submitted_priority b))
    (in_priority_order subs).
Proof.
  unfold in_priority_order.
  repeat (apply StronglySorted_app_2; [|apply same_rank_StronglySorted|]);
    try apply same_rank_StronglySorted.
  all: intros x1 x2 [Hx1 _]%list_elem_of_filter Hx2;
    repeat (apply elem_of_app in Hx2 as [Hx2|Hx2]);
    apply list_elem_of_filter in Hx2 as [Hx2 _];
    rewrite Hx1, Hx2; simpl; lia.
Qed.

End StableOrder.

(** C1: after any sequence of submissions (each with a fresh id) the
    queue holds the ids of the submissions rearranged in non-decreasing
    priority rank (critical, high, medium, low), those of equal priority
    in the order of submission.  [queueTask] puts the
    id of one more submission between a part of the queue whose jobs all
    have equal or higher priority and a part whose jobs all have strictly
    lower priority.  From then on, as long as no job is put back because
    of its dependencies (as is the case when no job has any), the ids
    that the control loop takes from the queue, followed by what is left
    in the queue, are the queue in that order, and each job taken from
    the queue is running when the turn of the loop ends. *)
Theorem queue_is_ordered_by_priority
    (cfg : option PartialConfig) (subs : list Submission) :
  fresh_ids (submit <$> subs) (new_executor cfg) = true →
  let s := run (submit <$> subs) (new_executor cfg) in
  let rank sub := priorityOrder (submitted_priority sub) in
  taskQueue s = submitted_id <$> in_priority_order subs
  ∧ in_priority_order subs ≡ₚ subs
  ∧ StronglySorted (λ a b, rank a ≤ rank b) (in_priority_order subs)
  ∧ (∀ p, filter (λ sub, submitted_priority sub = p) (in_priority_order subs)
          = filter (λ sub, submitted_priority sub = p) subs)
  ∧ (∀ sub, fresh_id (submit sub) s = true →
       ∃ l1 l2,
         taskQueue s = l1 ++ l2
         ∧ taskQueue (step (submit sub) s) = l1 ++ submitted_id sub :: l2
         ∧ Forall (λ x, ∃ task, getTask x s = Some task
                      ∧ priorityOrder (Task.priority task)
                        ≤ priorityOrder (submitted_priority sub)) l1
         ∧ Forall (λ x, ∃ task, getTask x s = Some task
                      ∧ priorityOrder (submitted_priority sub)
                        < priorityOrder (Task.priority task)) l2)
  ∧ (∀ es, forallb loop_event es = true →
       never_defers es s = true →
       dequeue_log es s ++ taskQueue (run es s)
       = submitted_id <$> in_priority_order subs)
  ∧ (∀ es, forallb loop_event es = true →
       Forall (λ sub, or_object (sub_options sub ≫= opt_dependencies) [] = []) subs →
       never_defers es s = true)
  ∧ (∀ es e taskId task,
       dequeues e (run es s) = Some taskId →
       defers e (run es s) = false →
       getTask taskId (run es s) = Some task →
       taskId ∈ runningTasks (step e (run es s))
       ∧ (Task.status <$> getTask taskId (step e (run es s))) = Some running).
Proof.
  intros Hfresh s rank.
  pose proof (submitted_ok_run cfg subs Hfresh) as Hok. fold s in Hok.
  assert (reachable s) as Hreach by (by eexists _, _).
  rewrite <- by_priority_in_priority_order.
  split_and!.
  - apply Hok.
  - apply in_priority_order_Permutation.
  - apply in_priority_order_sorted.
  - apply in_priority_order_stable.
  - intros sub Hsub.
    destruct (submission_position subs s sub Hok) as (l1 & l2 & Hq & Hq' & H1 & H2).
    exists l1, l2. split_and!; [by rewrite (proj2 Hok)| |done..].
    rewrite <- Hq'.
    apply (submitted_ok_step subs s sub); [by apply reachable_table_ok|done..].
  - intros es Hloop Hnever. rewrite <- (proj2 Hok). by apply dequeue_log_queue.
  - intros es Hloop Hsubs. apply no_dependencies_never_defers; [done|].
    apply no_dependencies_submitted; [done|]. by apply Forall_nil_2.
  - intros es e taskId task. apply step_dequeued_runs.
    by apply reachable_table_ok, reachable_run.
Qed.

(** Jobs of priorities low, critical and medium are submitted in that
    order and served one at a time: critical, medium, low; a fourth job
    of priority high would go between the critical and the medium one. *)
Lemma queue_is_ordered_by_priority_witness :
  let s := run (submit <$> three_jobs) (new_executor one_at_a_time) in
  taskQueue s = ["task_2_b"; "task_3_c"; "task_1_a"]
  ∧ taskQueue (step (submit fourth_job) s)
    = ["task_2_b"; "task_4_d"; "task_3_c"; "task_1_a"]
  ∧ dequeue_log serve_three s = ["task_2_b"; "task_3_c"; "task_1_a"]
  ∧ "task_2_b" ∈ runningTasks (step (Start 10) s).
Proof.
  intros s.
  destruct (queue_is_ordered_by_priority one_at_a_time three_jobs)
    as (Hqueue & _ & _ & _ & Hinsert & Hlog & Hnodeps & Hruns).
  { vm_compute. reflexivity. }
  fold s in Hqueue, Hinsert, Hlog, Hnodeps, Hruns.
  split_and!.
  - rewrite Hqueue. vm_compute. reflexivity.
  - destruct (Hinsert fourth_job) as (l1 & l2 & Hq & Hq' & _).
    { vm_compute. reflexivity. }
    vm_compute. reflexivity.
  - assert (never_defers serve_three s = true) as Hnever.
    { apply Hnodeps; [vm_compute; reflexivity|].
      repeat constructor. }
    specialize (Hlog serve_three eq_refl Hnever).
    vm_compute. reflexivity.
  - destruct (getTask "task_2_b" s) as [task|] eqn:Hget; [|by vm_compute in Hget].
    apply (Hruns [] (Start 10) "task_2_b" task).
    + vm_compute. reflexivity.
    + vm_compute. reflexivity.
    + exact Hget.
Defined.

(** * Further properties of the executor *)

(** ** What a step does to the task objects and to the suspended calls *)

Section Effects.
Implicit Types (s : Executor) (e : Event) (l : nat) (taskId : string).

Lemma executeTask_heap now taskId s :
  heap (executeTask now taskId s) = heap s
  ∨ ∃ l, tasks s !! taskId = Some l
         ∧ heap (executeTask now taskId s) = alter (started now) l (heap s).
Proof.
  unfold executeTask.
  destruct (tasks s !! taskId) as [l|]; [|by left].
  destruct (heap s !! l); [|by left]. case_match; [by left|].
  right. exists l. split; [done|]. simpl.
  by rewrite !list_alter_alter_eq.
Qed.

Lemma processQueue_turn_heap now s :
  heap (processQueue_turn now s) = heap s
  ∨ ∃ l taskId, head (taskQueue s) = Some taskId ∧ tasks s !! taskId = Some l
      ∧ heap (processQueue_turn now s) = alter (started now) l (heap s).
Proof.
  unfold processQueue_turn, processQueue_body.
  destruct (isRunning s); [|by left]. case_match; [|by left].
  destruct (taskQueue s) as [|taskId rest]; [by left|].
  destruct (truthy taskId); [|by left].
  destruct (executeTask_heap now taskId (with_taskQueue rest s)) as [->|(l & Hl & ->)];
    [by left|right]. by exists l, taskId.
Qed.

Lemma mark_completed_heap now l s :
  heap (mark_completed now l s) = alter (finished now) l (heap s).
Proof.
  unfold mark_completed. simpl. rewrite !list_alter_alter_eq.
  apply list_alter_ext; [|done]. intros task Hl. by rewrite Hl.
Qed.

(** Every step leaves the task objects as they are, adds the object of
    a new job, or assigns to one object. *)
Lemma step_heap e s :
  heap (step e s) = heap s
  ∨ (∃ name description executor options stamp rnd now task,
       e = CreateTask name description executor options stamp rnd now
       ∧ getTask (generateTaskId stamp rnd) (step e s) = Some task
       ∧ heap (step e s) = heap s ++ [task]
       ∧ Task.status task = queued ∧ Task.progress task = 0
       ∧ Task.retries task = 0 ∧ Task.error task = None)
  ∨ ∃ l f, assigns s e l f ∧ heap (step e s) = alter f l (heap s).
Proof.
  destruct e; cbn [step].
  - right; left. eexists _, _, _, _, _, _, _, _. split; [done|].
    simpl. rewrite queueTask_heap, getTask_queueTask. unfold getTask. simpl.
    rewrite lookup_insert_eq. simpl.
    by rewrite lookup_app_r, Nat.sub_diag.
  - unfold start. destruct (isRunning s); [by left|].
    destruct (processQueue_turn_heap now (with_isRunning true s))
      as [->|(l & taskId & Hhd & Hl & ->)]; [by left|right; right].
    exists l, (started now). split; [|done]. split; [done|]. by exists taskId.
  - by left.
  - destruct (processQueue_turn_heap now s)
      as [->|(l & taskId & Hhd & Hl & ->)]; [by left|right; right].
    exists l, (started now). split; [|done]. split; [done|]. by exists taskId.
  - rewrite executeTask_continue_spec.
    destruct (suspended s !! k) as [a|] eqn:Hk; [|by left].
    destruct (act_await a) as [i|] eqn:Ha; [|by left].
    right; right. eexists (act_task a), _. split.
    { exists a, i. by split_and!. }
    destruct (i + 10 <=? 100); simpl; [done|].
    change (heap (mark_completed now (act_task a) s)
            = alter (finished now) (act_task a) (heap s)).
    apply mark_completed_heap.
  - unfold pauseTask.
    destruct (tasks s !! taskId) as [l|] eqn:Hl; [|by left].
    destruct (heap s !! l) as [task|] eqn:Hh; [|by left].
    case_bool_decide as Hst; [|by left]. right; right.
    exists l, (Task.set_status paused). split; [|done].
    split_and!; [done..|]. unfold status_at. by rewrite Hh, <- Hst.
  - unfold resumeTask.
    destruct (tasks s !! taskId) as [l|] eqn:Hl; [|by left].
    destruct (heap s !! l) as [task|] eqn:Hh; [|by left].
    case_bool_decide as Hst; [|by left]. right; right.
    exists l, (Task.set_status queued). rewrite queueTask_heap. split; [|done].
    split_and!; [done..|]. unfold status_at. by rewrite Hh, <- Hst.
  - unfold cancelTask.
    destruct (tasks s !! taskId) as [l|] eqn:Hl; [|by left].
    destruct (heap s !! l) as [task|] eqn:Hh; [|by left]. right; right.
    exists l, cancelled. split; [done|]. simpl. by rewrite list_alter_alter_eq.
  - by left.
Qed.

(** Every step leaves the suspended calls as they are, adds a call at
    the start of its progress loop, advances one call, or ends one. *)
Lemma step_suspended e s :
  suspended (step e s) = suspended s
  ∨ (∃ l taskId, suspended (step e s)
       = suspended s ++ [{| act_task := l; act_taskId := taskId;
                            act_await := AwaitProgress 0 |}])
  ∨ (∃ k a i, suspended s !! k = Some a ∧ act_await a = AwaitProgress i
       ∧ i + 10 ≤ 100
       ∧ suspended (step e s)
         = <[k := {| act_task := act_task a; act_taskId := act_taskId a;
                     act_await := AwaitProgress (i + 10) |}]> (suspended s))
  ∨ ∃ k, suspended (step e s) = delete k (suspended s).
Proof.
  assert (∀ now s', suspended (processQueue_turn now s') = suspended s'
            ∨ ∃ l taskId, suspended (processQueue_turn now s')
                = suspended s' ++ [{| act_task := l; act_taskId := taskId;
                                      act_await := AwaitProgress 0 |}]) as Hturn.
  { intros now s'. unfold processQueue_turn, processQueue_body, executeTask.
    repeat case_match; simpl; eauto. }
  destruct e; cbn [step].
  - left. simpl. by rewrite queueTask_suspended.
  - unfold start. destruct (isRunning s); [by left|].
    destruct (Hturn now (with_isRunning true s)) as [->|?]; auto.
  - by left.
  - destruct (Hturn now s) as [->|?]; auto.
  - rewrite executeTask_continue_spec.
    destruct (suspended s !! k) as [a|] eqn:Hk; [|by left].
    destruct (act_await a) as [i|] eqn:Ha.
    + destruct (Z.leb_spec (i + 10) 100).
      * right; right; left. by exists k, a, i.
      * right; right; right. by exists k.
    + right; right; right. by exists k.
  - left. unfold pauseTask. by repeat case_match.
  - left. unfold resumeTask. repeat case_match; try done.
    by rewrite queueTask_suspended.
  - left. unfold cancelTask. by repeat case_match.
  - by left.
Qed.

End Effects.

(** ** Statistics and listings *)

Section Listings.
Implicit Types (s : Executor) (taskId : string).

Lemma getAllTasks_ids s :
  table_ok (heap s) (tasks s) →
  Task.id <$> getAllTasks s = (map_to_list (tasks s)).*1.
Proof.
  intros Hok. unfold getAllTasks.
  assert (∀ kv, kv ∈ map_to_list (tasks s) →
            ∃ task, heap s !! kv.2 = Some task ∧ Task.id task = kv.1) as Hall.
  { intros [k l] Hin%elem_of_map_to_list.
    destruct (Hok _ _ Hin) as (task & ? & ? & _). eauto. }
  induction (map_to_list (tasks s)) as [|kv kvs IH]; [done|].
  destruct (Hall kv) as (task & Hh & Hid); [by left|].
  simpl. rewrite Hh. simpl. rewrite Hid. f_equal.
  apply IH. intros kv' Hin. apply Hall. by right.
Qed.

Lemma getAllTasks_length s :
  table_ok (heap s) (tasks s) → length (getAllTasks s) = size (tasks s).
Proof.
  intros Hok. rewrite <- (length_fmap Task.id), getAllTasks_ids by done.
  by rewrite length_fmap, length_map_to_list.
Qed.

Lemma getAllTasks_NoDup s :
  table_ok (heap s) (tasks s) → NoDup (Task.id <$> getAllTasks s).
Proof. intros Hok. rewrite getAllTasks_ids by done. apply NoDup_fst_map_to_list. Qed.

Lemma status_partition (ts : list Task.t) :
  (length ts
   = length (filter (λ task, Task.status task = queued) ts)
     + length (filter (λ task, Task.status task = running) ts)
     + length (filter (λ task, Task.status task = completed) ts)
     + length (filter (λ task, Task.status task = failed) ts)
     + length (filter (λ task, Task.status task = paused) ts))%nat.
Proof.
  induction ts as [|task ts IH]; [done|].
  rewrite !filter_cons. destruct (Task.status task); simpl; lia.
Qed.

End Listings.

(** X1: in every state the executor reaches, the total that [getStats]
    reports is the sum of its five counts by status. *)
Theorem getStats_total_is_sum (cfg : option PartialConfig) (es : list Event) :
  let stats := getStats (run es (new_executor cfg)) in
  (total stats
   = n_queued stats + n_running stats + n_completed stats
     + n_failed stats + n_paused stats)%nat.
Proof.
  simpl. rewrite <- getAllTasks_length.
  - apply status_partition.
  - apply reachable_table_ok. by exists cfg, es.
Qed.

(** X2: in every state the executor reaches, [getTasksByStatus] lists
    exactly the jobs of the table that have the status asked for, and no
    job twice. *)
Theorem getTasksByStatus_exact
    (cfg : option PartialConfig) (es : list Event) (st : Status) :
  let s := run es (new_executor cfg) in
  (∀ task, task ∈ getTasksByStatus st s
           ↔ getTask (Task.id task) s = Some task ∧ Task.status task = st)
  ∧ NoDup (Task.id <$> getTasksByStatus st s)
  ∧ NoDup (getTasksByStatus st s).
Proof.
  intros s.
  assert (table_ok (heap s) (tasks s)) as Hok
    by (apply reachable_table_ok; by exists cfg, es).
  assert (NoDup (Task.id <$> getTasksByStatus st s)) as Hnd.
  { unfold getTasksByStatus.
    eapply sublist_NoDup; [by apply getAllTasks_NoDup|].
    apply fmap_sublist, sublist_filter. }
  split_and!; [|done|by eapply NoDup_fmap_1].
  intros task. unfold getTasksByStatus.
  rewrite list_elem_of_filter, elem_of_getAllTasks. split.
  - intros [Hst (taskId & l & Hl & Hh)]. split; [|done].
    destruct (Hok _ _ Hl) as (task' & Hh' & Hid & _).
    assert (task' = task) as -> by congruence.
    unfold getTask. by rewrite Hid, Hl.
  - intros [Hget Hst]. split; [done|]. unfold getTask in Hget.
    destruct (tasks s !! Task.id task) as [l|] eqn:Hl; [|done]. eauto.
Qed.

(** ** Configuration and the switch of the control loop *)

Section Switch.
Implicit Types (s : Executor) (e : Event).

Lemma or_number_nonzero x d : d ≠ 0 → or_number x d ≠ 0.
Proof. unfold or_number. destruct x as [v|]; [|done]. by destruct (Z.eqb_spec v 0). Qed.

Lemma executeTask_isRunning now taskId s :
  isRunning (executeTask now taskId s) = isRunning s.
Proof. unfold executeTask. by repeat case_match. Qed.

Lemma processQueue_turn_isRunning now s :
  isRunning (processQueue_turn now s) = isRunning s.
Proof.
  unfold processQueue_turn, processQueue_body.
  repeat case_match; try done. by rewrite executeTask_isRunning.
Qed.

Lemma start_isRunning now s : isRunning (start now s) = true.
Proof.
  unfold start. destruct (isRunning s) eqn:Hr; [done|].
  by rewrite processQueue_turn_isRunning.
Qed.

Lemma step_isRunning e s :
  loop_event e = false ∨ (∃ k now, e = Continue k now) ∨ (∃ now, e = LoopTurn now) →
  isRunning (step e s) = isRunning s.
Proof.
  intros He. destruct e; cbn [step]; simpl in He.
  - simpl. by rewrite queueTask_isRunning.
  - by destruct He as [?|[(?&?&?)|(?&?)]].
  - by destruct He as [?|[(?&?&?)|(?&?)]].
  - apply processQueue_turn_isRunning.
  - rewrite executeTask_continue_spec. by repeat case_match.
  - unfold pauseTask. by repeat case_match.
  - unfold resumeTask. repeat case_match; try done. by rewrite queueTask_isRunning.
  - unfold cancelTask. by repeat case_match.
  - done.
Qed.

End Switch.

(** X3: the configuration is fixed by the constructor: no operation
    changes it.  Each setting is the value given to the constructor or
    its default (3, 5000, 3); as the settings are read with [||], a given
    0 is replaced by the default like a missing value, and no setting of
    an executor is ever 0. *)
Theorem config_is_fixed_and_nonzero (cfg : option PartialConfig) (es : list Event) :
  let s := run es (new_executor cfg) in
  config s = config (new_executor cfg)
  ∧ maxConcurrent (config s) ≠ 0
  ∧ retryDelay (config s) ≠ 0
  ∧ defaultMaxRetries (config s) ≠ 0
  ∧ (maxConcurrent (config s) = 3
     ∨ cfg ≫= given_maxConcurrent = Some (maxConcurrent (config s)))
  ∧ (retryDelay (config s) = 5000
     ∨ cfg ≫= given_retryDelay = Some (retryDelay (config s)))
  ∧ (defaultMaxRetries (config s) = 3
     ∨ cfg ≫= given_defaultMaxRetries = Some (defaultMaxRetries (config s))).
Proof.
  assert (∀ x d, or_number x d = d ∨ x = Some (or_number x d)) as Hor.
  { intros [v|] d; simpl; [|by left]. destruct (v =? 0); auto. }
  intros s. unfold s. rewrite !run_config.
  split_and!; [done|..]; simpl; try (by apply or_number_nonzero); apply Hor.
Qed.

(** X4: [start] switches the control loop on and [stop] switches it
    off; a second [start] changes nothing (it does not take a second job
    from the queue), after [stop] a turn of the loop does nothing, and no
    other operation touches the switch. *)
Theorem start_stop_switch (s : Executor) (now now' : N) :
  isRunning (start now s) = true
  ∧ start now' (start now s) = start now s
  ∧ isRunning (stop s) = false
  ∧ processQueue_turn now (stop s) = stop s
  ∧ stop (stop s) = stop s
  ∧ (∀ e, match e with Start _ | Stop => True
          | _ => isRunning (step e s) = isRunning s end).
Proof.
  split_and!.
  - apply start_isRunning.
  - unfold start at 1. by rewrite start_isRunning.
  - done.
  - done.
  - done.
  - intros e. destruct e; try done; apply step_isRunning; eauto.
Qed.

(** ** What stays fixed in a job, and the bounds of what changes *)

Section Fields.
Implicit Types (s : Executor) (e : Event) (l : nat) (task : Task.t).

Lemma same_submission_refl task : same_submission task task.
Proof. by repeat split. Qed.

Lemma same_submission_trans task1 task2 task3 :
  same_submission task1 task2 → same_submission task2 task3 →
  same_submission task1 task3.
Proof.
  unfold same_submission. intros (?&?&?&?&?&?&?) (?&?&?&?&?&?&?).
  split_and!; congruence.
Qed.

Lemma assigns_same_submission s e l f task :
  assigns s e l f → same_submission task (f task).
Proof.
  destruct e; simpl; try done.
  - by intros [-> _].
  - by intros [-> _].
  - intros (a & i & _ & _ & _ & ->). by case_match.
  - by intros (_ & -> & _).
  - by intros (_ & -> & _).
  - by intros [_ ->].
Qed.

Lemma step_same_submission e s l task :
  heap s !! l = Some task →
  ∃ task', heap (step e s) !! l = Some task' ∧ same_submission task task'.
Proof.
  intros Hl.
  destruct (step_heap e s) as [->|[(?&?&?&?&?&?&?&task'&_&_&->&_)|(l'&f&Hf&->)]].
  - exists task. split; [done|apply same_submission_refl].
  - exists task. split; [|apply same_submission_refl].
    rewrite lookup_app_l; [done|]. by eapply lookup_lt_Some.
  - destruct (decide (l' = l)) as [->|Hne].
    + exists (f task). rewrite list_lookup_alter_eq, Hl. split; [done|].
      by eapply assigns_same_submission.
    + exists task. rewrite list_lookup_alter_ne by done.
      split; [done|apply same_submission_refl].
Qed.

Lemma step_unretried e s :
  Forall unretried (heap s) → Forall unretried (heap (step e s)).
Proof.
  intros Hall.
  destruct (step_heap e s)
    as [->|[(?&?&?&?&?&?&?&task'&_&_&->&_&_&Hr&He)|(l&f&Hf&->)]]; [done|..].
  - apply Forall_app. split; [done|]. apply Forall_singleton. split; auto.
  - apply Forall_alter; [done|]. intros task _ [Hr He].
    destruct e; simpl in Hf; try done.
    + by destruct Hf as [-> _].
    + by destruct Hf as [-> _].
    + destruct Hf as (a & i & _ & _ & _ & ->). by case_match.
    + by destruct Hf as (_ & -> & _).
    + by destruct Hf as (_ & -> & _).
    + destruct Hf as [_ ->]. split; [done|by right].
Qed.

Lemma step_no_retry_delay e s :
  Forall (λ a, ∃ i, act_await a = AwaitProgress i) (suspended s) →
  Forall (λ a, ∃ i, act_await a = AwaitProgress i) (suspended (step e s)).
Proof.
  intros Hall.
  destruct (step_suspended e s)
    as [->|[(l & taskId & ->)|[(k & a & i & _ & _ & _ & ->)|(k & ->)]]]; [done|..].
  - apply Forall_app. split; [done|]. apply Forall_singleton. by eexists.
  - apply Forall_insert; [done|]. by eexists.
  - by apply Forall_delete.
Qed.

Lemma step_percent e s :
  Forall (λ task, percent (Task.progress task)) (heap s) →
  Forall (λ a, ∀ i, act_await a = AwaitProgress i → percent i) (suspended s) →
  Forall (λ task, percent (Task.progress task)) (heap (step e s))
  ∧ Forall (λ a, ∀ i, act_await a = AwaitProgress i → percent i)
      (suspended (step e s)).
Proof.
  intros Hheap Hsusp.
  assert (percent 0) as H0 by (split; [lia|apply Z.divide_0_r]).
  assert (percent 100) as H100 by (split; [lia|by exists 10]).
  assert (∀ i, percent i → i + 10 ≤ 100 → percent (i + 10)) as Hnext.
  { intros i [Hi [j ->]] Hle. split; [lia|]. exists (j + 1). lia. }
  split.
  - destruct (step_heap e s)
      as [->|[(?&?&?&?&?&?&?&task'&_&_&->&_&Hp&_)|(l&f&Hf&->)]]; [done|..].
    + apply Forall_app. split; [done|]. apply Forall_singleton. by rewrite Hp.
    + apply Forall_alter; [done|]. intros task _ Htask.
      destruct e; simpl in Hf; try done.
      * by destruct Hf as [-> _].
      * by destruct Hf as [-> _].
      * destruct Hf as (a & i & Hk & _ & Ha & ->).
        destruct (Z.leb_spec (i + 10) 100); [|done]. simpl.
        apply Hnext; [|done].
        by apply (Forall_lookup_1 _ _ _ _ Hsusp Hk).
      * by destruct Hf as (_ & -> & _).
      * by destruct Hf as (_ & -> & _).
      * by destruct Hf as [_ ->].
  - destruct (step_suspended e s)
      as [->|[(l & taskId & ->)|[(k & a & i & Hk & Ha & Hle & ->)|(k & ->)]]];
      [done|..].
    + apply Forall_app. split; [done|]. apply Forall_singleton.
      simpl. by intros i [= <-].
    + apply Forall_insert; [done|]. simpl. intros i' [= <-].
      apply Hnext; [|done]. by apply (Forall_lookup_1 _ _ _ _ Hsusp Hk).
    + by apply Forall_delete.
Qed.

End Fields.

(** X5: what a job gets at its submission is never changed: over any
    run, a task object keeps its [id], [name], [description], [priority],
    [createdAt], [dependencies] and [maxRetries]. *)
Theorem submission_fields_are_fixed
    (es : list Event) (s : Executor) (l : nat) (task : Task.t) :
  heap s !! l = Some task →
  ∃ task', heap (run es s) !! l = Some task' ∧ same_submission task task'.
Proof.
  revert s task. induction es as [|e es IH]; intros s task Hl.
  - exists task. split; [done|apply same_submission_refl].
  - destruct (step_same_submission e s l task Hl) as (task1 & Hl1 & Hsame1).
    destruct (IH (step e s) task1 Hl1) as (task' & Hl' & Hsame').
    exists task'. split; [done|]. by eapply same_submission_trans.
Qed.

(** A started job keeps its submission fields while it runs to its end. *)
Lemma submission_fields_are_fixed_witness :
  let s := run (submit_and_start always_succeeds (Some 2)) (new_executor None) in
  ∃ task', heap (run to_the_end s) !! 0%nat = Some task'
           ∧ Task.id task' = "task_1_a" ∧ Task.maxRetries task' = 2.
Proof.
  intros s.
  destruct (heap s !! 0%nat) as [task|] eqn:Hl; [|by vm_compute in Hl].
  destruct (submission_fields_are_fixed to_the_end s 0 task Hl)
    as (task' & Hl' & Hid & _ & _ & _ & _ & _ & Hmax).
  exists task'. vm_compute in Hl. injection Hl as <-.
  split_and!; done.
Defined.

(** X6: no job is ever retried.  In every state the executor reaches,
    every job has [retries] 0, the only error a job carries is
    "Cancelled by user", and no call of [executeTask] waits in the retry
    delay of the [catch] block. *)
Theorem jobs_are_never_retried (cfg : option PartialConfig) (es : list Event) :
  let s := run es (new_executor cfg) in
  Forall (λ task, Task.retries task = 0
                  ∧ (Task.error task = None
                     ∨ Task.error task = Some "Cancelled by user")) (heap s)
  ∧ Forall (λ a, ∃ i, act_await a = AwaitProgress i) (suspended s)
  ∧ (∀ taskId, from_option (λ task, Task.retries task = 0) True (getTask taskId s)).
Proof.
  intros s.
  assert (Forall unretried (heap s)
          ∧ Forall (λ a, ∃ i, act_await a = AwaitProgress i) (suspended s))
    as [Hheap Hsusp].
  { unfold s. induction es as [|e es IH] using rev_ind.
    - split; apply Forall_nil_2.
    - rewrite run_snoc. destruct IH. split;
        [by apply step_unretried|by apply step_no_retry_delay]. }
  split_and!; [done..|].
  intros taskId. unfold getTask.
  destruct (tasks s !! taskId) as [l|]; [|done]. simpl.
  destruct (heap s !! l) as [task|] eqn:Hl; [|done]. simpl.
  apply (Forall_lookup_1 _ _ _ _ Hheap Hl).
Qed.

(** X7: in every state the executor reaches, the [progress] of every job
    is a multiple of 10 between 0 and 100, and so is the loop variable of
    every suspended call of [executeTask]. *)
Theorem progress_is_a_percentage (cfg : option PartialConfig) (es : list Event) :
  let s := run es (new_executor cfg) in
  Forall (λ task, 0 ≤ Task.progress task ≤ 100 ∧ (10 | Task.progress task)) (heap s)
  ∧ Forall (λ a, ∀ i, act_await a = AwaitProgress i → 0 ≤ i ≤ 100 ∧ (10 | i))
      (suspended s)
  ∧ (∀ taskId,
       from_option (λ task, 0 ≤ Task.progress task ≤ 100) True (getTask taskId s)).
Proof.
  intros s.
  assert (Forall (λ task, percent (Task.progress task)) (heap s)
          ∧ Forall (λ a, ∀ i, act_await a = AwaitProgress i → percent i)
              (suspended s)) as [Hheap Hsusp].
  { unfold s. induction es as [|e es IH] using rev_ind.
    - split; apply Forall_nil_2.
    - rewrite run_snoc. destruct IH. by apply step_percent. }
  split_and!; [done..|].
  intros taskId. unfold getTask.
  destruct (tasks s !! taskId) as [l|]; [|done]. simpl.
  destruct (heap s !! l) as [task|] eqn:Hl; [|done]. simpl.
  apply (Forall_lookup_1 _ _ _ _ Hheap Hl).
Qed.

(** ** A call of [executeTask] from its start to its end *)

Section Lifecycle.
Implicit Types (s : Executor) (l k : nat) (taskId : string).

Lemma executeTask_continue_advance now k s a i :
  suspended s !! k = Some a →
  act_await a = AwaitProgress i →
  i + 10 ≤ 100 →
  executeTask_continue now k s =
    with_suspended
      (<[k := {| act_task := act_task a; act_taskId := act_taskId a;
                 act_await := AwaitProgress (i + 10) |}]> (suspended s))
      (update (act_task a) (Task.set_progress (i + 10)) s).
Proof.
  intros Hk Ha Hle. rewrite executeTask_continue_spec, Hk, Ha.
  by destruct (Z.leb_spec (i + 10) 100); [|lia].
Qed.

Lemma executeTask_continue_end now k s a i :
  suspended s !! k = Some a →
  act_await a = AwaitProgress i →
  100 < i + 10 →
  executeTask_continue now k s =
    executeTask_finally k (act_taskId a) (mark_completed now (act_task a) s).
Proof.
  intros Hk Ha Hlt. rewrite executeTask_continue_spec, Hk, Ha.
  by destruct (Z.leb_spec (i + 10) 100); [lia|].
Qed.

(** One or more turns of the progress loop of the call at position [k]. *)
Lemma run_advance now k l taskId n :
  ∀ s i,
    suspended s !! k = Some {| act_task := l; act_taskId := taskId;
                               act_await := AwaitProgress i |} →
    i + 10 * Z.of_nat (S n) ≤ 100 →
    run (replicate (S n) (Continue k now)) s =
      with_suspended
        (<[k := {| act_task := l; act_taskId := taskId;
                   act_await := AwaitProgress (i + 10 * Z.of_nat (S n)) |}]>
           (suspended s))
        (update l (Task.set_progress (i + 10 * Z.of_nat (S n))) s).
Proof.
  induction n as [|n IH]; intros s i Hk Hle.
  - simpl. rewrite (executeTask_continue_advance now k s _ i Hk eq_refl) by lia.
    simpl. by replace (i + 10 * 1) with (i + 10) by lia.
  - change (run (replicate (S (S n)) (Continue k now)) s)
      with (run (replicate (S n) (Continue k now)) (executeTask_continue now k s)).
    rewrite (executeTask_continue_advance now k s _ i Hk eq_refl) by lia.
    simpl act_task. simpl act_taskId.
    rewrite (IH _ (i + 10)).
    + unfold with_suspended, update, with_heap. simpl. f_equal.
      * rewrite list_alter_alter_eq. apply list_alter_ext; [|done].
        intros task _. unfold Task.set_progress. simpl. f_equal. lia.
      * rewrite list_insert_insert_eq. do 3 f_equal. lia.
    + simpl. apply list_lookup_insert_eq. by eapply lookup_lt_Some.
    + lia.
Qed.

Lemma finished_started now now' task :
  finished now' (Task.set_progress 100 (started now task))
  = finished now' (started now task).
Proof. done. Qed.

End Lifecycle.

(** X8: a job of the table whose dependencies are not pending, handed to
    [executeTask], is started: it is in the running set with status
    running, its start time and progress 0.  The eleven continuations of
    that call (with nothing else in between) take it to its end: the job
    is completed with progress 100, its completion time and its result,
    its id has left the running set, the call is no longer suspended,
    and the queue and the job table are as before. *)
Theorem execution_from_start_to_end
    (now now' : N) (taskId : string) (s : Executor) (task : Task.t) :
  getTask taskId s = Some task →
  deps_pending s task = false →
  let s1 := executeTask now taskId s in
  let s2 := run (replicate 11 (Continue (length (suspended s)) now')) s1 in
  getTask taskId s1 = Some (started now task)
  ∧ taskId ∈ runningTasks s1
  ∧ getTask taskId s2 = Some (finished now' (started now task))
  ∧ Task.status (finished now' (started now task)) = completed
  ∧ Task.progress (finished now' (started now task)) = 100
  ∧ Task.startedAt (finished now' (started now task)) = Some now
  ∧ Task.completedAt (finished now' (started now task)) = Some now'
  ∧ Task.result (finished now' (started now task))
    = Some {| success := true;
              message := "Task " +:+ Task.name task +:+ " completed successfully" |}
  ∧ runningTasks s2 = runningTasks s ∖ {[taskId]}
  ∧ suspended s2 = suspended s
  ∧ taskQueue s2 = taskQueue s
  ∧ tasks s2 = tasks s.
Proof.
  intros Hget Hdeps s1 s2. unfold getTask in Hget.
  destruct (tasks s !! taskId) as [l|] eqn:Hl; [|done]. simpl in Hget.
  assert (s1 = with_suspended
                 (suspended s ++ [{| act_task := l; act_taskId := taskId;
                                     act_await := AwaitProgress 0 |}])
                 (with_runningTasks ({[taskId]} ∪ runningTasks s)
                    (update l (started now) s))) as Hs1.
  { unfold s1, executeTask. rewrite Hl, Hget, Hdeps.
    unfold with_suspended, with_runningTasks, update, with_heap. simpl.
    by rewrite !list_alter_alter_eq. }
  assert (suspended s1 !! length (suspended s)
          = Some {| act_task := l; act_taskId := taskId;
                    act_await := AwaitProgress 0 |}) as Hk.
  { rewrite Hs1. simpl. by rewrite lookup_app_r, Nat.sub_diag. }
  assert (s2 = executeTask_finally (length (suspended s)) taskId
                 (mark_completed now' l
                    (run (replicate 10 (Continue (length (suspended s)) now')) s1)))
    as Hs2.
  { unfold s2. change 11%nat with (10 + 1)%nat.
    rewrite replicate_add, run_app.
    set (s10 := run (replicate 10 (Continue (length (suspended s)) now')) s1).
    change (executeTask_continue now' (length (suspended s)) s10
            = executeTask_finally (length (suspended s)) taskId
                (mark_completed now' l s10)).
    assert (suspended s10 !! length (suspended s)
            = Some {| act_task := l; act_taskId := taskId;
                      act_await := AwaitProgress (0 + 10 * Z.of_nat 10) |}) as Hk10.
    { unfold s10. rewrite (run_advance now' _ l taskId 9 s1 0 Hk) by lia.
      simpl suspended. apply list_lookup_insert_eq. by eapply lookup_lt_Some. }
    by rewrite (executeTask_continue_end now' _ s10 _ _ Hk10 eq_refl). }
  rewrite (run_advance now' _ l taskId 9 s1 0 Hk) in Hs2 by lia.
  split_and!; try done.
  - rewrite Hs1. unfold getTask. simpl. rewrite Hl. simpl.
    by rewrite list_lookup_alter_eq, Hget.
  - rewrite Hs1. simpl. apply elem_of_union. left. by apply elem_of_singleton.
  - rewrite Hs2, Hs1. unfold getTask. simpl. rewrite Hl. simpl.
    by rewrite !list_lookup_alter_eq, Hget.
  - rewrite Hs2, Hs1. simpl. apply set_eq. intros x.
    rewrite !elem_of_difference, elem_of_union, elem_of_singleton. tauto.
  - rewrite Hs2, Hs1. simpl.
    rewrite insert_app_r_alt, Nat.sub_diag by done. simpl.
    by rewrite delete_middle, app_nil_r.
  - by rewrite Hs2, Hs1.
  - by rewrite Hs2, Hs1.
Qed.

(** The job of [three_jobs] at the head of the queue runs to its end. *)
Lemma execution_from_start_to_end_witness :
  let s := run (submit <$> three_jobs) (new_executor None) in
  (Task.status <$> getTask "task_2_b"
     (run (replicate 11 (Continue 0 7)) (executeTask 5 "task_2_b" s)))
  = Some completed.
Proof.
  intros s.
  destruct (getTask "task_2_b" s) as [task|] eqn:Hget; [|by vm_compute in Hget].
  destruct (execution_from_start_to_end 5 7 "task_2_b" s task Hget)
    as (_ & _ & Hend & Hst & _).
  { vm_compute in Hget. injection Hget as <-. vm_compute. reflexivity. }
  change (length (suspended s)) with 0%nat in Hend.
  rewrite Hend. exact (f_equal Some Hst).
Defined.

(** ** The dependency gate *)

Section Gate.
Implicit Types (s : Executor) (taskId depId : string) (task : Task.t).

Lemma dep_completed_true s depId :
  dep_completed s depId = true
  ↔ ∃ dep, getTask depId s = Some dep ∧ Task.status dep = completed.
Proof.
  unfold dep_completed. destruct (getTask depId s) as [dep|].
  - rewrite bool_decide_eq_true. split.
    + intros Hst. by exists dep.
    + by intros (dep' & [= <-] & Hst).
  - split; [done|]. by intros (dep & ? & _).
Qed.

Lemma deps_pending_false s task :
  deps_pending s task = false
  ↔ ∀ ds depId, Task.dependencies task = Some ds → depId ∈ ds →
      ∃ dep, getTask depId s = Some dep ∧ Task.status dep = completed.
Proof.
  unfold deps_pending. destruct (Task.dependencies task) as [[|d ds]|].
  - split; [|done]. intros _ ds depId [= <-] Hin. by apply elem_of_nil in Hin.
  - rewrite negb_false_iff, forallb_forall. split.
    + intros Hall ds' depId [= <-] Hin.
      apply dep_completed_true, Hall. by apply list_elem_of_In.
    + intros Hall depId Hin. apply dep_completed_true.
      apply (Hall (d :: ds)); [done|]. by apply list_elem_of_In.
  - split; [|done]. by intros _ ds depId.
Qed.

End Gate.



(** X10: clearing a completed job blocks the jobs that depend on it.
    When a job of the table that has not completed depends on a completed
    job, then after [clearCompleted] the dependency is no longer found
    and the dependent job is put back to the tail of the queue whenever
    it is handed to [executeTask]. *)
Theorem cleared_dependency_blocks_dependents
    (cfg : option PartialConfig) (es : list Event) (now : N)
    (taskId depId : string) (task dep : Task.t) (ds : list string) :
  let s := run es (new_executor cfg) in
  getTask taskId s = Some task →
  Task.status task ≠ completed →
  Task.dependencies task = Some ds →
  depId ∈ ds →
  getTask depId s = Some dep →
  Task.status dep = completed →
  let s' := clearCompleted s in
  getTask taskId s' = Some task
  ∧ getTask depId s' = None
  ∧ deps_pending s' task = true
  ∧ executeTask now taskId s' = with_taskQueue (taskQueue s' ++ [taskId]) s'.
Proof.
  intros s Hget Hst Hds Hin Hdep Hcompleted s'.
  assert (table_ok (heap s) (tasks s)) as Hok
    by (apply reachable_table_ok; by exists cfg, es).
  assert (getTask taskId s' = Some task) as Hget'.
  { unfold s'. rewrite clearCompleted_getTask, Hget by done.
    by rewrite decide_False. }
  assert (getTask depId s' = None) as Hdep'.
  { unfold s'. rewrite clearCompleted_getTask, Hdep by done.
    by rewrite decide_True. }
  assert (deps_pending s' task = true) as Hpending.
  { apply (deps_pending_intro s' task ds depId); [done..|].
    intros dep'. by rewrite Hdep'. }
  split_and!; [done..|]. by apply (executeTask_deferred now taskId s' task).
Qed.

(** The second job waits for the first, which completes and is cleared. *)
Lemma cleared_dependency_blocks_dependents_witness :
  let s := run submit_dependent (new_executor None) in
  getTask "task_1_a" (clearCompleted s) = None
  ∧ executeTask 9 "task_2_b" (clearCompleted s)
    = with_taskQueue (taskQueue (clearCompleted s) ++ ["task_2_b"]) (clearCompleted s).
Proof.
  intros s.
  destruct (getTask "task_2_b" s) as [task|] eqn:Hget; [|by vm_compute in Hget].
  destruct (getTask "task_1_a" s) as [dep|] eqn:Hdep; [|by vm_compute in Hdep].
  vm_compute in Hget. injection Hget as <-.
  vm_compute in Hdep. injection Hdep as <-.
  refine (let H := cleared_dependency_blocks_dependents None submit_dependent 9
                     "task_2_b" "task_1_a" _ _ ["task_1_a"] _ _ _ _ _ _ in
          conj (proj1 (proj2 H)) (proj2 (proj2 (proj2 H)))).
  - vm_compute. reflexivity.
  - discriminate.
  - reflexivity.
  - apply list_elem_of_here.
  - vm_compute. reflexivity.
  - reflexivity.
Defined.

(** ** Ids that are not in the job table *)

(** X11: an id that is not in the job table is ignored: [pauseTask],
    [resumeTask], [cancelTask], [queueTask] and [executeTask] leave the
    state as it is, and a turn of the control loop that finds such an id
    at the head of the queue only drops it from the queue. *)
Theorem unknown_id_is_ignored (taskId : string) (s : Executor) :
  getTask taskId s = None →
  pauseTask taskId s = s
  ∧ resumeTask taskId s = s
  ∧ cancelTask taskId s = s
  ∧ queueTask taskId s = s
  ∧ (∀ now, executeTask now taskId s = s)
  ∧ (∀ now rest,
       isRunning s = true →
       Z.of_nat (size (runningTasks s)) < maxConcurrent (config s) →
       taskQueue s = taskId :: rest →
       processQueue_turn now s = with_taskQueue rest s).
Proof.
  intros Hget.
  assert (∀ q now, executeTask now taskId (with_taskQueue q s) = with_taskQueue q s)
    as Hexec.
  { intros q now. unfold getTask in Hget. unfold executeTask. simpl.
    destruct (tasks s !! taskId) as [l|]; [|done]. simpl in Hget. by rewrite Hget. }
  split_and!.
  - apply pauseTask_not_running. intros task. by rewrite Hget.
  - apply resumeTask_not_paused. intros task. by rewrite Hget.
  - by apply cancelTask_absent.
  - unfold queueTask. by rewrite Hget.
  - intros now. unfold getTask in Hget. unfold executeTask.
    destruct (tasks s !! taskId) as [l|]; [|done]. simpl in Hget. by rewrite Hget.
  - intros now rest Hrun Hgate Hq.
    unfold processQueue_turn, processQueue_body. rewrite Hrun, Hq.
    rewrite (proj2 (Z.ltb_lt _ _) Hgate). simpl.
    destruct (truthy taskId); [apply Hexec|done].
Qed.

(** The id of a job that was cleared while it was queued. *)
Lemma unknown_id_is_ignored_witness :
  let s := run requeue_and_clear (new_executor None) in
  taskQueue s = ["task_1_a"]
  ∧ cancelTask "task_1_a" s = s
  ∧ processQueue_turn 9 s = with_taskQueue [] s.
Proof.
  intros s.
  destruct (unknown_id_is_ignored "task_1_a" s) as (_ & _ & Hcancel & _ & _ & Hturn).
  { vm_compute. reflexivity. }
  split_and!; [by vm_compute|done|]. apply Hturn.
  - vm_compute. reflexivity.
  - vm_compute. reflexivity.
  - vm_compute. reflexivity.
Defined.

(** ** The running set *)

(** X12: an id leaves the running set only when a call of [executeTask]
    comes to its end, and then it is the id of that call: no other
    operation removes an id, so a paused or cancelled job keeps its slot
    until its call ends.  A step adds at most one id. *)
Theorem running_set_changes (e : Event) (s : Executor) :
  match e with
  | Continue k now =>
      runningTasks (step e s) ⊆ runningTasks s
      ∧ ∀ taskId, taskId ∈ runningTasks s → taskId ∉ runningTasks (step e s) →
          ∃ a, suspended s !! k = Some a ∧ act_taskId a = taskId ∧ finishing a
  | _ => runningTasks s ⊆ runningTasks (step e s)
  end
  ∧ (size (runningTasks (step e s)) ≤ S (size (runningTasks s)))%nat.
Proof.
  split.
  - assert (∀ now s', runningTasks s' ⊆ runningTasks (processQueue_turn now s'))
      as Hturn.
    { intros now s'.
      destruct (processQueue_turn_runningTasks now s') as [->|(_ & taskId & ->)];
        [done|]. apply union_subseteq_r. }
    destruct e; cbn [step].
    + simpl. by rewrite queueTask_runningTasks.
    + unfold start. destruct (isRunning s); [done|].
      apply (Hturn now (with_isRunning true s)).
    + done.
    + apply Hturn.
    + split; [apply executeTask_continue_runningTasks|].
      intros taskId Hin Hout. rewrite executeTask_continue_spec in Hout.
      destruct (suspended s !! k) as [a|]; [|done].
      exists a. split; [done|]. unfold finishing.
      destruct (act_await a) as [i|].
      * destruct (Z.leb_spec (i + 10) 100); [done|]. simpl in Hout.
        split; [|lia]. destruct (decide (act_taskId a = taskId)); [done|].
        destruct Hout. apply elem_of_difference. split; [done|].
        by intros ->%elem_of_singleton.
      * simpl in Hout. split; [|done].
        destruct (decide (act_taskId a = taskId)); [done|].
        destruct Hout. apply elem_of_difference. split; [done|].
        by intros ->%elem_of_singleton.
    + unfold pauseTask. by repeat case_match.
    + unfold resumeTask. repeat case_match; try done.
      by rewrite queueTask_runningTasks.
    + unfold cancelTask. by repeat case_match.
    + done.
  - destruct (step_runningTasks e s) as [Hsub|(_ & taskId & ->)].
    + apply subseteq_size in Hsub. lia.
    + apply size_add_le.
Qed.

(** ** After a cancellation *)

Section Cancelled.
Implicit Types (s : Executor) (e : Event) (taskId : string).

Lemma step_tasks e s :
  creates e = None → e ≠ ClearCompleted → tasks (step e s) = tasks s.
Proof.
  intros Hc Hne. destruct e; try done; cbn [step].
  - unfold start, processQueue_turn, processQueue_body, executeTask.
    by repeat case_match.
  - unfold processQueue_turn, processQueue_body, executeTask.
    by repeat case_match.
  - rewrite executeTask_continue_spec. by repeat case_match.
  - unfold pauseTask. by repeat case_match.
  - unfold resumeTask. repeat case_match; try done. by rewrite queueTask_tasks.
  - unfold cancelTask. by repeat case_match.
Qed.

Lemma elem_of_remove_first x taskId (q : list string) :
  x ∈ remove_first taskId q → x ∈ q.
Proof. intros Hin. eapply elem_of_sublist; [done|apply remove_first_sublist]. Qed.

(** An id is in the queue after a step only if it was there before, or
    if the step is the submission that generates it or the resumption of
    its paused job. *)
Lemma step_taskQueue_elem e s x :
  x ∈ taskQueue (step e s) →
  x ∈ taskQueue s
  ∨ creates e = Some x
  ∨ (e = ResumeTask x ∧ ∃ task, getTask x s = Some task ∧ Task.status task = paused).
Proof.
  assert (∀ now s', x ∈ taskQueue (processQueue_turn now s') → x ∈ taskQueue s')
    as Hturn.
  { intros now s'. unfold processQueue_turn, processQueue_body.
    destruct (isRunning s'); [|auto]. case_match; [|auto].
    destruct (taskQueue s') as [|taskId rest] eqn:Hq;
      [simpl; by rewrite Hq|].
    destruct (truthy taskId); [|simpl; intros ?; by right].
    rewrite executeTask_taskQueue. simpl.
    destruct (getTask taskId (with_taskQueue rest s')) as [task|];
      [destruct (deps_pending (with_taskQueue rest s') task)|].
    - intros [?| ->%list_elem_of_singleton]%elem_of_app; [by right|by left].
    - intros ?. by right.
    - intros ?. by right. }
  destruct e; cbn [step creates].
  - simpl. unfold queueTask. case_match; simpl; [|by left].
    intros [->|?]%elem_of_splice_insert; auto.
  - unfold start. destruct (isRunning s); [by left|].
    intros Hin. left. by apply (Hturn now (with_isRunning true s)).
  - by left.
  - intros Hin. left. by apply (Hturn now s).
  - rewrite executeTask_continue_spec. left. by repeat case_match.
  - unfold pauseTask. left. by repeat case_match.
  - unfold resumeTask, getTask.
    destruct (tasks s !! taskId) as [l|] eqn:Hl; [|by left]. simpl.
    destruct (heap s !! l) as [task|] eqn:Hh; [|by left].
    case_bool_decide as Hst; [|by left].
    unfold queueTask. case_match; simpl; [|by left].
    intros [->|?]%elem_of_splice_insert; [|by left].
    right; right. split; [done|]. rewrite Hl. simpl. eauto.
  - unfold cancelTask. repeat case_match; simpl; try (by left).
    intros Hin%elem_of_remove_first. by left.
  - by left.
Qed.

Lemma out_of_queue_step e s taskId :
  table_ok (heap s) (tasks s) →
  creates e ≠ Some taskId →
  out_of_queue taskId s → out_of_queue taskId (step e s).
Proof.
  intros Hok Hcreate [Hnotin Hst]. split.
  - intros [?|[?|(-> & task & Hget & Hpaused)]]%step_taskQueue_elem; [done..|].
    destruct (Hst task Hget); congruence.
  - intros task'.
    assert (e = ClearCompleted ∨ e ≠ ClearCompleted) as [->|Hclear]
      by (destruct e; (by left) || (by right)).
    { cbn [step]. rewrite clearCompleted_getTask by done.
      destruct (getTask taskId s) as [task|] eqn:Hget; [|done].
      case_decide; [done|]. intros [= <-]. by apply Hst. }
    destruct (creates e) as [taskId'|] eqn:Hc.
    { destruct e; try done. cbn [step]. simpl in Hc. injection Hc as <-.
      rewrite getTask_createTask_other by (done || congruence). apply Hst. }
    unfold getTask. rewrite step_tasks by done.
    destruct (tasks s !! taskId) as [l|] eqn:Hl; [|done]. simpl.
    assert (∀ task, heap s !! l = Some task →
              Task.status task = failed ∨ Task.status task = completed) as Hst'.
    { intros task Hh. apply Hst. unfold getTask. by rewrite Hl. }
    destruct (step_heap e s)
      as [->|[(?&?&?&?&?&?&?&?&->&_)|(l'&f&Hf&->)]];
      [apply Hst'|by simpl in Hc|].
    destruct (decide (l' = l)) as [->|Hne];
      [|rewrite list_lookup_alter_ne by done; apply Hst'].
    rewrite list_lookup_alter_eq.
    destruct (heap s !! l) as [task|] eqn:Hh; [|done]. simpl. intros [= <-].
    specialize (Hst' task eq_refl).
    destruct e; simpl in Hf; try done.
    + destruct Hf as (_ & taskId' & Hhd & Hl').
      destruct (Hok _ _ Hl) as (t1 & Ht1 & Hid1 & _).
      destruct (Hok _ _ Hl') as (t2 & Ht2 & Hid2 & _).
      assert (taskId' = taskId) as -> by congruence.
      destruct Hnotin. destruct (taskQueue s); [done|].
      simpl in Hhd. injection Hhd as ->. by left.
    + destruct Hf as (_ & taskId' & Hhd & Hl').
      destruct (Hok _ _ Hl) as (t1 & Ht1 & Hid1 & _).
      destruct (Hok _ _ Hl') as (t2 & Ht2 & Hid2 & _).
      assert (taskId' = taskId) as -> by congruence.
      destruct Hnotin. destruct (taskQueue s); [done|].
      simpl in Hhd. injection Hhd as ->. by left.
    + destruct Hf as (a & i & _ & _ & _ & ->). case_match; [done|by right].
    + destruct Hf as (_ & _ & Hrunning). unfold status_at in Hrunning.
      rewrite Hh in Hrunning. simpl in Hrunning. destruct Hst'; congruence.
    + destruct Hf as (_ & _ & Hpaused). unfold status_at in Hpaused.
      rewrite Hh in Hpaused. simpl in Hpaused. destruct Hst'; congruence.
    + destruct Hf as [_ ->]. by left.
Qed.

Lemma out_of_queue_dequeues e s taskId :
  taskId ∉ taskQueue s → dequeues e s ≠ Some taskId.
Proof.
  intros Hnotin Hdeq. destruct Hnotin.
  assert (∀ s', taskQueue s' = taskQueue s → turn_dequeues s' = Some taskId →
            taskId ∈ taskQueue s) as Hturn.
  { intros s' <-. unfold turn_dequeues. case_match; [|done].
    destruct (taskQueue s'); [done|]. intros [= ->]. by left. }
  destruct e; simpl in Hdeq; try done.
  - destruct (isRunning s); [done|]. by eapply Hturn.
  - destruct (isRunning s); [|done]. by eapply Hturn.
Qed.

Lemma out_of_queue_run es s taskId :
  reachable s →
  Forall (λ e, creates e ≠ Some taskId) es →
  out_of_queue taskId s →
  out_of_queue taskId (run es s) ∧ (taskId ∉ dequeue_log es s).
Proof.
  revert s. induction es as [|e es IH]; intros s Hreach Hes Hout.
  - split; [done|]. apply not_elem_of_nil.
  - apply Forall_cons in Hes as [He Hes].
    destruct (IH (step e s)) as [Hout' Hlog]; [by apply reachable_step|done|..].
    { apply out_of_queue_step; [by apply reachable_table_ok|done..]. }
    split; [done|]. simpl.
    pose proof (out_of_queue_dequeues e s taskId (proj1 Hout)) as Hdeq.
    destruct (dequeues e s) as [x|]; [|done].
    intros [->|?]%elem_of_cons; [|done]. by destruct Hdeq.
Qed.

End Cancelled.

(** X13: a cancelled job is never taken from the queue again.  When
    every submission so far had a fresh id, then after [cancelTask] on a
    job of the table its id is not in the queue, and over any further
    run in which no submission generates the same id again, the id never
    returns to the queue, is never taken from it by the control loop, and
    the status of the job is failed or completed. *)
Theorem cancelled_job_is_never_dequeued
    (cfg : option PartialConfig) (es es' : list Event)
    (taskId : string) (task : Task.t) :
  fresh_ids es (new_executor cfg) = true →
  let s := cancelTask taskId (run es (new_executor cfg)) in
  getTask taskId (run es (new_executor cfg)) = Some task →
  Forall (λ e, creates e ≠ Some taskId) es' →
  (taskId ∉ taskQueue s)
  ∧ (taskId ∉ taskQueue (run es' s))
  ∧ (taskId ∉ dequeue_log es' s)
  ∧ (∀ task', getTask taskId (run es' s) = Some task' →
       Task.status task' = failed ∨ Task.status task' = completed).
Proof.
  intros Hfresh s Hget Hes'.
  assert (reachable (run es (new_executor cfg))) as Hreach by (by exists cfg, es).
  assert (out_of_queue taskId s) as Hout.
  { destruct (cancelTask_effect taskId _ task Hget) as (Hget' & _ & Hnotin & _).
    split.
    - apply Hnotin, (queue_ok_run cfg es Hfresh).
    - intros task'. unfold s. rewrite Hget'. intros [= <-]. by left. }
  destruct (out_of_queue_run es' s taskId) as [[Hq Hst] Hlog]; [|done..|].
  { apply (reachable_step (CancelTask taskId)), Hreach. }
  split_and!; [apply Hout|done..].
Qed.

(** A queued job is cancelled before the loop runs the two others. *)
Lemma cancelled_job_is_never_dequeued_witness :
  let s := cancelTask "task_3_c"
             (run (submit <$> three_jobs) (new_executor one_at_a_time)) in
  ("task_3_c" ∉ taskQueue s)
  ∧ ("task_3_c" ∉ dequeue_log serve_three s).
Proof.
  intros s.
  destruct (getTask "task_3_c" (run (submit <$> three_jobs) (new_executor one_at_a_time)))
    as [task|] eqn:Hget; [|by vm_compute in Hget].
  destruct (cancelled_job_is_never_dequeued one_at_a_time (submit <$> three_jobs)
              serve_three "task_3_c" task) as (Hq & _ & Hlog & _).
  - vm_compute. reflexivity.
  - exact Hget.
  - unfold serve_three, to_the_end. simpl. repeat constructor; discriminate.
  - by split.
Defined.

(** ** Queued jobs and the queue *)

Section QueuedInQueue.
Implicit Types (s : Executor) (e : Event) (taskId : string).

Lemma elem_of_remove_first_ne x taskId (q : list string) :
  x ≠ taskId → x ∈ q → x ∈ remove_first taskId q.
Proof.
  intros Hne Hin. unfold remove_first.
  destruct (list_find _ q) as [[i y]|] eqn:Hfind; [|done].
  apply list_find_Some in Hfind as (Hi & -> & _).
  rewrite delete_take_drop.
  rewrite <- (take_drop_middle q i taskId Hi) in Hin.
  apply elem_of_app in Hin as [?|[?|?]%elem_of_cons]; [|done|];
    apply elem_of_app; auto.
Qed.

Lemma step_taskQueue_keeps e s x :
  x ∈ taskQueue s →
  x ∈ taskQueue (step e s) ∨ dequeues e s = Some x ∨ e = CancelTask x.
Proof.
  intros Hin.
  assert (∀ now s', taskQueue s' = taskQueue s →
            x ∈ taskQueue (processQueue_turn now s') ∨ turn_dequeues s' = Some x)
    as Hturn.
  { intros now s' Hq. unfold processQueue_turn, processQueue_body, turn_dequeues.
    destruct (isRunning s'); [|left; by rewrite Hq]. rewrite Hq.
    case_match; [|left; by rewrite Hq].
    revert Hin. destruct (taskQueue s) as [|taskId rest]; simpl.
    { by intros ?%elem_of_nil. }
    intros [->|Hin]%elem_of_cons; [by right|]. left.
    destruct (truthy taskId); [|done].
    rewrite executeTask_taskQueue. simpl.
    repeat case_match; rewrite ?elem_of_app; auto. }
  destruct e; cbn [step dequeues].
  - left. simpl. unfold queueTask. case_match; simpl; [|done].
    apply elem_of_splice_insert. by right.
  - unfold start. destruct (isRunning s) eqn:Hr; [by left|].
    destruct (Hturn now (with_isRunning true s) eq_refl) as [?|Hd]; [by left|].
    right; left. unfold turn_dequeues in *. simpl in *. done.
  - by left.
  - unfold processQueue_turn at 1. destruct (isRunning s) eqn:Hr; [|by left].
    destruct (Hturn now s eq_refl) as [Hq|?]; [|by right; left].
    left. unfold processQueue_turn in Hq. by rewrite Hr in Hq.
  - left. rewrite executeTask_continue_spec. by repeat case_match.
  - left. unfold pauseTask. by repeat case_match.
  - left. unfold resumeTask. repeat case_match; try done.
    unfold queueTask. case_match; simpl; [|done].
    apply elem_of_splice_insert. by right.
  - destruct (decide (x = taskId)) as [->|Hne]; [by right; right|]. left.
    unfold cancelTask. repeat case_match; simpl; try done.
    by apply elem_of_remove_first_ne.
  - by left.
Qed.

Lemma getTask_update_inv' taskId l f s task' :
  getTask taskId (update l f s) = Some task' →
  ∃ task, getTask taskId s = Some task
          ∧ (task' = task ∨ tasks s !! taskId = Some l ∧ task' = f task).
Proof.
  rewrite getTask_update. unfold getTask.
  destruct (tasks s !! taskId) as [l'|]; [|done]. simpl.
  case_decide as Hl; [subst l'|by eauto].
  destruct (heap s !! l) as [task|]; [|done]. simpl. intros [= <-]. eauto.
Qed.

Lemma same_table_ok s s' :
  heap s' = heap s → tasks s' = tasks s →
  table_ok (heap s) (tasks s) → table_ok (heap s') (tasks s').
Proof. by intros -> ->. Qed.

Lemma queued_in_queue_turn now s :
  table_ok (heap s) (tasks s) →
  queued_in_queue s → queued_in_queue (processQueue_turn now s).
Proof.
  intros Hok Hinv. unfold processQueue_turn, processQueue_body.
  destruct (isRunning s); [|done]. case_match; [|done].
  destruct (taskQueue s) as [|x rest] eqn:Hq; [done|].
  assert (∀ taskId task, getTask taskId s = Some task →
            Task.status task = queued → taskId ≠ x → taskId ∈ rest) as Hrest.
  { intros taskId task Hget Hst Hne.
    specialize (Hinv taskId task Hget Hst). rewrite Hq in Hinv.
    by apply elem_of_cons in Hinv as [?|?]. }
  assert (queued_in_queue (with_taskQueue (rest ++ [x]) s)) as Hback.
  { intros taskId task Hget Hst. simpl.
    specialize (Hinv taskId task Hget Hst). rewrite Hq in Hinv.
    apply elem_of_app.
    apply elem_of_cons in Hinv as [->|?]; [right; by left|by left]. }
  assert (getTask x s = None → queued_in_queue (with_taskQueue rest s)) as Hdrop.
  { intros Hnone taskId task Hget Hst. apply (Hrest taskId task Hget Hst).
    intros ->. rewrite getTask_with_taskQueue in Hget. congruence. }
  destruct (truthy x) eqn:Htruthy.
  - unfold executeTask. simpl.
    destruct (tasks s !! x) as [l|] eqn:Hl;
      [|apply Hdrop; unfold getTask; by rewrite Hl].
    destruct (heap s !! l) as [task0|] eqn:Hh;
      [|apply Hdrop; unfold getTask; by rewrite Hl].
    case_match; [done|].
    intros taskId task Hget Hst. simpl.
    change (getTask taskId
              (update l (Task.set_progress 0)
                 (update l (Task.set_progress 0)
                    (update l (Task.set_startedAt now)
                       (update l (Task.set_status running) s)))) = Some task)
      in Hget.
    destruct (decide (taskId = x)) as [->|Hne].
    + rewrite !getTask_update in Hget. simpl in Hget. rewrite Hl in Hget.
      rewrite !decide_True in Hget by done. unfold update in Hget. simpl in Hget.
      rewrite !list_lookup_alter_eq, Hh in Hget. simpl in Hget.
      injection Hget as <-. done.
    + apply (Hrest taskId task); [|done..].
      rewrite !(getTask_update_other taskId x) in Hget; try done;
        repeat apply table_ok_alter; done.
  - apply Hdrop. destruct (getTask x s) as [task|] eqn:Hget; [|done].
    by rewrite (getTask_truthy s x task) in Htruthy.
Qed.

Lemma queued_in_queue_step e s :
  table_ok (heap s) (tasks s) → queued_in_queue s → queued_in_queue (step e s).
Proof.
  intros Hok Hinv. destruct e; cbn [step].
  - intros taskId task Hget Hst.
    destruct (decide (taskId = generateTaskId stamp rnd)) as [->|Hne].
    + simpl. simpl in Hget. rewrite getTask_queueTask in Hget.
      unfold queueTask. rewrite Hget. simpl.
      apply elem_of_splice_insert. by left.
    + rewrite getTask_createTask_other in Hget by done.
      destruct (step_taskQueue_keeps
                  (CreateTask name description executor options stamp rnd now)
                  s taskId) as [?|[?|?]]; [by eapply Hinv|done..].
  - unfold start. destruct (isRunning s); [done|].
    by apply (queued_in_queue_turn now (with_isRunning true s)).
  - done.
  - by apply queued_in_queue_turn.
  - rewrite executeTask_continue_spec.
    destruct (suspended s !! k) as [a|]; [|done].
    destruct (act_await a) as [i|]; [|done].
    destruct (i + 10 <=? 100).
    + intros taskId task Hget Hst. simpl.
      change (getTask taskId (update (act_task a) (Task.set_progress (i + 10)) s)
              = Some task) in Hget.
      apply getTask_update_inv' in Hget as (task0 & Hget0 & [->|[_ ->]]);
        by eapply Hinv.
    + intros taskId task Hget Hst. simpl.
      change (getTask taskId (mark_completed now (act_task a) s) = Some task) in Hget.
      unfold mark_completed in Hget.
      repeat (apply getTask_update_inv' in Hget as (? & Hget & [->|[_ ->]]));
        try done; by eapply Hinv.
  - unfold pauseTask. repeat case_match; try done.
    intros taskId' task Hget Hst. simpl.
    apply getTask_update_inv' in Hget as (task0 & Hget0 & [->|[_ ->]]);
      [by eapply Hinv|done].
  - unfold resumeTask.
    destruct (tasks s !! taskId) as [l|] eqn:Hl; [|done].
    destruct (heap s !! l) as [task0|] eqn:Hh; [|done].
    case_bool_decide as Hpaused; [|done].
    intros taskId' task Hget Hst. rewrite getTask_queueTask in Hget.
    assert (getTask taskId (update l (Task.set_status queued) s)
            = Some (Task.set_status queued task0)) as Hget0.
    { rewrite getTask_update, Hl, decide_True by done. by rewrite Hh. }
    unfold queueTask. rewrite Hget0. simpl. apply elem_of_splice_insert.
    apply getTask_update_inv' in Hget as (task1 & Hget1 & [->|[Hl' ->]]).
    + right. by eapply Hinv.
    + left. destruct (Hok _ _ Hl) as (?&?&?&_).
      destruct (Hok _ _ Hl') as (?&?&?&_). congruence.
  - unfold cancelTask.
    destruct (tasks s !! taskId) as [l|] eqn:Hl; [|done].
    destruct (heap s !! l) as [task0|] eqn:Hh; [|done].
    intros taskId' task Hget Hst. simpl.
    change (getTask taskId'
              (update l (Task.set_error "Cancelled by user")
                 (update l (Task.set_status failed) s)) = Some task) in Hget.
    destruct (decide (taskId' = taskId)) as [->|Hne].
    + rewrite !getTask_update in Hget. simpl in Hget. rewrite Hl in Hget.
      rewrite !decide_True in Hget by done. unfold update in Hget. simpl in Hget.
      rewrite !list_lookup_alter_eq, Hh in Hget. simpl in Hget.
      injection Hget as <-. done.
    + rewrite !(getTask_update_other taskId' taskId) in Hget; try done;
        [|by apply table_ok_alter].
      apply elem_of_remove_first_ne; [done|by eapply Hinv].
  - intros taskId task Hget Hst. simpl.
    rewrite clearCompleted_getTask in Hget by done.
    destruct (getTask taskId s) as [task0|] eqn:Hget0; [|done].
    case_decide; [done|]. injection Hget as <-. by eapply Hinv.
Qed.

Lemma queued_in_queue_run cfg es : queued_in_queue (run es (new_executor cfg)).
Proof.
  induction es as [|e es IH] using rev_ind.
  - intros taskId task Hget. unfold getTask in Hget. simpl in Hget.
    by rewrite lookup_empty in Hget.
  - rewrite run_snoc. apply queued_in_queue_step; [|done].
    apply reachable_table_ok. by exists cfg, es.
Qed.

End QueuedInQueue.

(** X14: no queued job is lost: in every state the executor reaches, a
    job of the table whose status is queued has its id in the queue. *)
Theorem queued_jobs_are_in_the_queue
    (cfg : option PartialConfig) (es : list Event)
    (taskId : string) (task : Task.t) :
  let s := run es (new_executor cfg) in
  getTask taskId s = Some task →
  Task.status task = queued →
  taskId ∈ taskQueue s.
Proof. intros s. apply queued_in_queue_run. Qed.

(** The two jobs that wait while the critical one runs. *)
Lemma queued_jobs_are_in_the_queue_witness :
  "task_1_a" ∈ taskQueue
    (run ((submit <$> three_jobs) ++ [Start 10]) (new_executor one_at_a_time)).
Proof.
  set (s := run ((submit <$> three_jobs) ++ [Start 10]) (new_executor one_at_a_time)).
  destruct (getTask "task_1_a" s) as [task|] eqn:Hget; [|by vm_compute in Hget].
  apply (queued_jobs_are_in_the_queue one_at_a_time _ "task_1_a" task Hget).
  vm_compute in Hget. by injection Hget as <-.
Defined.

(** X15: while every submission gets a fresh id, the queue never holds
    an id twice, and a job of the table whose id is in the queue is
    queued or completed: a running, paused or failed job is never in the
    queue. *)
Theorem queue_has_no_duplicates (cfg : option PartialConfig) (es : list Event) :
  fresh_ids es (new_executor cfg) = true →
  let s := run es (new_executor cfg) in
  NoDup (taskQueue s)
  ∧ ∀ taskId task, taskId ∈ taskQueue s → getTask taskId s = Some task →
      Task.status task = queued ∨ Task.status task = completed.
Proof. intros Hfresh s. by apply queue_ok_run. Qed.

(** After the requeued job has completed, its id is still in the queue. *)
Lemma queue_has_no_duplicates_witness :
  let s := run (submit_and_start always_succeeds None
                ++ [PauseTask "task_1_a"; ResumeTask "task_1_a"] ++ to_the_end)
             (new_executor None) in
  NoDup (taskQueue s)
  ∧ (Task.status <$> getTask "task_1_a" s) = Some completed
  ∧ taskQueue s = ["task_1_a"].
Proof.
  intros s.
  destruct (queue_has_no_duplicates None
              (submit_and_start always_succeeds None
               ++ [PauseTask "task_1_a"; ResumeTask "task_1_a"] ++ to_the_end))
    as [Hnd _].
  { vm_compute. reflexivity. }
  split; [exact Hnd|]. split; vm_compute; reflexivity.
Defined.

(** ** Submitting and clearing *)

(** X16: [createTask] with an id that is not yet in the table returns
    that id and adds exactly one job: [getTask] finds it under the id,
    queued, with progress 0, no retries, the given name, description,
    priority (medium by default) and dependencies (none by default);
    every other id is found as before, the table has one more entry, the
    queue has the new id and its former ids, and nothing is started. *)
Theorem createTask_adds_the_job
    (cfg : option PartialConfig) (es : list Event)
    (name description : string) (executor : Body) (options : option TaskOptions)
    (stamp : N) (rnd : string) (now : N) :
  let s := run es (new_executor cfg) in
  tasks s !! generateTaskId stamp rnd = None →
  let '(taskId, s') := createTask name description executor options stamp rnd now s in
  taskId = generateTaskId stamp rnd
  ∧ getTask taskId s' =
      Some {| Task.id := taskId; Task.name := name; Task.description := description;
              Task.priority := or_object (options ≫= opt_priority) medium;
              Task.status := queued; Task.progress := 0; Task.createdAt := now;
              Task.startedAt := None; Task.completedAt := None;
              Task.result := None; Task.error := None;
              Task.dependencies := Some (or_object (options ≫= opt_dependencies) []);
              Task.retries := 0;
              Task.maxRetries :=
                or_number (options ≫= opt_maxRetries) (defaultMaxRetries (config s)) |}
  ∧ (∀ other, other ≠ taskId → getTask other s' = getTask other s)
  ∧ size (tasks s') = S (size (tasks s))
  ∧ taskQueue s' ≡ₚ taskId :: taskQueue s
  ∧ runningTasks s' = runningTasks s
  ∧ suspended s' = suspended s
  ∧ isRunning s' = isRunning s.
Proof.
  intros s Hnew.
  assert (table_ok (heap s) (tasks s)) as Hok
    by (apply reachable_table_ok; by exists cfg, es).
  pose proof (λ other, getTask_createTask_other other name description executor
                         options stamp rnd now s Hok) as Hother.
  simpl in Hother |- *.
  match goal with |- context [queueTask _ ?s1] => set (s1' := s1) in * end.
  assert (getTask (generateTaskId stamp rnd) s1' = Some
            {| Task.id := generateTaskId stamp rnd; Task.name := name;
               Task.description := description;
               Task.priority := or_object (options ≫= opt_priority) medium;
               Task.status := queued; Task.progress := 0; Task.createdAt := now;
               Task.startedAt := None; Task.completedAt := None;
               Task.result := None; Task.error := None;
               Task.dependencies := Some (or_object (options ≫= opt_dependencies) []);
               Task.retries := 0;
               Task.maxRetries :=
                 or_number (options ≫= opt_maxRetries)
                   (defaultMaxRetries (config s)) |}) as Hget.
  { unfold getTask, s1'. simpl. rewrite lookup_insert_eq. simpl.
    by rewrite lookup_app_r, Nat.sub_diag. }
  split_and!.
  - done.
  - by rewrite getTask_queueTask.
  - done.
  - rewrite queueTask_tasks. unfold s1'. simpl.
    by apply map_size_insert_None.
  - unfold queueTask. rewrite Hget. simpl. apply splice_insert_Permutation.
  - by rewrite queueTask_runningTasks.
  - by rewrite queueTask_suspended.
  - by rewrite queueTask_isRunning.
Qed.

(** A fourth job is submitted after the three of [three_jobs]. *)
Lemma createTask_adds_the_job_witness :
  let s := run (submit <$> three_jobs) (new_executor None) in
  let s' := (createTask "fourth" "" always_succeeds None 4 "d" 4 s).2 in
  (Task.status <$> getTask "task_4_d" s') = Some queued
  ∧ size (tasks s') = 4%nat.
Proof.
  intros s s'.
  pose proof (createTask_adds_the_job None (submit <$> three_jobs)
                "fourth" "" always_succeeds None 4 "d" 4) as Hcreate.
  cbv zeta in Hcreate. fold s in Hcreate.
  assert (tasks s !! generateTaskId 4 "d" = None) as Hnew
    by (vm_compute; reflexivity).
  specialize (Hcreate Hnew). subst s'. revert Hcreate.
  destruct (createTask "fourth" "" always_succeeds None 4 "d" 4 s) as [taskId s'].
  intros (-> & Hget & _ & Hsize & _). split.
  - change "task_4_d" with (generateTaskId 4 "d"). simpl snd. by rewrite Hget.
  - simpl snd. rewrite Hsize. vm_compute. reflexivity.
Defined.

Section ClearedTable.
Implicit Types (s : Executor).

Lemma elem_of_getTasksByStatus s st task :
  table_ok (heap s) (tasks s) →
  task ∈ getTasksByStatus st s
  ↔ getTask (Task.id task) s = Some task ∧ Task.status task = st.
Proof.
  intros Hok. unfold getTasksByStatus.
  rewrite list_elem_of_filter, elem_of_getAllTasks. split.
  - intros [Hst (taskId & l & Hl & Hh)]. split; [|done].
    destruct (Hok _ _ Hl) as (task' & Hh' & Hid & _).
    assert (task' = task) as -> by congruence.
    unfold getTask. by rewrite Hid, Hl.
  - intros [Hget Hst]. split; [done|]. unfold getTask in Hget.
    destruct (tasks s !! Task.id task) as [l|] eqn:Hl; [|done]. eauto.
Qed.

Lemma getTasksByStatus_NoDup s st :
  table_ok (heap s) (tasks s) → NoDup (getTasksByStatus st s).
Proof.
  intros Hok. apply (NoDup_fmap_1 Task.id). unfold getTasksByStatus.
  eapply sublist_NoDup; [by apply getAllTasks_NoDup|].
  apply fmap_sublist, sublist_filter.
Qed.

Lemma clearCompleted_no_completed s :
  table_ok (heap s) (tasks s) → getTasksByStatus completed (clearCompleted s) = [].
Proof.
  intros Hok.
  destruct (getTasksByStatus completed (clearCompleted s)) as [|task ts] eqn:Hts;
    [done|].
  assert (task ∈ getTasksByStatus completed (clearCompleted s)) as Hin
    by (rewrite Hts; by left).
  apply elem_of_getTasksByStatus in Hin as [Hget Hst];
    [|by apply table_ok_clearCompleted].
  rewrite clearCompleted_getTask in Hget by done.
  destruct (getTask (Task.id task) s) as [task0|]; [|done].
  case_decide; [done|]. congruence.
Qed.

Lemma clearCompleted_keeps_others s st :
  table_ok (heap s) (tasks s) → st ≠ completed →
  getTasksByStatus st (clearCompleted s) ≡ₚ getTasksByStatus st s.
Proof.
  intros Hok Hst.
  apply NoDup_Permutation;
    [by apply getTasksByStatus_NoDup, table_ok_clearCompleted
    |by apply getTasksByStatus_NoDup|].
  intros task.
  rewrite !elem_of_getTasksByStatus by (done || by apply table_ok_clearCompleted).
  rewrite clearCompleted_getTask by done. split.
  - intros [Hget ?]. split; [|done].
    destruct (getTask (Task.id task) s) as [task0|]; [|done].
    by case_decide.
  - intros [Hget <-]. split; [|done]. rewrite Hget. by rewrite decide_False.
Qed.

End ClearedTable.

(** X17: [clearCompleted] leaves no completed job in the table, so a
    second [clearCompleted] changes nothing; the jobs of every other
    status are the same as before, and the total of [getStats] falls by
    the number of completed jobs. *)
Theorem clearCompleted_is_idempotent (cfg : option PartialConfig) (es : list Event) :
  let s := run es (new_executor cfg) in
  getTasksByStatus completed (clearCompleted s) = []
  ∧ clearCompleted (clearCompleted s) = clearCompleted s
  ∧ n_queued (getStats (clearCompleted s)) = n_queued (getStats s)
  ∧ n_running (getStats (clearCompleted s)) = n_running (getStats s)
  ∧ n_failed (getStats (clearCompleted s)) = n_failed (getStats s)
  ∧ n_paused (getStats (clearCompleted s)) = n_paused (getStats s)
  ∧ n_completed (getStats (clearCompleted s)) = 0%nat
  ∧ (total (getStats (clearCompleted s)) + n_completed (getStats s)
     = total (getStats s))%nat.
Proof.
  intros s.
  assert (table_ok (heap s) (tasks s)) as Hok
    by (apply reachable_table_ok; by exists cfg, es).
  pose proof (clearCompleted_no_completed s Hok) as Hnone.
  assert (∀ st, st ≠ completed →
            length (getTasksByStatus st (clearCompleted s))
            = length (getTasksByStatus st s)) as Hlen.
  { intros st Hst. by rewrite clearCompleted_keeps_others. }
  pose proof (status_partition (getAllTasks s)) as Hsum.
  pose proof (status_partition (getAllTasks (clearCompleted s))) as Hsum'.
  rewrite getAllTasks_length in Hsum by done.
  rewrite getAllTasks_length in Hsum' by (by apply table_ok_clearCompleted).
  fold (getTasksByStatus queued s) (getTasksByStatus running s)
    (getTasksByStatus completed s) (getTasksByStatus failed s)
    (getTasksByStatus paused s) in Hsum.
  fold (getTasksByStatus queued (clearCompleted s))
    (getTasksByStatus running (clearCompleted s))
    (getTasksByStatus completed (clearCompleted s))
    (getTasksByStatus failed (clearCompleted s))
    (getTasksByStatus paused (clearCompleted s)) in Hsum'.
  rewrite Hnone, !Hlen in Hsum' by done.
  change (length (@nil Task.t)) with 0%nat in Hsum'.
  split_and!.
  - done.
  - unfold clearCompleted at 1. by rewrite Hnone.
  - by apply Hlen.
  - by apply Hlen.
  - by apply Hlen.
  - by apply Hlen.
  - unfold getStats. simpl. by rewrite Hnone.
  - unfold getStats. cbn [total n_completed]. lia.
Qed.

(** ** Generated ids *)

Section GeneratedIds.
Implicit Types (s : Executor) (e : Event) (stamp : N) (rnd : string).

Lemma pretty_N_char_digit (x : N) : is_digit (pretty_N_char x) = true.
Proof. unfold pretty_N_char. by repeat case_match. Qed.

Lemma pretty_N_go_digits (x : N) (acc : string) :
  digits acc = true → digits (pretty_N_go x acc) = true.
Proof.
  revert acc. induction (N.lt_wf_0 x) as [x _ IH]; intros acc Hacc.
  assert (x = 0 ∨ 0 < x)%N as [->|Hpos] by lia.
  - by rewrite pretty_N_go_0.
  - rewrite pretty_N_go_step by done. apply IH; [by apply N.div_lt|].
    simpl. by rewrite pretty_N_char_digit.
Qed.

(** The numeral of the time stamp is made of decimal digits. *)
Lemma pretty_N_digits (x : N) : digits (pretty x) = true.
Proof.
  unfold pretty, pretty_N. case_decide; [done|]. by apply pretty_N_go_digits.
Qed.

(** Two strings of digits, each followed by an underscore, end at the
    same place when what they begin is the same string. *)
Lemma digits_split (d1 d2 r1 r2 : string) :
  digits d1 = true → digits d2 = true →
  d1 +:+ "_" +:+ r1 = d2 +:+ "_" +:+ r2 → d1 = d2 ∧ r1 = r2.
Proof.
  revert d2. induction d1 as [|c d1 IH]; intros [|c' d2] H1 H2 Heq.
  - simpl in Heq. by injection Heq.
  - simpl in Heq, H2. injection Heq as <- _. done.
  - simpl in Heq, H1. injection Heq as -> _. done.
  - simpl in Heq, H1, H2. injection Heq as -> Heq.
    apply andb_prop in H1 as [_ H1]. apply andb_prop in H2 as [_ H2].
    destruct (IH d2 H1 H2 Heq) as [-> ->]. done.
Qed.

Lemma generateTaskId_inj stamp1 rnd1 stamp2 rnd2 :
  generateTaskId stamp1 rnd1 = generateTaskId stamp2 rnd2 →
  stamp1 = stamp2 ∧ rnd1 = rnd2.
Proof.
  unfold generateTaskId. intros Heq.
  apply (inj (String.append "task_")) in Heq.
  apply digits_split in Heq as [Hstamp ->]; [|apply pretty_N_digits..].
  split; [|done]. by apply (inj pretty).
Qed.

Lemma creates_readings e :
  creates e = (λ p, generateTaskId p.1 p.2) <$> readings e.
Proof. by destruct e. Qed.

Lemma omap_creates_readings (es : list Event) :
  omap creates es = (λ p, generateTaskId p.1 p.2) <$> omap readings es.
Proof.
  induction es as [|e es IH]; [done|].
  cbn [omap list_omap]. rewrite creates_readings.
  destruct (readings e) as [[stamp rnd]|]; simpl; by rewrite IH.
Qed.

Lemma ids_within_step ids e s :
  table_ok (heap s) (tasks s) →
  ids_within ids s → ids_within (ids ++ option_list (creates e)) (step e s).
Proof.
  intros Hok Hin taskId Hid. apply elem_of_app.
  destruct Hid as [Htab|Hq].
  - assert (e = ClearCompleted ∨ e ≠ ClearCompleted) as [->|Hclear]
      by (destruct e; (by left) || (by right)).
    { left. apply Hin. left. cbn [step] in Htab.
      rewrite clearCompleted_lookup in Htab by done.
      destruct (getTask taskId s) as [task|]; [|done].
      case_decide; [|done]. by destruct Htab. }
    destruct (creates e) as [taskId'|] eqn:Hc.
    + destruct e; try done. injection Hc as <-. cbn [step] in Htab.
      simpl in Htab. rewrite queueTask_tasks in Htab. simpl in Htab.
      destruct (decide (generateTaskId stamp rnd = taskId)) as [<-|Hne].
      * right. simpl. apply elem_of_cons. by left.
      * rewrite lookup_insert_ne in Htab by done. left. apply Hin. by left.
    + rewrite step_tasks in Htab by done. left. apply Hin. by left.
  - apply step_taskQueue_elem in Hq
      as [Hq|[Hc|(_ & task & Hget & _)]].
    + left. apply Hin. by right.
    + right. rewrite Hc. simpl. apply elem_of_cons. by left.
    + left. apply Hin. left. unfold getTask in Hget.
      destruct (tasks s !! taskId); [eauto|done].
Qed.

Lemma fresh_ids_of_distinct ids (es : list Event) s :
  table_ok (heap s) (tasks s) →
  ids_within ids s →
  NoDup (ids ++ omap creates es) →
  fresh_ids es s = true.
Proof.
  revert ids s. induction es as [|e es IH]; intros ids s Hok Hin Hnd; [done|].
  cbn [fresh_ids]. apply andb_true_intro. split.
  - destruct e; try done. cbn [fresh_id].
    apply NoDup_app in Hnd as (_ & Hdisj & _).
    assert (generateTaskId stamp rnd ∉ ids) as Hnew.
    { intros Hold. apply (Hdisj _ Hold). cbn [omap list_omap creates].
      apply elem_of_cons. by left. }
    apply andb_true_intro. split; apply bool_decide_eq_true.
    + destruct (tasks s !! generateTaskId stamp rnd) as [l|] eqn:Hl; [|done].
      destruct Hnew. apply Hin. left. eauto.
    + intros Hq. apply Hnew, Hin. by right.
  - apply (IH (ids ++ option_list (creates e)));
      [by apply table_ok_step|by apply ids_within_step|].
    cbn [omap list_omap] in Hnd.
    destruct (creates e) as [taskId|]; simpl.
    + by rewrite <- app_assoc.
    + by rewrite app_nil_r.
Qed.

End GeneratedIds.

(** X18: the id that [generateTaskId] builds determines the time stamp
    and the random suffix it was built from: two generated ids are equal
    exactly when both are.  So two submissions in different milliseconds
    never get the same id. *)
Theorem generateTaskId_determines_its_readings
    (stamp1 stamp2 : N) (rnd1 rnd2 : string) :
  generateTaskId stamp1 rnd1 = generateTaskId stamp2 rnd2
  ↔ stamp1 = stamp2 ∧ rnd1 = rnd2.
Proof.
  split; [apply generateTaskId_inj|]. by intros [-> ->].
Qed.

(** X19: when no two submissions of a run read the same pair of time
    stamp and random suffix, every submission of the run, from a new
    executor, gets a fresh id: one that is neither in the job table nor
    in the queue at that moment. *)
Theorem distinct_readings_give_fresh_ids
    (cfg : option PartialConfig) (es : list Event) :
  NoDup (omap readings es) → fresh_ids es (new_executor cfg) = true.
Proof.
  intros Hnd. apply (fresh_ids_of_distinct []).
  - apply reachable_table_ok, reachable_new.
  - intros taskId [[l Hl]|Hq].
    + simpl in Hl. by rewrite lookup_empty in Hl.
    + simpl in Hq. by apply elem_of_nil in Hq.
  - rewrite app_nil_l, omap_creates_readings.
    apply NoDup_fmap_2_strong; [|done].
    intros [stamp1 rnd1] [stamp2 rnd2] _ _ Heq. simpl in Heq.
    by apply generateTaskId_inj in Heq as [-> ->].
Qed.

Lemma distinct_readings_give_fresh_ids_witness :
  NoDup (omap readings ((submit <$> three_jobs) ++ serve_three))
  ∧ fresh_ids ((submit <$> three_jobs) ++ serve_three)
      (new_executor one_at_a_time) = true.
Proof.
  assert (NoDup (omap readings ((submit <$> three_jobs) ++ serve_three))) as Hnd.
  { apply (bool_decide_unpack _). by vm_compute. }
  split; [done|].
  exact (distinct_readings_give_fresh_ids one_at_a_time _ Hnd).
Defined.

(** ** Slots of the running set *)

Section Slots.
Implicit Types (s : Executor) (e : Event) (l : nat) (taskId : string).

Lemma fmap_alter_same {A B} (g : A → B) (f : A → A) l (h : list A) :
  (∀ x, g (f x) = g x) → g <$> alter f l h = g <$> h.
Proof.
  intros Hf. rewrite (list_fmap_alter g f id).
  - clear. revert l. induction (g <$> h) as [|y ys IH]; intros [|l]; simpl; [done..|].
    f_equal. apply IH.
  - apply Forall_forall. intros x _. apply Hf.
Qed.

(** The task objects are the jobs of the submissions, in their order. *)
Lemma step_heap_ids e s :
  Task.id <$> heap (step e s) = (Task.id <$> heap s) ++ option_list (creates e).
Proof.
  destruct (creates e) as [taskId|] eqn:Hc.
  - destruct e; try done. injection Hc as <-. cbn [step]. simpl.
    rewrite queueTask_heap. simpl. by rewrite fmap_app.
  - simpl. rewrite app_nil_r.
    destruct (step_heap e s) as [->|[(?&?&?&?&?&?&?&?&->&_)|(l&f&Hf&->)]];
      [done|done|].
    apply fmap_alter_same. intros task.
    by destruct (assigns_same_submission s e l f task Hf) as [? _].
Qed.

Lemma run_heap_ids (es : list Event) s :
  Task.id <$> heap (run es s) = (Task.id <$> heap s) ++ omap creates es.
Proof.
  revert s. induction es as [|e es IH]; intros s.
  - simpl. by rewrite app_nil_r.
  - change (run (e :: es) s) with (run es (step e s)).
    rewrite IH, step_heap_ids, <- app_assoc. f_equal.
    cbn [omap list_omap]. by destruct (creates e).
Qed.

Lemma executeTask_effect now taskId s :
  (heap (executeTask now taskId s) = heap s
   ∧ runningTasks (executeTask now taskId s) = runningTasks s
   ∧ suspended (executeTask now taskId s) = suspended s)
  ∨ ∃ l task,
      tasks s !! taskId = Some l ∧ heap s !! l = Some task
      ∧ heap (executeTask now taskId s) = alter (started now) l (heap s)
      ∧ runningTasks (executeTask now taskId s) = {[taskId]} ∪ runningTasks s
      ∧ suspended (executeTask now taskId s)
        = suspended s ++ [{| act_task := l; act_taskId := taskId;
                             act_await := AwaitProgress 0 |}].
Proof.
  unfold executeTask.
  destruct (tasks s !! taskId) as [l|] eqn:Hl; [|by left].
  destruct (heap s !! l) as [task|] eqn:Hh; [|by left].
  destruct (deps_pending s task); [by left|].
  right. exists l, task. split_and!; try done.
  simpl. by rewrite !list_alter_alter_eq.
Qed.

Lemma processQueue_turn_effect now s :
  (heap (processQueue_turn now s) = heap s
   ∧ runningTasks (processQueue_turn now s) = runningTasks s
   ∧ suspended (processQueue_turn now s) = suspended s)
  ∨ ∃ l task taskId,
      tasks s !! taskId = Some l ∧ heap s !! l = Some task
      ∧ heap (processQueue_turn now s) = alter (started now) l (heap s)
      ∧ runningTasks (processQueue_turn now s) = {[taskId]} ∪ runningTasks s
      ∧ suspended (processQueue_turn now s)
        = suspended s ++ [{| act_task := l; act_taskId := taskId;
                             act_await := AwaitProgress 0 |}].
Proof.
  unfold processQueue_turn, processQueue_body.
  destruct (isRunning s); [|by left]. case_match; [|by left].
  destruct (taskQueue s) as [|taskId rest]; [by left|].
  destruct (truthy taskId); [|by left].
  destruct (executeTask_effect now taskId (with_taskQueue rest s))
    as [?|(l & task & ? & ? & ? & ? & ?)]; [by left|right].
  by exists l, task, taskId.
Qed.

(** An assignment that keeps the id keeps the id of every object. *)
Lemma lookup_alter_id (f : Task.t → Task.t) l l0 (h : list Task.t) task' :
  (∀ task, Task.id (f task) = Task.id task) →
  alter f l h !! l0 = Some task' →
  ∃ task, h !! l0 = Some task ∧ Task.id task' = Task.id task
          ∧ (l0 = l ∧ task' = f task ∨ l0 ≠ l ∧ task' = task).
Proof.
  intros Hf Hl0. destruct (decide (l = l0)) as [->|Hne].
  - rewrite list_lookup_alter_eq in Hl0.
    destruct (h !! l0) as [task|]; [|done]. injection Hl0 as <-.
    exists task. split_and!; [done|apply Hf|by left].
  - rewrite list_lookup_alter_ne in Hl0 by done.
    exists task'. split_and!; [done|done|right]. by split.
Qed.

Lemma calls_ok_alter (f : Task.t → Task.t) l s s' :
  (∀ task, Task.id (f task) = Task.id task) →
  heap s' = alter f l (heap s) →
  (∀ a, a ∈ suspended s' → a ∈ suspended s) →
  calls_ok s → calls_ok s'.
Proof.
  intros Hf Hh Hs Hcalls a Ha.
  destruct (Hcalls a (Hs a Ha)) as (task & Hl & Hid). rewrite Hh.
  destruct (decide (l = act_task a)) as [->|Hne].
  - exists (f task). rewrite list_lookup_alter_eq, Hl. split; [done|].
    by rewrite Hf.
  - exists task. by rewrite list_lookup_alter_ne.
Qed.

Lemma started_id now task : Task.id (started now task) = Task.id task.
Proof. done. Qed.

Lemma finished_id now task : Task.id (finished now task) = Task.id task.
Proof. done. Qed.

(** The control loop: a job that is started gets its slot. *)
Lemma slots_turn now s :
  table_ok (heap s) (tasks s) →
  calls_ok s ∧ slots_ok s →
  calls_ok (processQueue_turn now s) ∧ slots_ok (processQueue_turn now s).
Proof.
  intros Hok [Hcalls Hslots].
  destruct (processQueue_turn_effect now s)
    as [(Hh & Hr & Hs)|(l & task & taskId & Hl & Hh0 & Hh & Hr & Hs)].
  { unfold calls_ok, slots_ok. by rewrite Hh, Hr, Hs. }
  destruct (Hok _ _ Hl) as (task0 & Hh0' & Hid & _).
  assert (task0 = task) as -> by congruence.
  split.
  - intros a Ha. rewrite Hs in Ha. rewrite Hh.
    apply elem_of_app in Ha as [Ha| ->%list_elem_of_singleton].
    + destruct (Hcalls a Ha) as (task' & Hl' & Hid').
      destruct (decide (l = act_task a)) as [->|Hne].
      * exists (started now task'). rewrite list_lookup_alter_eq, Hl'.
        by split.
      * exists task'. by rewrite list_lookup_alter_ne.
    + exists (started now task). simpl. rewrite list_lookup_alter_eq, Hh0.
      by split.
  - intros l0 task' Hl0 Hway. rewrite Hh in Hl0. rewrite Hr.
    apply lookup_alter_id in Hl0
      as (task0 & Hl0 & Hid0 & [[-> ->]| [Hne ->]]); [| |done].
    + apply elem_of_union. left. apply elem_of_singleton.
      rewrite started_id. congruence.
    + apply elem_of_union. right. by eapply Hslots.
Qed.

(** The continuation of a call: the slot is given back when the job is
    marked completed. *)
Lemma slots_continue now k s :
  Forall (λ a, ∃ i, act_await a = AwaitProgress i) (suspended s) →
  NoDup (Task.id <$> heap s) →
  calls_ok s ∧ slots_ok s →
  calls_ok (executeTask_continue now k s) ∧ slots_ok (executeTask_continue now k s).
Proof.
  intros Hloop Hnd [Hcalls Hslots]. rewrite executeTask_continue_spec.
  destruct (suspended s !! k) as [a|] eqn:Hk; [|done].
  assert (a ∈ suspended s) as Ha by by eapply list_elem_of_lookup_2.
  destruct (Forall_lookup_1 _ _ _ _ Hloop Hk) as [i Hi]. rewrite Hi.
  destruct (Hcalls a Ha) as (task_a & Hla & Hida).
  destruct (Z.leb_spec (i + 10) 100) as [Hle|Hgt].
  - split.
    + intros a' Ha'. simpl in Ha'. simpl.
      apply list_elem_of_lookup_1 in Ha' as [j Hj].
      apply list_lookup_insert_Some in Hj as [(_ & <- & _)|[_ Hj]].
      * simpl. exists (Task.set_progress (i + 10) task_a).
        by rewrite list_lookup_alter_eq, Hla.
      * apply list_elem_of_lookup_2 in Hj.
        destruct (Hcalls a' Hj) as (task' & Hl' & Hid').
        destruct (decide (act_task a = act_task a')) as [Heq|Hne].
        -- exists (Task.set_progress (i + 10) task').
           rewrite Heq, list_lookup_alter_eq, Hl'. by split.
        -- exists task'. by rewrite list_lookup_alter_ne.
    + intros l0 task' Hl0 Hway. simpl in Hl0. simpl.
      apply lookup_alter_id in Hl0
        as (task0 & Hl0 & Hid0 & [[-> ->]| [Hne ->]]); [| |done].
      * apply (Hslots (act_task a) task0); [done|]. exact Hway.
      * by eapply Hslots.
  - split.
    + apply (calls_ok_alter (finished now) (act_task a) s); [done| |  |done].
      * simpl. apply mark_completed_heap.
      * simpl. intros a'. apply list_elem_of_delete_inv.
    + intros l0 task' Hl0 Hway.
      change (heap (executeTask_finally k (act_taskId a)
                      (mark_completed now (act_task a) s)))
        with (heap (mark_completed now (act_task a) s)) in Hl0.
      rewrite mark_completed_heap in Hl0.
      change (Task.id task' ∈ runningTasks s ∖ {[act_taskId a]}).
      apply lookup_alter_id in Hl0
        as (task0 & Hl0 & Hid0 & [[-> ->]| [Hne ->]]); [| |done].
      * by destruct Hway.
      * apply elem_of_difference. split; [by eapply Hslots|].
        intros Heq%elem_of_singleton. destruct Hne.
        apply (NoDup_lookup (Task.id <$> heap s) _ _ (Task.id task0) Hnd).
        -- by rewrite list_lookup_fmap, Hl0.
        -- rewrite list_lookup_fmap, Hla. simpl. congruence.
Qed.

(** The operations that leave the running set and the suspended calls
    as they are. *)
Lemma step_frame e s :
  match e with
  | Start _ | LoopTurn _ | Continue _ _ => True
  | _ => runningTasks (step e s) = runningTasks s
         ∧ suspended (step e s) = suspended s
  end.
Proof.
  destruct e; cbn [step]; try done.
  - simpl. by rewrite queueTask_runningTasks, queueTask_suspended.
  - unfold pauseTask. by repeat case_match.
  - unfold resumeTask. repeat case_match; try done.
    by rewrite queueTask_runningTasks, queueTask_suspended.
  - unfold cancelTask. by repeat case_match.
Qed.

Lemma slots_step e s :
  table_ok (heap s) (tasks s) →
  Forall (λ a, ∃ i, act_await a = AwaitProgress i) (suspended s) →
  NoDup (Task.id <$> heap s) →
  calls_ok s ∧ slots_ok s → calls_ok (step e s) ∧ slots_ok (step e s).
Proof.
  intros Hok Hloop Hnd Hinv.
  assert (match e with
          | Start _ | LoopTurn _ | Continue _ _ => False
          | _ => True
          end → calls_ok (step e s) ∧ slots_ok (step e s)) as Hcontrol.
  { intros He. destruct Hinv as [Hcalls Hslots].
    assert (runningTasks (step e s) = runningTasks s
            ∧ suspended (step e s) = suspended s) as [Hr Hs].
    { pose proof (step_frame e s) as Hframe. by destruct e. }
    destruct (step_heap e s)
      as [Hh|[(?&?&?&?&?&?&?&task&_&_&Hh&Hst&_)|(l&f&Hf&Hh)]].
    - unfold calls_ok, slots_ok. by rewrite Hh, Hr, Hs.
    - split.
      + intros a Ha. rewrite Hs in Ha. rewrite Hh.
        destruct (Hcalls a Ha) as (task' & Hl' & Hid').
        exists task'. split; [|done]. by apply lookup_app_l_Some.
      + intros l0 task' Hl0 Hway. rewrite Hh in Hl0. rewrite Hr.
        apply lookup_app_Some in Hl0 as [Hl0|[_ Hl0]]; [by eapply Hslots|].
        apply list_lookup_singleton_Some in Hl0 as [_ <-].
        destruct Hway; congruence.
    - assert (∀ task, Task.id (f task) = Task.id task) as Hid.
      { intros task. by destruct (assigns_same_submission s e l f task Hf). }
      split.
      + apply (calls_ok_alter f l s); [done|done| |done].
        intros a. by rewrite Hs.
      + intros l0 task' Hl0 Hway. rewrite Hh in Hl0. rewrite Hr.
        apply lookup_alter_id in Hl0
          as (task0 & Hl0 & Hid0 & [[-> ->]| [Hne ->]]); [| |done].
        * rewrite Hid. apply (Hslots l task0); [done|].
          destruct e; try done; simpl in Hf.
          -- destruct Hf as (_ & _ & Hrun). unfold status_at in Hrun.
             rewrite Hl0 in Hrun. left. by injection Hrun.
          -- destruct Hf as (_ & -> & _). by destruct Hway.
          -- destruct Hf as (_ & ->). by destruct Hway.
        * by eapply Hslots. }
  destruct e; try (by apply Hcontrol); cbn [step].
  - unfold start. destruct (isRunning s); [done|].
    by apply (slots_turn now (with_isRunning true s)).
  - by apply slots_turn.
  - by apply slots_continue.
Qed.

Lemma slots_run cfg (es : list Event) :
  NoDup (omap readings es) →
  calls_ok (run es (new_executor cfg)) ∧ slots_ok (run es (new_executor cfg)).
Proof.
  intros Hnd.
  assert (NoDup (omap creates es)) as Hnd'.
  { rewrite omap_creates_readings. apply NoDup_fmap_2_strong; [|done].
    intros [stamp1 rnd1] [stamp2 rnd2] _ _ Heq. simpl in Heq.
    by apply generateTaskId_inj in Heq as [-> ->]. }
  clear Hnd.
  cut (Forall (λ a, ∃ i, act_await a = AwaitProgress i)
         (suspended (run es (new_executor cfg)))
       ∧ calls_ok (run es (new_executor cfg))
       ∧ slots_ok (run es (new_executor cfg))).
  { by intros (_ & ? & ?). }
  induction es as [|e es IH] using rev_ind.
  - split_and!.
    + apply Forall_nil_2.
    + intros a Ha. simpl in Ha. by apply elem_of_nil in Ha.
    + intros l task Hl. simpl in Hl. by rewrite lookup_nil in Hl.
  - rewrite omap_app in Hnd'. apply NoDup_app in Hnd' as (Hnd' & _ & _).
    destruct (IH Hnd') as (Hloop & Hcalls & Hslots). rewrite run_snoc.
    split; [by apply step_no_retry_delay|].
    apply slots_step; [|done| |done].
    + apply reachable_table_ok. by exists cfg, es.
    + by rewrite run_heap_ids.
Qed.

End Slots.

(** X20: while no two submissions read the same time stamp and random
    suffix, every job of the table whose status is running or paused
    holds a slot: its id is in the running set, and a call of
    [executeTask] for it has not ended.  So the jobs that [getStats]
    counts as running and as paused are together never more than the
    ids of the running set, and never more than [maxConcurrent] when the
    configured value is not negative. *)
Theorem running_and_paused_jobs_hold_slots
    (cfg : option PartialConfig) (es : list Event) :
  NoDup (omap readings es) →
  let s := run es (new_executor cfg) in
  (∀ taskId task, getTask taskId s = Some task →
     Task.status task = running ∨ Task.status task = paused →
     taskId ∈ runningTasks s
     ∧ ∃ a, a ∈ suspended s ∧ act_taskId a = taskId)
  ∧ (n_running (getStats s) + n_paused (getStats s) ≤ size (runningTasks s))%nat
  ∧ ((∀ n, cfg ≫= given_maxConcurrent = Some n → 0 ≤ n) →
       Z.of_nat (n_running (getStats s) + n_paused (getStats s))
       ≤ maxConcurrent (config s)).
Proof.
  intros Hnd s.
  destruct (slots_run cfg es Hnd) as [_ Hslots]. fold s in Hslots.
  assert (table_ok (heap s) (tasks s)) as Hok
    by (apply reachable_table_ok; by exists cfg, es).
  assert (∀ taskId task, getTask taskId s = Some task →
            Task.status task = running ∨ Task.status task = paused →
            taskId ∈ runningTasks s) as Hin.
  { intros taskId task Hget Hway. unfold getTask in Hget.
    destruct (tasks s !! taskId) as [l|] eqn:Hl; [|done]. simpl in Hget.
    destruct (Hok _ _ Hl) as (task' & Hh & Hid & _).
    assert (task' = task) as -> by congruence.
    rewrite <- Hid. by eapply Hslots. }
  assert (n_running (getStats s) + n_paused (getStats s)
          ≤ size (runningTasks s))%nat as Hcount.
  { simpl.
    set (A := list_to_set (Task.id <$> getTasksByStatus running s) : gset string).
    set (B := list_to_set (Task.id <$> getTasksByStatus paused s) : gset string).
    assert (∀ st, NoDup (Task.id <$> getTasksByStatus st s)) as Hids.
    { intros st. unfold getTasksByStatus.
      eapply sublist_NoDup; [by apply getAllTasks_NoDup|].
      apply fmap_sublist, sublist_filter. }
    assert (∀ st taskId, taskId ∈ Task.id <$> getTasksByStatus st s →
              ∃ task, getTask taskId s = Some task ∧ Task.status task = st)
      as Hmem.
    { intros st taskId (task & -> & Htask)%list_elem_of_fmap.
      apply elem_of_getTasksByStatus in Htask; [|done]. by exists task. }
    assert (size A = length (getTasksByStatus running s)) as HA.
    { unfold A. rewrite size_list_to_set by apply Hids. apply length_fmap. }
    assert (size B = length (getTasksByStatus paused s)) as HB.
    { unfold B. rewrite size_list_to_set by apply Hids. apply length_fmap. }
    rewrite <- HA, <- HB, <- size_union.
    - apply subseteq_size. intros taskId [Hx|Hx]%elem_of_union;
        apply elem_of_list_to_set, Hmem in Hx as (task & Hget & Hst);
        apply (Hin _ task); auto.
    - intros taskId Ha Hb.
      apply elem_of_list_to_set, Hmem in Ha as (task & Hget & Hst).
      apply elem_of_list_to_set, Hmem in Hb as (task' & Hget' & Hst').
      congruence. }
  split_and!; [|done|].
  - intros taskId task Hget Hway. split; [by eapply Hin|].
    apply (running_suspended_run cfg es). by eapply Hin.
  - intros Hcfg. pose proof (within_capacity_run cfg es Hcfg) as Hcap.
    unfold within_capacity in Hcap. fold s in Hcap. lia.
Qed.

Lemma running_and_paused_jobs_hold_slots_witness :
  NoDup (omap readings (submit_and_start always_succeeds None ++ [PauseTask "task_1_a"]))
  ∧ (n_running (getStats (run (submit_and_start always_succeeds None
                                 ++ [PauseTask "task_1_a"]) (new_executor None)))
     + n_paused (getStats (run (submit_and_start always_succeeds None
                                  ++ [PauseTask "task_1_a"]) (new_executor None)))
     ≤ size (runningTasks (run (submit_and_start always_succeeds None
                                  ++ [PauseTask "task_1_a"]) (new_executor None))))%nat.
Proof.
  assert (NoDup (omap readings (submit_and_start always_succeeds None
                                  ++ [PauseTask "task_1_a"]))) as Hnd.
  { apply (bool_decide_unpack _). by vm_compute. }
  split; [done|].
  exact (proj1 (proj2 (running_and_paused_jobs_hold_slots None _ Hnd))).
Defined.

(** ** The record of a job *)

Section Record.
Implicit Types (s : Executor) (e : Event) (l : nat) (task : Task.t).

Lemma assigns_startedAt s e l f task :
  assigns s e l f →
  is_Some (Task.startedAt task) → is_Some (Task.startedAt (f task)).
Proof.
  destruct e; simpl; try done.
  - by intros [-> _].
  - by intros [-> _].
  - intros (a & i & _ & _ & _ & ->). by case_match.
  - by intros (_ & -> & _).
  - by intros (_ & -> & _).
  - by intros [_ ->].
Qed.

Lemma calls_started_alter (f : Task.t → Task.t) l s s' :
  (∀ task, is_Some (Task.startedAt task) → is_Some (Task.startedAt (f task))) →
  heap s' = alter f l (heap s) →
  (∀ a, a ∈ suspended s' → a ∈ suspended s) →
  calls_started s → calls_started s'.
Proof.
  intros Hf Hh Hs Hcalls a Ha.
  destruct (Hcalls a (Hs a Ha)) as (task & Hl & Hst). rewrite Hh.
  destruct (decide (l = act_task a)) as [->|Hne].
  - exists (f task). rewrite list_lookup_alter_eq, Hl. split; [done|].
    by apply Hf.
  - exists task. by rewrite list_lookup_alter_ne.
Qed.

Lemma record_ok_started now task : record_ok task → record_ok (started now task).
Proof.
  intros (Hres & Hdone & Hcomp & Hmsg & Hnew & Hfail).
  by split_and!.
Qed.

Lemma record_ok_progress i task :
  is_Some (Task.startedAt task) →
  record_ok task → record_ok (Task.set_progress i task).
Proof.
  intros [t Ht] (Hres & Hdone & Hcomp & Hmsg & Hnew & Hfail).
  split_and!; simpl; try done. intros Hnone. congruence.
Qed.

Lemma record_ok_finished now task :
  is_Some (Task.startedAt task) →
  record_ok task → record_ok (finished now task).
Proof.
  intros [t Ht] (Hres & Hdone & Hcomp & Hmsg & Hnew & Hfail).
  split_and!; simpl; try done.
  - by intros r [= <-].
  - intros Hnone. congruence.
Qed.

Lemma record_ok_paused task :
  Task.status task = running →
  record_ok task → record_ok (Task.set_status paused task).
Proof.
  intros Hrun (Hres & Hdone & Hcomp & Hmsg & Hnew & Hfail).
  split_and!; simpl; try done.
  intros Hnone. destruct (Hnew Hnone) as [[?|?] _]; congruence.
Qed.

Lemma record_ok_queued task :
  Task.status task = paused →
  record_ok task → record_ok (Task.set_status queued task).
Proof.
  intros Hrun (Hres & Hdone & Hcomp & Hmsg & Hnew & Hfail).
  split_and!; simpl; try done.
  intros Hnone. destruct (Hnew Hnone) as [_ ?]. split; [by left|done].
Qed.

Lemma record_ok_cancelled task : record_ok task → record_ok (cancelled task).
Proof.
  intros (Hres & Hdone & Hcomp & Hmsg & Hnew & Hfail).
  split_and!; simpl; try done.
  intros Hnone. destruct (Hnew Hnone) as [_ ?]. split; [by right|done].
Qed.

Lemma record_turn now s :
  Forall record_ok (heap s) ∧ calls_started s →
  Forall record_ok (heap (processQueue_turn now s))
  ∧ calls_started (processQueue_turn now s).
Proof.
  intros [Hrec Hcalls].
  destruct (processQueue_turn_effect now s)
    as [(Hh & Hr & Hs)|(l & task & taskId & Hl & Hh0 & Hh & Hr & Hs)].
  { unfold calls_started. by rewrite Hh, Hs. }
  split.
  - rewrite Hh. apply Forall_alter; [done|].
    intros task' _. apply record_ok_started.
  - intros a Ha. rewrite Hs in Ha. rewrite Hh.
    apply elem_of_app in Ha as [Ha| ->%list_elem_of_singleton].
    + destruct (Hcalls a Ha) as (task' & Hl' & Hst').
      destruct (decide (l = act_task a)) as [->|Hne].
      * exists (started now task'). rewrite list_lookup_alter_eq, Hl'.
        split; [done|]. by eexists.
      * exists task'. by rewrite list_lookup_alter_ne.
    + exists (started now task). simpl. rewrite list_lookup_alter_eq, Hh0.
      split; [done|]. by eexists.
Qed.

Lemma record_continue now k s :
  Forall (λ a, ∃ i, act_await a = AwaitProgress i) (suspended s) →
  Forall record_ok (heap s) ∧ calls_started s →
  Forall record_ok (heap (executeTask_continue now k s))
  ∧ calls_started (executeTask_continue now k s).
Proof.
  intros Hloop [Hrec Hcalls]. rewrite executeTask_continue_spec.
  destruct (suspended s !! k) as [a|] eqn:Hk; [|done].
  assert (a ∈ suspended s) as Ha by by eapply list_elem_of_lookup_2.
  destruct (Forall_lookup_1 _ _ _ _ Hloop Hk) as [i Hi]. rewrite Hi.
  destruct (Hcalls a Ha) as (task_a & Hla & Hsta).
  destruct (Z.leb_spec (i + 10) 100) as [Hle|Hgt].
  - split.
    + simpl. apply Forall_alter; [done|]. intros task' Hl'.
      apply record_ok_progress. congruence.
    + intros a' Ha'. simpl in Ha'. simpl.
      apply list_elem_of_lookup_1 in Ha' as [j Hj].
      apply list_lookup_insert_Some in Hj as [(_ & <- & _)|[_ Hj]].
      * simpl. exists (Task.set_progress (i + 10) task_a).
        by rewrite list_lookup_alter_eq, Hla.
      * apply list_elem_of_lookup_2 in Hj.
        destruct (Hcalls a' Hj) as (task' & Hl' & Hst').
        destruct (decide (act_task a = act_task a')) as [Heq|Hne].
        -- exists (Task.set_progress (i + 10) task').
           rewrite Heq, list_lookup_alter_eq, Hl'. by split.
        -- exists task'. by rewrite list_lookup_alter_ne.
  - split.
    + change (heap (executeTask_finally k (act_taskId a)
                      (mark_completed now (act_task a) s)))
        with (heap (mark_completed now (act_task a) s)).
      rewrite mark_completed_heap. apply Forall_alter; [done|].
      intros task' Hl'. apply record_ok_finished. congruence.
    + apply (calls_started_alter (finished now) (act_task a) s); [done| | |done].
      * simpl. apply mark_completed_heap.
      * simpl. intros a'. apply list_elem_of_delete_inv.
Qed.

Lemma record_step e s :
  Forall (λ a, ∃ i, act_await a = AwaitProgress i) (suspended s) →
  Forall record_ok (heap s) ∧ calls_started s →
  Forall record_ok (heap (step e s)) ∧ calls_started (step e s).
Proof.
  intros Hloop Hinv.
  assert (match e with
          | Start _ | LoopTurn _ | Continue _ _ => False
          | _ => True
          end → Forall record_ok (heap (step e s)) ∧ calls_started (step e s))
    as Hcontrol.
  { intros He. destruct Hinv as [Hrec Hcalls].
    assert (suspended (step e s) = suspended s) as Hs.
    { pose proof (step_frame e s) as Hframe. destruct e; try done; apply Hframe. }
    destruct (step_heap e s)
      as [Hh|[(?&?&?&?&?&?&?&task&->&Hget&Hh&Hst&Hpr&Hre&Her)|(l&f&Hf&Hh)]].
    - unfold calls_started. by rewrite Hh, Hs.
    - split.
      + rewrite Hh. apply Forall_app. split; [done|]. apply Forall_singleton.
        clear Hget Hst Hpr Hre Her.
        assert (heap (step (CreateTask x x0 x1 x2 x3 x4 x5) s)
                = heap s ++ [task]) as Hh' by (by rewrite <- Hh).
        cbn [step] in Hh'. simpl in Hh'. rewrite queueTask_heap in Hh'.
        simpl in Hh'. apply app_inv_head in Hh'. injection Hh' as <-.
        split_and!; simpl; try done;
          try (split; by intros [? ?]); try (by intros [? ?]).
        intros _. split; [by left|done].
      + intros a Ha. rewrite Hs in Ha. rewrite Hh.
        destruct (Hcalls a Ha) as (task' & Hl' & Hst').
        exists task'. split; [|done]. by apply lookup_app_l_Some.
    - split.
      + rewrite Hh. apply Forall_alter; [done|]. intros task Hl Hok.
        destruct e; try done; simpl in Hf.
        * destruct Hf as (_ & -> & Hrun). unfold status_at in Hrun.
          rewrite Hl in Hrun. apply record_ok_paused; [|done].
          by injection Hrun.
        * destruct Hf as (_ & -> & Hrun). unfold status_at in Hrun.
          rewrite Hl in Hrun. apply record_ok_queued; [|done].
          by injection Hrun.
        * destruct Hf as (_ & ->). by apply record_ok_cancelled.
      + apply (calls_started_alter f l s); [|done| |done].
        * intros task. by eapply assigns_startedAt.
        * intros a. by rewrite Hs. }
  destruct e; try (by apply Hcontrol); cbn [step].
  - unfold start. destruct (isRunning s); [done|].
    by apply (record_turn now (with_isRunning true s)).
  - by apply record_turn.
  - by apply record_continue.
Qed.

Lemma record_run cfg (es : list Event) :
  Forall record_ok (heap (run es (new_executor cfg))).
Proof.
  cut (Forall (λ a, ∃ i, act_await a = AwaitProgress i)
         (suspended (run es (new_executor cfg)))
       ∧ Forall record_ok (heap (run es (new_executor cfg)))
       ∧ calls_started (run es (new_executor cfg))).
  { by intros (_ & ? & _). }
  induction es as [|e es IH] using rev_ind.
  - split_and!.
    + apply Forall_nil_2.
    + apply Forall_nil_2.
    + intros a Ha. simpl in Ha. by apply elem_of_nil in Ha.
  - destruct IH as (Hloop & Hrec & Hcalls). rewrite run_snoc.
    split; [by apply step_no_retry_delay|]. by apply record_step.
Qed.

End Record.

(** X21: in every state the executor reaches, the fields of every job
    of the table agree with each other.  [result] and [completedAt] are
    set together, and only on a job that has its [startedAt]; a
    completed job has both, and the result is the success message with
    the name of the job; a job without [startedAt] is queued or failed
    and has progress 0; and a failed job bears the error of
    [cancelTask]: cancellation is the only way in which a job fails. *)
Theorem job_record_is_consistent
    (cfg : option PartialConfig) (es : list Event) (taskId : string) :
  from_option
    (λ task,
       (is_Some (Task.result task) ↔ is_Some (Task.completedAt task))
       ∧ (Task.status task = completed →
            is_Some (Task.completedAt task) ∧ is_Some (Task.startedAt task)
            ∧ Task.result task
              = Some {| success := true;
                        message := "Task " +:+ Task.name task
                                   +:+ " completed successfully" |})
       ∧ (is_Some (Task.completedAt task) → is_Some (Task.startedAt task))
       ∧ (Task.startedAt task = None →
            (Task.status task = queued ∨ Task.status task = failed)
            ∧ Task.progress task = 0)
       ∧ (Task.status task = failed →
            Task.error task = Some "Cancelled by user"))
    True (getTask taskId (run es (new_executor cfg))).
Proof.
  pose proof (record_run cfg es) as Hrec.
  unfold getTask. destruct (tasks _ !! taskId) as [l|]; [|done]. simpl.
  destruct (heap _ !! l) as [task|] eqn:Hl; [|done]. simpl.
  destruct (Forall_lookup_1 _ _ _ _ Hrec Hl)
    as (Hres & Hdone & Hcomp & Hmsg & Hnew & Hfail).
  split_and!; try done.
  intros Hst. split_and!; [by apply Hdone|by apply Hcomp, Hdone|].
  destruct (proj2 Hres (Hdone Hst)) as [r Hr]. rewrite Hr. f_equal.
  by apply Hmsg.
Qed.

(** ** The times of a job *)

Section Times.
Implicit Types (s : Executor) (e : Event) (l : nat) (task : Task.t) (t : N).

Lemma times_ok_later t t' task : (t ≤ t')%N → times_ok t task → times_ok t' task.
Proof.
  intros Hle (Hc & Hs & Hd & Ho). split_and!; [lia| | |done].
  - intros t1 Ht1. specialize (Hs t1 Ht1). lia.
  - intros t2 Ht2. specialize (Hd t2 Ht2). lia.
Qed.

Lemma times_ok_started t task : times_ok t task → times_ok t (started t task).
Proof.
  intros (Hc & Hs & Hd & Ho). split_and!; simpl; try done.
  intros t1 [= <-]. lia.
Qed.

Lemma times_ok_finished t task : times_ok t task → times_ok t (finished t task).
Proof.
  intros (Hc & Hs & Hd & Ho). split_and!; simpl; try done.
  - by intros t2 [= <-].
  - intros _ t1 t2 Ht1 [= <-]. specialize (Hs t1 Ht1). lia.
Qed.

Lemma times_ok_status t st task :
  st ≠ completed → times_ok t task → times_ok t (Task.set_status st task).
Proof. intros Hst (Hc & Hs & Hd & Ho). by split_and!. Qed.

Lemma times_ok_cancelled t task : times_ok t task → times_ok t (cancelled task).
Proof. intros (Hc & Hs & Hd & Ho). by split_and!. Qed.

Lemma times_ok_progress t i task :
  times_ok t task → times_ok t (Task.set_progress i task).
Proof. intros (Hc & Hs & Hd & Ho). by split_and!. Qed.

Lemma times_step e s t t' :
  (t ≤ t')%N →
  (∀ now, clock e = Some now → now = t') →
  Forall (times_ok t) (heap s) → Forall (times_ok t') (heap (step e s)).
Proof.
  intros Hle Hclock Hall.
  assert (Forall (times_ok t') (heap s)) as Hall'.
  { eapply Forall_impl; [done|]. intros task. by apply times_ok_later. }
  clear Hall.
  destruct (step_heap e s)
    as [->|[(?&?&?&?&?&?&?&task&->&_&Hh&_)|(l&f&Hf&->)]]; [done|..].
  - rewrite Hh. apply Forall_app. split; [done|]. apply Forall_singleton.
    assert (heap (step (CreateTask x x0 x1 x2 x3 x4 x5) s)
            = heap s ++ [task]) as Hh' by (by rewrite <- Hh).
    cbn [step] in Hh'. simpl in Hh'. rewrite queueTask_heap in Hh'.
    simpl in Hh'. apply app_inv_head in Hh'. injection Hh' as <-.
    rewrite (Hclock x5 eq_refl). by split_and!.
  - apply Forall_alter; [done|]. intros task _ Hok.
    destruct e; try done; simpl in Hf.
    + destruct Hf as [-> _]. rewrite (Hclock now eq_refl).
      by apply times_ok_started.
    + destruct Hf as [-> _]. rewrite (Hclock now eq_refl).
      by apply times_ok_started.
    + destruct Hf as (a & i & _ & _ & _ & ->). rewrite (Hclock now eq_refl).
      destruct (i + 10 <=? 100);
        [by apply times_ok_progress|by apply times_ok_finished].
    + destruct Hf as (_ & -> & _). by apply times_ok_status.
    + destruct Hf as (_ & -> & _). by apply times_ok_status.
    + destruct Hf as (_ & ->). by apply times_ok_cancelled.
Qed.

Lemma times_run (es : list Event) s t :
  clock_ok t es = true →
  Forall (times_ok t) (heap s) →
  ∃ t', Forall (times_ok t') (heap (run es s)).
Proof.
  revert s t. induction es as [|e es IH]; intros s t Hclock Hall; [by exists t|].
  change (run (e :: es) s) with (run es (step e s)).
  cbn [clock_ok] in Hclock. destruct (clock e) as [now|] eqn:He.
  - apply andb_prop in Hclock as [Hle%N.leb_le Hclock].
    apply (IH _ now); [done|]. apply (times_step e s t now); [done| |done].
    intros now'. rewrite He. by intros [= <-].
  - apply (IH _ t); [done|]. apply (times_step e s t t); [done| |done].
    intros now'. by rewrite He.
Qed.

End Times.

(** X22: while the clock never goes back, the times of every job of the
    table are in order: a job is started no earlier than it was created,
    and a completed job has both its [startedAt] and its [completedAt],
    the second no earlier than the first. *)
Theorem job_times_are_in_order
    (cfg : option PartialConfig) (es : list Event) (taskId : string) :
  clock_ok 0 es = true →
  from_option
    (λ task,
       (∀ t1, Task.startedAt task = Some t1 → (Task.createdAt task ≤ t1)%N)
       ∧ (Task.status task = completed →
            ∃ t1 t2, Task.startedAt task = Some t1
                     ∧ Task.completedAt task = Some t2
                     ∧ (Task.createdAt task ≤ t1 ≤ t2)%N))
    True (getTask taskId (run es (new_executor cfg))).
Proof.
  intros Hclock.
  destruct (times_run es (new_executor cfg) 0%N Hclock) as [t Htimes];
    [apply Forall_nil_2|].
  pose proof (record_run cfg es) as Hrec.
  unfold getTask. destruct (tasks _ !! taskId) as [l|]; [|done]. simpl.
  destruct (heap _ !! l) as [task|] eqn:Hl; [|done]. simpl.
  destruct (Forall_lookup_1 _ _ _ _ Htimes Hl) as (Hc & Hs & Hd & Ho).
  destruct (Forall_lookup_1 _ _ _ _ Hrec Hl)
    as (Hres & Hdone & Hcomp & Hmsg & Hnew & Hfail).
  split.
  - intros t1 Ht1. specialize (Hs t1 Ht1). lia.
  - intros Hst. destruct (Hdone Hst) as [t2 Ht2].
    destruct (Hcomp (Hdone Hst)) as [t1 Ht1]. exists t1, t2.
    split_and!; [done|done|by apply Hs|by apply Ho].
Qed.

Lemma job_times_are_in_order_witness :
  clock_ok 0 (submit_and_start always_succeeds None ++ to_the_end) = true
  ∧ from_option
      (λ task,
         (∀ t1, Task.startedAt task = Some t1 → (Task.createdAt task ≤ t1)%N)
         ∧ (Task.status task = completed →
              ∃ t1 t2, Task.startedAt task = Some t1
                       ∧ Task.completedAt task = Some t2
                       ∧ (Task.createdAt task ≤ t1 ≤ t2)%N))
      True
      (getTask "task_1_a"
         (run (submit_and_start always_succeeds None ++ to_the_end)
            (new_executor None))).
Proof.
  split; [by vm_compute|].
  apply (job_times_are_in_order None
           (submit_and_start always_succeeds None ++ to_the_end) "task_1_a").
  by vm_compute.
Defined.

(** ** Stopping, and resuming a job under way *)

Section Again.
Implicit Types (s : Executor) (e : Event) (l : nat) (taskId : string).

Lemma queueTask_stop taskId s : queueTask taskId (stop s) = stop (queueTask taskId s).
Proof.
  unfold queueTask, stop, getTask. simpl.
  by destruct (tasks s !! taskId ≫= λ l, heap s !! l).
Qed.


End Again.

(** X23: [stop] only keeps the control loop from taking jobs.  Every
    operation other than [start] and the turn of the loop does to a
    stopped executor what it does to a running one; in particular the
    calls of [executeTask] in flight go on to their ends. *)
Theorem stop_leaves_the_operations (e : Event) (s : Executor) :
  match e with
  | Start _ => True
  | LoopTurn _ => step e (stop s) = stop s
  | _ => step e (stop s) = stop (step e s)
  end.
Proof.
  destruct e; cbn [step]; try done.
  - simpl. rewrite <- queueTask_stop. done.
  - rewrite !executeTask_continue_spec. simpl.
    destruct (suspended s !! k) as [a|]; [|done].
    destruct (act_await a) as [i|]; [|done].
    by destruct (i + 10 <=? 100).
  - unfold pauseTask. simpl. by repeat case_match.
  - unfold resumeTask. simpl. repeat case_match; try done.
    by rewrite <- queueTask_stop.
  - unfold cancelTask. simpl. by repeat case_match.
Qed.



(** ** The place of an id in the queue *)

Section Place.
Implicit Types (s : Executor) (taskId : string).

(** The scan of [queueTask] splits the queue at the first id that
    passes its test. *)
Lemma insertIndex_split s r :
  ∃ l1 l2,
    taskQueue s = l1 ++ l2
    ∧ insertIndex s r = length l1
    ∧ Forall (λ x, ranks_after s r x = false) l1
    ∧ from_option (λ x, ranks_after s r x = true) True (head l2).
Proof.
  unfold insertIndex.
  destruct (list_find _ (taskQueue s)) as [[i x]|] eqn:Hfind.
  - apply list_find_Some in Hfind as (Hi & Hx & Hbefore).
    exists (take i (taskQueue s)), (drop i (taskQueue s)). split_and!.
    + by rewrite take_drop.
    + rewrite length_take. apply lookup_lt_Some in Hi. lia.
    + apply Forall_lookup_2. intros j y [Hj Hlt]%lookup_take_Some.
      specialize (Hbefore j y Hj Hlt).
      by destruct (ranks_after s r y).
    + by rewrite (drop_S _ x i Hi).
  - apply list_find_None in Hfind.
    exists (taskQueue s), []. split_and!; [by rewrite app_nil_r|done| |done].
    eapply Forall_impl; [done|]. intros y Hy. simpl in Hy.
    by destruct (ranks_after s r y).
Qed.

End Place.

(** X25: [queueTask] puts the id of a job of the table immediately
    before the first id of the queue that names a job of strictly lower
    priority, or at the end when there is none.  No id before that place
    names a job of strictly lower priority; the ids behind it are not
    looked at, so that in a queue that is not in priority order (after a
    deferral) the id may come to stand before jobs of higher priority.
    The ids that were in the queue keep their order, and nothing but
    the queue changes. *)
Theorem queueTask_inserts_before_first_lower
    (taskId : string) (s : Executor) (task : Task.t) :
  getTask taskId s = Some task →
  ∃ l1 l2,
    taskQueue s = l1 ++ l2
    ∧ taskQueue (queueTask taskId s) = l1 ++ taskId :: l2
    ∧ Forall (λ x, ∀ queuedTask, getTask x s = Some queuedTask →
                priorityOrder (Task.priority queuedTask)
                ≤ priorityOrder (Task.priority task)) l1
    ∧ from_option
        (λ x, ∃ queuedTask, getTask x s = Some queuedTask
                ∧ priorityOrder (Task.priority task)
                  < priorityOrder (Task.priority queuedTask))
        True (head l2)
    ∧ queueTask taskId s = with_taskQueue (l1 ++ taskId :: l2) s.
Proof.
  intros Hget.
  destruct (insertIndex_split s (priorityOrder (Task.priority task)))
    as (l1 & l2 & Hq & Hi & H1 & H2).
  assert (queueTask taskId s = with_taskQueue (l1 ++ taskId :: l2) s) as Hs.
  { unfold queueTask. rewrite Hget. simpl. rewrite Hi, Hq.
    by rewrite splice_insert_app. }
  exists l1, l2. split_and!; [done|by rewrite Hs| | |done].
  - eapply Forall_impl; [exact H1|]. simpl. intros x Hx queuedTask Hq'.
    unfold ranks_after in Hx. rewrite Hq' in Hx. by apply Z.ltb_ge in Hx.
  - destruct (head l2) as [x|]; [|done]. simpl in *.
    unfold ranks_after in H2. destruct (getTask x s) as [queuedTask|]; [|done].
    exists queuedTask. split; [done|]. by apply Z.ltb_lt.
Qed.

Lemma queueTask_inserts_before_first_lower_witness :
  ∃ l1 l2,
    taskQueue (run (submit <$> three_jobs) (new_executor None)) = l1 ++ l2
    ∧ taskQueue (queueTask "task_3_c" (run (submit <$> three_jobs) (new_executor None)))
      = l1 ++ "task_3_c" :: l2.
Proof.
  assert (∃ task, getTask "task_3_c" (run (submit <$> three_jobs) (new_executor None))
                  = Some task) as [task Hget].
  { eexists. by vm_compute. }
  destruct (queueTask_inserts_before_first_lower "task_3_c" _ task Hget)
    as (l1 & l2 & Hq & Hq' & _).
  by exists l1, l2.
Defined.

(** ** Where the ids come from *)

Section Origin.
Implicit Types (s : Executor) (e : Event) (l : nat) (taskId : string).

Lemma omap_creates_snoc (es : list Event) e :
  omap creates (es ++ [e]) = omap creates es ++ option_list (creates e).
Proof. by rewrite omap_app. Qed.

(** Every id of the table, of the queue and of the running set was
    generated by a submission of the run. *)
Lemma ids_within_run cfg (es : list Event) :
  let s := run es (new_executor cfg) in
  ids_within (omap creates es) s
  ∧ ∀ taskId, taskId ∈ runningTasks s → taskId ∈ omap creates es.
Proof.
  induction es as [|e es IH] using rev_ind.
  - split.
    + intros taskId [[l Hl]|Hq].
      * simpl in Hl. by rewrite lookup_empty in Hl.
      * simpl in Hq. by apply elem_of_nil in Hq.
    + intros taskId Hin. simpl in Hin. by apply not_elem_of_empty in Hin.
  - destruct IH as [Hids Hrun]. cbv zeta. rewrite run_snoc, omap_creates_snoc.
    set (s := run es (new_executor cfg)) in *.
    assert (table_ok (heap s) (tasks s)) as Hok
      by (apply reachable_table_ok; by exists cfg, es).
    split; [by apply ids_within_step|].
    intros taskId Hin. apply elem_of_app.
    assert (∀ now s', tasks s' = tasks s → runningTasks s' = runningTasks s →
              taskId ∈ runningTasks (processQueue_turn now s') →
              taskId ∈ omap creates es) as Hturn.
    { intros now s' Ht Hr Hin'.
      destruct (processQueue_turn_effect now s')
        as [(_ & Hr' & _)|(l & task & taskId' & Hl & _ & _ & Hr' & _)];
        rewrite Hr' in Hin'.
      - apply Hrun. by rewrite <- Hr.
      - apply elem_of_union in Hin' as [->%elem_of_singleton|Hin'].
        + apply Hids. left. rewrite <- Ht. eauto.
        + apply Hrun. by rewrite <- Hr. }
    left. destruct e; cbn [step] in Hin.
    + apply Hrun. simpl in Hin. by rewrite queueTask_runningTasks in Hin.
    + unfold start in Hin. destruct (isRunning s); [by apply Hrun|].
      by apply (Hturn now (with_isRunning true s)).
    + by apply Hrun.
    + by apply (Hturn now s).
    + apply Hrun. by eapply executeTask_continue_runningTasks.
    + apply Hrun. pose proof (step_frame (PauseTask taskId0) s) as [Hr _].
      cbn [step] in Hr. by rewrite <- Hr.
    + apply Hrun. pose proof (step_frame (ResumeTask taskId0) s) as [Hr _].
      cbn [step] in Hr. by rewrite <- Hr.
    + apply Hrun. pose proof (step_frame (CancelTask taskId0) s) as [Hr _].
      cbn [step] in Hr. by rewrite <- Hr.
    + by apply Hrun.
Qed.

Lemma executeTask_started_deps now taskId s :
  heap (executeTask now taskId s) = heap s
  ∨ ∃ l task,
      heap s !! l = Some task ∧ deps_pending s task = false
      ∧ heap (executeTask now taskId s) = alter (started now) l (heap s).
Proof.
  unfold executeTask.
  destruct (tasks s !! taskId) as [l|] eqn:Hl; [|by left].
  destruct (heap s !! l) as [task|] eqn:Hh; [|by left].
  destruct (deps_pending s task) eqn:Hdeps; [by left|].
  right. exists l, task. split_and!; try done.
  simpl. by rewrite !list_alter_alter_eq.
Qed.

Lemma processQueue_turn_started_deps now s :
  heap (processQueue_turn now s) = heap s
  ∨ ∃ l task,
      heap s !! l = Some task ∧ deps_pending s task = false
      ∧ heap (processQueue_turn now s) = alter (started now) l (heap s).
Proof.
  unfold processQueue_turn, processQueue_body.
  destruct (isRunning s); [|by left]. case_match; [|by left].
  destruct (taskQueue s) as [|taskId rest]; [by left|].
  destruct (truthy taskId); [|by left].
  apply (executeTask_started_deps now taskId (with_taskQueue rest s)).
Qed.

(** A step starts no job that has a dependency outside the table. *)
Lemma unstarted_step e s depId :
  getTask depId s = None →
  Forall (λ task, ∀ ds, Task.dependencies task = Some ds → depId ∈ ds →
            Task.startedAt task = None) (heap s) →
  Forall (λ task, ∀ ds, Task.dependencies task = Some ds → depId ∈ ds →
            Task.startedAt task = None) (heap (step e s)).
Proof.
  intros Hdep Hall.
  assert (∀ now s', heap s' = heap s → tasks s' = tasks s →
            Forall (λ task, ∀ ds, Task.dependencies task = Some ds → depId ∈ ds →
                      Task.startedAt task = None) (heap (processQueue_turn now s')))
    as Hturn.
  { intros now s' Hh Ht.
    destruct (processQueue_turn_started_deps now s')
      as [->|(l & task & Hl & Hdeps & ->)]; [by rewrite Hh|].
    rewrite Hh. apply Forall_alter; [done|]. intros task' Hl' _ ds Hds Hin.
    rewrite Hh in Hl. assert (task' = task) as -> by congruence.
    destruct (proj1 (deps_pending_false s' task) Hdeps ds depId Hds Hin)
      as (dep & Hget & _).
    unfold getTask in Hget, Hdep. rewrite Hh, Ht in Hget. congruence. }
  destruct e; try (cbn [step]; unfold start; try destruct (isRunning s);
                   first [done|by apply Hturn]).
  - cbn [step]. simpl. rewrite queueTask_heap. simpl.
    apply Forall_app. split; [done|]. by apply Forall_singleton.
  - destruct (step_heap (Continue k now) s)
      as [->|[(?&?&?&?&?&?&?&?&?&_)|(l&f&Hf&->)]]; [done|done|].
    apply Forall_alter; [done|]. intros task _ Htask.
    simpl in Hf. destruct Hf as (a & i & _ & _ & _ & ->).
    by destruct (i + 10 <=? 100).
  - destruct (step_heap (PauseTask taskId) s)
      as [->|[(?&?&?&?&?&?&?&?&?&_)|(l&f&Hf&->)]]; [done|done|].
    apply Forall_alter; [done|]. intros task _ Htask.
    simpl in Hf. by destruct Hf as (_ & -> & _).
  - destruct (step_heap (ResumeTask taskId) s)
      as [->|[(?&?&?&?&?&?&?&?&?&_)|(l&f&Hf&->)]]; [done|done|].
    apply Forall_alter; [done|]. intros task _ Htask.
    simpl in Hf. by destruct Hf as (_ & -> & _).
  - destruct (step_heap (CancelTask taskId) s)
      as [->|[(?&?&?&?&?&?&?&?&?&_)|(l&f&Hf&->)]]; [done|done|].
    apply Forall_alter; [done|]. intros task _ Htask.
    simpl in Hf. by destruct Hf as (_ & ->).
Qed.

Lemma unstarted_run cfg (es : list Event) depId :
  depId ∉ omap creates es →
  Forall (λ task, ∀ ds, Task.dependencies task = Some ds → depId ∈ ds →
            Task.startedAt task = None) (heap (run es (new_executor cfg))).
Proof.
  induction es as [|e es IH] using rev_ind; intros Hnew; [apply Forall_nil_2|].
  rewrite omap_creates_snoc in Hnew. rewrite run_snoc.
  assert (depId ∉ omap creates es) as Hnew'.
  { intros Hin. apply Hnew, elem_of_app. by left. }
  apply unstarted_step; [|by apply IH].
  destruct (getTask depId (run es (new_executor cfg))) as [dep|] eqn:Hget; [|done].
  destruct Hnew'. destruct (ids_within_run cfg es) as [Hids _].
  apply Hids. left.
  unfold getTask in Hget. destruct (tasks _ !! depId); [eauto|done].
Qed.

End Origin.

(** X26: every id in use was generated by a submission of the run: the
    ids of the jobs of the table, the ids in the queue and the ids of
    the running set are ids that [createTask] generated, and [getTask]
    gives for an id the job that bears it. *)
Theorem ids_come_from_submissions
    (cfg : option PartialConfig) (es : list Event) (taskId : string) :
  let s := run es (new_executor cfg) in
  (is_Some (getTask taskId s) ∨ taskId ∈ taskQueue s ∨ taskId ∈ runningTasks s →
     taskId ∈ omap creates es
     ∧ ∃ stamp rnd, taskId = generateTaskId stamp rnd)
  ∧ from_option (λ task, Task.id task = taskId) True (getTask taskId s).
Proof.
  intros s. destruct (ids_within_run cfg es) as [Hids Hrun]. fold s in Hids, Hrun.
  assert (table_ok (heap s) (tasks s)) as Hok
    by (apply reachable_table_ok; by exists cfg, es).
  split.
  - intros Hin.
    assert (taskId ∈ omap creates es) as Hgen.
    { destruct Hin as [[task Hget]|[Hq|Hr]].
      - apply Hids. left. unfold getTask in Hget.
        destruct (tasks s !! taskId); [eauto|done].
      - apply Hids. by right.
      - by apply Hrun. }
    split; [done|].
    apply list_elem_of_omap in Hgen as (e & _ & He).
    destruct e; try done. injection He as <-. eauto.
  - unfold getTask. destruct (tasks s !! taskId) as [l|] eqn:Hl; [|done]. simpl.
    destruct (Hok _ _ Hl) as (task & -> & Hid & _). done.
Qed.

(** X27: a job that depends on an id that no submission of the run
    generates is never started: it has no [startedAt], its status is
    queued or failed, and its progress is 0. *)
Theorem job_with_missing_dependency_never_starts
    (cfg : option PartialConfig) (es : list Event)
    (taskId depId : string) (task : Task.t) (ds : list string) :
  depId ∉ omap creates es →
  getTask taskId (run es (new_executor cfg)) = Some task →
  Task.dependencies task = Some ds →
  depId ∈ ds →
  Task.startedAt task = None
  ∧ (Task.status task = queued ∨ Task.status task = failed)
  ∧ Task.progress task = 0
  ∧ Task.completedAt task = None
  ∧ Task.result task = None.
Proof.
  intros Hnew Hget Hds Hin.
  pose proof (unstarted_run cfg es depId Hnew) as Hall.
  pose proof (record_run cfg es) as Hrec.
  unfold getTask in Hget. destruct (tasks _ !! taskId) as [l|]; [|done].
  simpl in Hget.
  pose proof (Forall_lookup_1 _ _ _ _ Hall Hget ds Hds Hin) as Hst.
  destruct (Forall_lookup_1 _ _ _ _ Hrec Hget)
    as (Hres & Hdone & Hcomp & Hmsg & Hnone & Hfail).
  destruct (Hnone Hst) as [Hstatus Hprogress].
  assert (Task.completedAt task = None) as Hc.
  { destruct (Task.completedAt task) as [t|] eqn:Ht; [|done].
    destruct Hcomp as [t' Ht']; [by eexists|]. congruence. }
  split_and!; try done.
  destruct (Task.result task) as [r|] eqn:Hr; [|done].
  destruct (proj1 Hres) as [t Ht]; [by eexists|]. congruence.
Qed.

Lemma job_with_missing_dependency_never_starts_witness :
  ∃ task,
    getTask "task_1_a" (run (submit_blocked ++ [LoopTurn 3; LoopTurn 4])
                          (new_executor None)) = Some task
    ∧ Task.startedAt task = None.
Proof.
  eexists. split; [by vm_compute|].
  eapply (job_with_missing_dependency_never_starts None
            (submit_blocked ++ [LoopTurn 3; LoopTurn 4])
            "task_1_a" "task_0_z" _ ["task_0_z"]).
  - apply (bool_decide_unpack _). by vm_compute.
  - by vm_compute.
  - by vm_compute.
  - apply (bool_decide_unpack _). by vm_compute.
Defined.

(** X28: no job is dropped silently.  A job of the table is still in the
    table after every step that does not submit a job under its id, with
    the fields of its submission unchanged, unless the step is
    [clearCompleted] and the job is completed: then, and only then, it
    is removed. *)
Theorem job_stays_until_cleared
    (cfg : option PartialConfig) (es : list Event) (e : Event)
    (taskId : string) (task : Task.t) :
  let s := run es (new_executor cfg) in
  getTask taskId s = Some task →
  creates e ≠ Some taskId →
  (∃ task', getTask taskId (step e s) = Some task' ∧ same_submission task task'
            ∧ ¬ (e = ClearCompleted ∧ Task.status task = completed))
  ∨ (e = ClearCompleted ∧ Task.status task = completed
     ∧ getTask taskId (step e s) = None).
Proof.
  intros s Hget Hnew.
  assert (table_ok (heap s) (tasks s)) as Hok
    by (apply reachable_table_ok; by exists cfg, es).
  assert (e = ClearCompleted ∨ e ≠ ClearCompleted) as [->|Hclear]
    by (destruct e; (by left) || (by right)).
  { cbn [step]. rewrite clearCompleted_getTask, Hget by done.
    destruct (decide (Task.status task = completed)) as [Hst|Hst].
    - right. by split_and!.
    - left. exists task. split_and!; [done|apply same_submission_refl|].
      by intros [_ ?]. }
  left.
  assert (∃ task', getTask taskId (step e s) = Some task'
                   ∧ same_submission task task') as (task' & Hget' & Hsame).
  { destruct (creates e) as [taskId'|] eqn:Hc.
    - destruct e; try done. injection Hc as <-. cbn [step].
      exists task. split; [|apply same_submission_refl].
      rewrite getTask_createTask_other; [done|done|]. congruence.
    - unfold getTask in *. rewrite step_tasks by done.
      destruct (tasks s !! taskId) as [l|]; [|done]. simpl in *.
      by apply step_same_submission. }
  exists task'. split_and!; [done|done|]. by intros [? _].
Qed.

Lemma job_stays_until_cleared_witness :
  let s := run (submit_and_start always_succeeds None) (new_executor None) in
  ∃ task', getTask "task_1_a" (step (CancelTask "task_1_a") s) = Some task'.
Proof.
  intros s.
  assert (∃ task, getTask "task_1_a" s = Some task) as [task Hget].
  { eexists. by vm_compute. }
  destruct (job_stays_until_cleared None (submit_and_start always_succeeds None)
              (CancelTask "task_1_a") "task_1_a" task Hget)
    as [(task' & Hget' & _)|(Hclear & _)]; [done| |done].
  by exists task'.
Defined.
